(** * AI Copilot Reviewer: the response reconciliation engine

    A shallow embedding of [ai-copilot-reviewer/src/extension.js]: the
    response parser (regular-expression extraction and [JSON.parse]), the
    quality filter, the coordinate mapper, the severity mapping, the three
    write operations on the diagnostic collection and the chat session.

    Modelling conventions.
    - A JavaScript string is its sequence of UTF-16 code units ([jsstring]).
    - A JavaScript number is [NaN], an infinity or an exact rational; the
      rounding of IEEE doubles is not modelled (integers below 2^53, the
      only numbers the editor produces, are exact in both).
    - Code that can throw returns a [result]; the asynchronous functions are
      cut at their single network [await]: the embedding takes the settled
      outcome of [axios.post] as an argument.
    - Objects with identity ([vscode.Diagnostic], the nodes of the chat
      container) carry the address they were allocated at.
    - The progress notification around a review, the output channel and
      the styling of the chat view are left out. *)

From Stdlib Require Import ZArith QArith Qround Qminmax List Bool Ascii String Lia.
From stdpp Require Import base option list gmap strings.

Local Open Scope N_scope.

(** ** JavaScript strings *)

Definition jsstring := list N.

(** The code units of an ASCII literal of the source. *)
Definition lit (s : string) : jsstring :=
  List.map N_of_ascii (list_ascii_of_string s).

Fixpoint str_eqb (s t : jsstring) : bool :=
  match s, t with
  | [], [] => true
  | c :: s', d :: t' => N.eqb c d && str_eqb s' t'
  | _, _ => false
  end.

Fixpoint starts_with (p s : jsstring) : bool :=
  match p, s with
  | [], _ => true
  | c :: p', d :: s' => N.eqb c d && starts_with p' s'
  | _ :: _, [] => false
  end.

(** [String.prototype.includes]: some suffix of [s] starts with [p]. *)
Fixpoint includes (s p : jsstring) : bool :=
  starts_with p s ||
  match s with
  | [] => false
  | _ :: s' => includes s' p
  end.

(** [String.prototype.toLowerCase], one code unit at a time.  ASCII and
    Latin-1 capitals move by 32; U+0130 becomes [i] followed by U+0307 and
    U+212A (the Kelvin sign) becomes [k]: these are the only code units
    outside ASCII whose lower case contains an ASCII letter.  Every other
    code unit is kept, which is exact for what the program observes, the
    presence of an ASCII keyword. *)
Definition lower_unit (c : N) : jsstring :=
  if (65 <=? c) && (c <=? 90) then [c + 32]
  else if (192 <=? c) && (c <=? 222) && negb (c =? 215) then [c + 32]
  else if c =? 304 then [105; 775]
  else if c =? 8490 then [107]
  else [c].

Definition toLowerCase (s : jsstring) : jsstring := flat_map lower_unit s.

(** White space and line terminators, as [trim] and the conversion of
    strings to numbers strip them. *)
Definition is_space (c : N) : bool :=
  ((9 <=? c) && (c <=? 13)) || (c =? 32) || (c =? 160) || (c =? 5760)
  || ((8192 <=? c) && (c <=? 8202)) || (c =? 8232) || (c =? 8233)
  || (c =? 8239) || (c =? 8287) || (c =? 12288) || (c =? 65279).

Fixpoint trim_start (s : jsstring) : jsstring :=
  match s with
  | c :: s' => if is_space c then trim_start s' else s
  | [] => []
  end.

Definition trim (s : jsstring) : jsstring :=
  rev (trim_start (rev (trim_start s))).

(** ** JavaScript numbers *)

Inductive number :=
| NaN
| Inf (negative : bool)
| Fin (q : Q).

Definition num_of_nat (n : nat) : number := Fin (inject_Z (Z.of_nat n)).

Definition num_neg (a : number) : number :=
  match a with
  | NaN => NaN
  | Inf s => Inf (negb s)
  | Fin q => Fin (Qred (- q))
  end.

Definition num_add (a b : number) : number :=
  match a, b with
  | NaN, _ | _, NaN => NaN
  | Inf s, Inf t => if Bool.eqb s t then Inf s else NaN
  | Inf s, Fin _ | Fin _, Inf s => Inf s
  | Fin x, Fin y => Fin (Qred (x + y))
  end.

Definition num_sub (a b : number) : number := num_add a (num_neg b).

(** [a < b]; [None] is the "undefined" outcome of a comparison with NaN. *)
Definition num_lt (a b : number) : option bool :=
  match a, b with
  | NaN, _ | _, NaN => None
  | Inf s, Inf t => Some (s && negb t)
  | Inf s, Fin _ => Some s
  | Fin _, Inf t => Some (negb t)
  | Fin x, Fin y => Some (negb (Qle_bool y x))
  end.

Definition Math_min (a b : number) : number :=
  match num_lt b a with
  | None => NaN
  | Some true => b
  | Some false => a
  end.

Definition Math_max (a b : number) : number :=
  match num_lt a b with
  | None => NaN
  | Some true => b
  | Some false => a
  end.

(** ** JavaScript values, as [JSON.parse] builds them *)

#[warnings="-register-all"]
Inductive value :=
| VUndefined
| VNull
| VBool (b : bool)
| VNum (n : number)
| VStr (s : jsstring)
| VArr (elems : list value)
| VObj (props : list (jsstring * value)).

(** The exceptions the program meets: the TypeError of a property read on
    [undefined] or [null] or of a call of what is no function, the
    SyntaxError of [JSON.parse], the error of [lineAt] on an illegal line,
    and a failed request with its message. *)
Inductive error :=
| TypeError
| SyntaxError
| IllegalLine
| RequestFailed (message : jsstring).

Inductive result (A : Type) :=
| Ok (a : A)
| Throw (e : error).
Arguments Ok {A} a.
Arguments Throw {A} e.

#[global] Instance result_ret : MRet result := fun A a => Ok a.

#[global] Instance result_bind : MBind result := fun A B k r =>
  match r with
  | Ok a => k a
  | Throw e => Throw e
  end.

(** The value of own property [k]; a later duplicate key of the JSON text
    overrides an earlier one. *)
Fixpoint own_prop (props : list (jsstring * value)) (k : jsstring) : option value :=
  match props with
  | [] => None
  | (k', v) :: rest =>
      match own_prop rest k with
      | Some w => Some w
      | None => if str_eqb k' k then Some v else None
      end
  end.

(** [v.k] for the property names the program reads ([data], [candidates],
    [content], [parts], [text], [line], [message], [severity], [length]):
    none of them is inherited from a prototype, except [length] of strings
    and arrays. *)
Definition get_prop (v : value) (k : jsstring) : result value :=
  match v with
  | VUndefined | VNull => Throw TypeError
  | VObj props => Ok (default VUndefined (own_prop props k))
  | VArr l =>
      if str_eqb k (lit "length") then Ok (VNum (num_of_nat (length l)))
      else Ok VUndefined
  | VStr s =>
      if str_eqb k (lit "length") then Ok (VNum (num_of_nat (length s)))
      else Ok VUndefined
  | VBool _ | VNum _ => Ok VUndefined
  end.

(** [v[0]]. *)
Definition get_first (v : value) : result value :=
  match v with
  | VUndefined | VNull => Throw TypeError
  | VObj props => Ok (default VUndefined (own_prop props (lit "0")))
  | VArr l => Ok (default VUndefined (head l))
  | VStr s => Ok (match s with c :: _ => VStr [c] | [] => VUndefined end)
  | VBool _ | VNum _ => Ok VUndefined
  end.

(** ToBoolean. *)
Definition truthy (v : value) : bool :=
  match v with
  | VUndefined | VNull => false
  | VBool b => b
  | VNum NaN => false
  | VNum (Inf _) => true
  | VNum (Fin q) => negb (Qeq_bool q 0)
  | VStr s => match s with [] => false | _ => true end
  | VArr _ | VObj _ => true
  end.

(** [a || b]. *)
Definition js_or (a b : value) : value := if truthy a then a else b.

(** [a === "s"] against a string literal. *)
Definition strict_eq_str (a : value) (s : jsstring) : bool :=
  match a with
  | VStr t => str_eqb t s
  | _ => false
  end.

(** ** Numeric literals *)

Definition is_digit (c : N) : bool := (48 <=? c) && (c <=? 57).

Definition hex_val (c : N) : option N :=
  if is_digit c then Some (c - 48)
  else if (97 <=? c) && (c <=? 102) then Some (c - 87)
  else if (65 <=? c) && (c <=? 70) then Some (c - 55)
  else None.

(** The leading digits of [s] and what follows them. *)
Fixpoint span_digits (s : jsstring) : jsstring * jsstring :=
  match s with
  | c :: s' =>
      if is_digit c then let '(ds, r) := span_digits s' in (c :: ds, r)
      else ([], s)
  | [] => ([], [])
  end.

(** The value of a digit string in base [b]; [None] on a foreign digit. *)
Fixpoint radix_val (b : N) (acc : N) (s : jsstring) : option N :=
  match s with
  | [] => Some acc
  | c :: s' =>
      match hex_val c with
      | Some d => if d <? b then radix_val b (b * acc + d) s' else None
      | None => None
      end
  end.

Definition digits_val (ds : jsstring) : Z :=
  Z.of_N (default 0 (radix_val 10 0 ds)).

(** [m * 10^e]. *)
Definition decimal (m e : Z) : number :=
  if (0 <=? e)%Z then Fin (inject_Z (m * 10 ^ e))
  else Fin (Qred (Qmake m (Z.to_pos (10 ^ (- e))))).

(** ExponentPart after its [e]: an optional sign and at least one digit. *)
Definition signed_digits (neg : bool) (s : jsstring) : option (Z * jsstring) :=
  let '(ds, rest) := span_digits s in
  match ds with
  | [] => None
  | _ => Some (if neg then (- digits_val ds)%Z else digits_val ds, rest)
  end.

Definition scan_exponent (s : jsstring) : option (Z * jsstring) :=
  match s with
  | c :: r =>
      if c =? 43 then signed_digits false r
      else if c =? 45 then signed_digits true r
      else signed_digits false s
  | [] => None
  end.

Definition is_e (c : N) : bool := (c =? 101) || (c =? 69).

(** StrUnsignedDecimalLiteral of the whole string [s]. *)
Definition str_unsigned_decimal (s : jsstring) : option number :=
  if str_eqb s (lit "Infinity") then Some (Inf false)
  else
    let '(ds1, r1) := span_digits s in
    let '(ds2, r2) :=
      match r1 with
      | c :: r => if c =? 46 then span_digits r else ([], r1)
      | [] => ([], r1)
      end in
    match ds1 ++ ds2 with
    | [] => None
    | ds =>
        let m := digits_val ds in
        let f := Z.of_nat (length ds2) in
        match r2 with
        | [] => Some (decimal m (- f))
        | c :: r3 =>
            if is_e c then
              match scan_exponent r3 with
              | Some (e, []) => Some (decimal m (e - f))
              | _ => None
              end
            else None
        end
    end.

Definition str_radix (b : N) (ds : jsstring) : option number :=
  match ds with
  | [] => None
  | _ => n ← radix_val b 0 ds; Some (Fin (inject_Z (Z.of_N n)))
  end.

(** StrNumericLiteral of the whole (trimmed, non-empty) string. *)
Definition str_numeric (s : jsstring) : option number :=
  match s with
  | c :: r =>
      if starts_with (lit "0x") s || starts_with (lit "0X") s then str_radix 16 (drop 2 s)
      else if starts_with (lit "0o") s || starts_with (lit "0O") s then str_radix 8 (drop 2 s)
      else if starts_with (lit "0b") s || starts_with (lit "0B") s then str_radix 2 (drop 2 s)
      else if c =? 43 then str_unsigned_decimal r
      else if c =? 45 then num_neg <$> str_unsigned_decimal r
      else str_unsigned_decimal s
  | [] => None
  end.

(** StringToNumber: the empty or blank string is 0, a string that is no
    numeric literal is NaN. *)
Definition StringToNumber (s : jsstring) : number :=
  match trim s with
  | [] => Fin 0
  | t => default NaN (str_numeric t)
  end.

Definition has_own (props : list (jsstring * value)) (k : jsstring) : bool :=
  match own_prop props k with
  | Some _ => true
  | None => false
  end.

(** Whether ToString (and so ToPrimitive) of [v] throws: a parsed object is
    converted by [Object.prototype.toString] unless an own property named
    [toString], never callable, shadows it; an array joins the conversions
    of its elements. *)
Fixpoint ToString_throws (v : value) : bool :=
  match v with
  | VObj props => has_own props (lit "toString")
  | VArr l =>
      (fix any (l : list value) : bool :=
         match l with
         | [] => false
         | x :: r => ToString_throws x || any r
         end) l
  | _ => false
  end.

(** ToNumber.  An object converts through ["[object Object]"] to NaN.  An
    array converts through the join of its elements: the empty array gives
    the empty string, a single element its own string (a number converts
    back to itself), and two or more elements a string with a comma, which
    is no numeric literal. *)
Fixpoint ToNumber (v : value) : result number :=
  match v with
  | VUndefined => Ok NaN
  | VNull => Ok (Fin 0)
  | VBool b => Ok (if b then Fin 1 else Fin 0)
  | VNum n => Ok n
  | VStr s => Ok (StringToNumber s)
  | VObj props => if has_own props (lit "toString") then Throw TypeError else Ok NaN
  | VArr l =>
      if ToString_throws (VArr l) then Throw TypeError
      else
        match l with
        | [] => Ok (Fin 0)
        | [x] =>
            match x with
            | VUndefined | VNull => Ok (Fin 0)
            | VBool _ | VObj _ => Ok NaN
            | VNum _ | VStr _ | VArr _ => ToNumber x
            end
        | _ => Ok NaN
        end
  end.

(** [a - b] and [a > b] for a number [b]: the left operand is converted. *)
Definition js_sub (a : value) (b : number) : result number :=
  x ← ToNumber a; Ok (num_sub x b).

Definition js_gt (a : value) (b : number) : result bool :=
  x ← ToNumber a; Ok (default false (num_lt b x)).

(** ** JSON.parse *)

(** JSON white space: tab, line feed, carriage return, space. *)
Definition is_json_ws (c : N) : bool :=
  (c =? 9) || (c =? 10) || (c =? 13) || (c =? 32).

Fixpoint skip_ws (s : jsstring) : jsstring :=
  match s with
  | c :: s' => if is_json_ws c then skip_ws s' else s
  | [] => []
  end.

(** The fraction of a JSON number: a point and at least one digit, or
    nothing. *)
Definition json_fraction (s : jsstring) : option (jsstring * jsstring) :=
  match s with
  | c :: r =>
      if c =? 46 then
        let '(ds, r') := span_digits r in
        match ds with
        | [] => None
        | _ => Some (ds, r')
        end
      else Some ([], s)
  | [] => Some ([], s)
  end.

(** [int frac ? exp ?] at the head of [s], with the sign [neg] read before. *)
Definition json_unsigned (neg : bool) (s : jsstring) : option (number * jsstring) :=
  let '(ds1, r1) := span_digits s in
  match ds1 with
  | [] => None
  | d :: ds' =>
      if (d =? 48) && negb (Nat.eqb (length ds') 0) then None
      else
        '(ds2, r2) ← json_fraction r1;
        let m := digits_val (ds1 ++ ds2) in
        let m := if neg then (- m)%Z else m in
        let f := Z.of_nat (length ds2) in
        match r2 with
        | c :: r3 =>
            if is_e c then
              '(e, r4) ← scan_exponent r3; Some (decimal m (e - f), r4)
            else Some (decimal m (- f), r2)
        | [] => Some (decimal m (- f), r2)
        end
  end.

(** [- ? int frac ? exp ?] at the head of [s]. *)
Definition json_number (s : jsstring) : option (number * jsstring) :=
  match s with
  | c :: r => if c =? 45 then json_unsigned true r else json_unsigned false s
  | [] => None
  end.

Definition hex4 (a b c d : N) : option N :=
  x ← hex_val a; y ← hex_val b; z ← hex_val c; w ← hex_val d;
  Some (((x * 16 + y) * 16 + z) * 16 + w).

Definition escape (e : N) : option N :=
  if e =? 34 then Some 34 else if e =? 92 then Some 92
  else if e =? 47 then Some 47 else if e =? 98 then Some 8
  else if e =? 102 then Some 12 else if e =? 110 then Some 10
  else if e =? 114 then Some 13 else if e =? 116 then Some 9
  else None.

(** The characters of a string literal after its opening quote, up to the
    closing quote. *)
Fixpoint json_string (s : jsstring) : option (jsstring * jsstring) :=
  match s with
  | [] => None
  | c :: r =>
      if c =? 34 then Some ([], r)
      else if c =? 92 then
        match r with
        | [] => None
        | e :: r1 =>
            if e =? 117 then
              match r1 with
              | a :: b :: c' :: d :: r2 =>
                  u ← hex4 a b c' d; '(t, r') ← json_string r2; Some (u :: t, r')
              | _ => None
              end
            else u ← escape e; '(t, r') ← json_string r1; Some (u :: t, r')
        end
      else if c <? 32 then None
      else '(t, r') ← json_string r; Some (c :: t, r')
  end.

Inductive parsed (A : Type) :=
| Parsed (a : A) (rest : jsstring)
| Malformed
| OutOfFuel.
Arguments Parsed {A} a rest.
Arguments Malformed {A}.
Arguments OutOfFuel {A}.

(** A recursive-descent reading of the JSON grammar.  [parse_elements] reads
    the elements of a non-empty array up to its closing bracket,
    [parse_members] the members of a non-empty object up to its closing
    brace. *)
Fixpoint parse_value (fuel : nat) (s : jsstring) : parsed value :=
  match fuel with
  | O => OutOfFuel
  | S fuel' =>
      match skip_ws s with
      | [] => Malformed
      | c :: r =>
          if c =? 34 then
            match json_string r with
            | Some (t, r') => Parsed (VStr t) r'
            | None => Malformed
            end
          else if c =? 91 then
            match skip_ws r with
            | d :: r' =>
                if d =? 93 then Parsed (VArr []) r'
                else
                  match parse_elements fuel' r with
                  | Parsed l r'' => Parsed (VArr l) r''
                  | Malformed => Malformed
                  | OutOfFuel => OutOfFuel
                  end
            | [] => Malformed
            end
          else if c =? 123 then
            match skip_ws r with
            | d :: r' =>
                if d =? 125 then Parsed (VObj []) r'
                else
                  match parse_members fuel' r with
                  | Parsed m r'' => Parsed (VObj m) r''
                  | Malformed => Malformed
                  | OutOfFuel => OutOfFuel
                  end
            | [] => Malformed
            end
          else if starts_with (lit "true") (c :: r) then
            Parsed (VBool true) (drop 4 (c :: r))
          else if starts_with (lit "false") (c :: r) then
            Parsed (VBool false) (drop 5 (c :: r))
          else if starts_with (lit "null") (c :: r) then
            Parsed VNull (drop 4 (c :: r))
          else
            match json_number (c :: r) with
            | Some (n, r') => Parsed (VNum n) r'
            | None => Malformed
            end
      end
  end
with parse_elements (fuel : nat) (s : jsstring) : parsed (list value) :=
  match fuel with
  | O => OutOfFuel
  | S fuel' =>
      match parse_value fuel' s with
      | Parsed v r =>
          match skip_ws r with
          | d :: r' =>
              if d =? 44 then
                match parse_elements fuel' r' with
                | Parsed l r'' => Parsed (v :: l) r''
                | Malformed => Malformed
                | OutOfFuel => OutOfFuel
                end
              else if d =? 93 then Parsed [v] r'
              else Malformed
          | [] => Malformed
          end
      | Malformed => Malformed
      | OutOfFuel => OutOfFuel
      end
  end
with parse_members (fuel : nat) (s : jsstring) : parsed (list (jsstring * value)) :=
  match fuel with
  | O => OutOfFuel
  | S fuel' =>
      match skip_ws s with
      | q :: r0 =>
          if q =? 34 then
            match json_string r0 with
            | Some (k, r1) =>
                match skip_ws r1 with
                | c :: r2 =>
                    if c =? 58 then
                      match parse_value fuel' r2 with
                      | Parsed v r3 =>
                          match skip_ws r3 with
                          | d :: r4 =>
                              if d =? 44 then
                                match parse_members fuel' r4 with
                                | Parsed m r5 => Parsed ((k, v) :: m) r5
                                | Malformed => Malformed
                                | OutOfFuel => OutOfFuel
                                end
                              else if d =? 125 then Parsed [(k, v)] r4
                              else Malformed
                          | [] => Malformed
                          end
                      | Malformed => Malformed
                      | OutOfFuel => OutOfFuel
                      end
                    else Malformed
                | [] => Malformed
                end
            | None => Malformed
            end
          else Malformed
      | [] => Malformed
      end
  end.

(** [JSON.parse]: one value, white space around it, nothing else.  The fuel
    is enough for every text ([parse_value_fuel] below), so that a failure is
    always the SyntaxError of a malformed text. *)
Definition JSON_parse (s : jsstring) : result value :=
  match parse_value (S (2 * length s)) s with
  | Parsed v r =>
      match skip_ws r with
      | [] => Ok v
      | _ => Throw SyntaxError
      end
  | Malformed | OutOfFuel => Throw SyntaxError
  end.

(** ** The two regular expressions of the response parser *)

(** The longest prefix of [s] that ends with a closing bracket: what the
    greedy [[\s\S]*\]] matches once it has backtracked. *)
Fixpoint up_to_last_close (s : jsstring) : option jsstring :=
  match s with
  | [] => None
  | c :: r =>
      match up_to_last_close r with
      | Some m => Some (c :: m)
      | None => if c =? 93 then Some [c] else None
      end
  end.

(** The shortest prefix of [s] that ends with a closing bracket: what the
    lazy [[\s\S]*?\]] matches. *)
Fixpoint up_to_first_close (s : jsstring) : option jsstring :=
  match s with
  | [] => None
  | c :: r => if c =? 93 then Some [c] else cons c <$> up_to_first_close r
  end.

(** The first match of a pattern that is an opening bracket followed by
    [tail]: the engine tries the start positions from left to right. *)
Fixpoint bracket_match (tail : jsstring -> option jsstring) (s : jsstring)
  : option jsstring :=
  match s with
  | [] => None
  | c :: r =>
      if c =? 91 then
        match tail r with
        | Some m => Some (c :: m)
        | None => bracket_match tail r
        end
      else bracket_match tail r
  end.

(** [/\[[\s\S]*\]/], of [reviewCode]. *)
Definition re_greedy : jsstring -> option jsstring := bracket_match up_to_last_close.

(** [/\[[\s\S]*?\]/], of [quickReviewSelection]. *)
Definition re_lazy : jsstring -> option jsstring := bracket_match up_to_first_close.

(** [v.match(re)]: [Some m] stands for the match array, whose element 0 is
    [m], [None] for [null].  A value that is not a string has no callable
    [match]. *)
Definition js_match (re : jsstring -> option jsstring) (v : value)
  : result (option jsstring) :=
  match v with
  | VStr s => Ok (re s)
  | _ => Throw TypeError
  end.

(** [v.toLowerCase()] and [v.trim()]. *)
Definition js_toLowerCase (v : value) : result jsstring :=
  match v with
  | VStr s => Ok (toLowerCase s)
  | _ => Throw TypeError
  end.

Definition js_trim (v : value) : result jsstring :=
  match v with
  | VStr s => Ok (trim s)
  | _ => Throw TypeError
  end.

(** [l.filter(f)] and [l.map(f)] with a callback that can throw: the first
    exception ends the traversal. *)
Fixpoint filter_result {A} (f : A -> result bool) (l : list A) : result (list A) :=
  match l with
  | [] => Ok []
  | x :: r =>
      b ← f x; r' ← filter_result f r; Ok (if b : bool then x :: r' else r')
  end.

Fixpoint map_result {A B} (f : A -> result B) (l : list A) : result (list B) :=
  match l with
  | [] => Ok []
  | x :: r => y ← f x; r' ← map_result f r; Ok (y :: r')
  end.

(** [v.filter(f)] and [v.map(f)] on a value: only an array has them. *)
Definition js_filter (f : value -> result bool) (v : value) : result (list value) :=
  match v with
  | VArr l => filter_result f l
  | _ => Throw TypeError
  end.

Definition js_map {B} (f : value -> result B) (v : value) : result (list B) :=
  match v with
  | VArr l => map_result f l
  | _ => Throw TypeError
  end.

(** ** The editor, as far as the extension uses it *)

Record Range := {
  range_line : nat;
  range_start : nat;
  range_end : nat
}.

Record TextDocument := {
  uri : string;
  languageId : jsstring;
  lines : list jsstring
}.

Definition lineCount (document : TextDocument) : nat := length (lines document).

(** [document.lineAt(n)]: the editor refuses a line that is not an integer
    of [0, lineCount). *)
Definition lineAt (document : TextDocument) (n : number) : result (jsstring * Range) :=
  match n with
  | Fin q =>
      let z := Qfloor q in
      if Qeq_bool (inject_Z z) q && (0 <=? z)%Z && (z <? Z.of_nat (lineCount document))%Z
      then
        let text := nth (Z.to_nat z) (lines document) [] in
        Ok (text, {| range_line := Z.to_nat z; range_start := 0; range_end := length text |})
      else Throw IllegalLine
  | NaN | Inf _ => Throw IllegalLine
  end.

Inductive DiagnosticSeverity := Error | Warning | Information | Hint.

(** A [vscode.Diagnostic].  [ident] is the identity of the object, which
    [!==] compares.  [message] holds the value that the template literal of
    the source interpolates after its fixed prefix: the text of the
    diagnostic is that prefix followed by the string conversion of the
    value. *)
Record Diagnostic := {
  ident : nat;
  range : Range;
  message : value;
  severity : DiagnosticSeverity;
  source : option jsstring
}.

(** What a diagnostic says, apart from which object it is. *)
Definition content (d : Diagnostic) : Range * value * DiagnosticSeverity * option jsstring :=
  (range d, message d, severity d, source d).

(** The messages of [showInformationMessage], [showWarningMessage] and
    [showErrorMessage]: "No issues found!", "Found n issue(s)", "No critical
    issues found!", "Found n critical issue(s)", "AI fix applied!", "No code
    selected!", and "Review failed: " or "Fix failed: " followed by the
    message of the exception. *)
Inductive Notification :=
| InfoNoIssues
| InfoFound (n : nat)
| InfoNoCritical
| InfoFoundCritical (n : nat)
| InfoFixApplied
| WarnNoCodeSelected
| ErrorReviewFailed (e : error)
| ErrorFixFailed (e : error).

(** The state the review commands act on: the diagnostic collection, the
    messages shown to the user, the console, the edits sent to the editor,
    and the next free object identity. *)
Record State := {
  diagnosticCollection : gmap string (list Diagnostic);
  notifications : list Notification;
  console : list error;
  edits : list (string * Range * jsstring);
  next_ident : nat
}.

Definition show (n : Notification) (σ : State) : State :=
  {| diagnosticCollection := diagnosticCollection σ;
     notifications := notifications σ ++ [n];
     console := console σ;
     edits := edits σ;
     next_ident := next_ident σ |}.

Definition console_error (e : error) (σ : State) : State :=
  {| diagnosticCollection := diagnosticCollection σ;
     notifications := notifications σ;
     console := console σ ++ [e];
     edits := edits σ;
     next_ident := next_ident σ |}.

(** [diagnosticCollection.get(uri)]; [None] is [undefined]. *)
Definition collection_get (u : string) (σ : State) : option (list Diagnostic) :=
  diagnosticCollection σ !! u.

(** [diagnosticCollection.set(uri, diagnostics)]. *)
Definition collection_set (u : string) (ds : list Diagnostic) (σ : State) : State :=
  {| diagnosticCollection := <[u := ds]> (diagnosticCollection σ);
     notifications := notifications σ;
     console := console σ;
     edits := edits σ;
     next_ident := next_ident σ |}.

(** [editor.edit(editBuilder => editBuilder.replace(range, text))]: the edit
    is sent to the editor; the source does not read the boolean it resolves
    to. *)
Definition send_edit (u : string) (r : Range) (text : jsstring) (σ : State) : State :=
  {| diagnosticCollection := diagnosticCollection σ;
     notifications := notifications σ;
     console := console σ;
     edits := edits σ ++ [(u, r, text)];
     next_ident := next_ident σ |}.

(** The diagnostics that [map] constructs, one fresh object per element. *)
Fixpoint allocate (next : nat) (l : list (Range * value * DiagnosticSeverity)) : list Diagnostic :=
  match l with
  | [] => []
  | (r, m, s) :: l' =>
      {| ident := next; range := r; message := m; severity := s;
         source := Some (lit "AI Copilot") |} :: allocate (S next) l'
  end.

Definition allocated (n : nat) (σ : State) : State :=
  {| diagnosticCollection := diagnosticCollection σ;
     notifications := notifications σ;
     console := console σ;
     edits := edits σ;
     next_ident := next_ident σ + n |}.

(** ** The review commands *)

(** [response.data.candidates[0].content.parts[0].text]. *)
Definition first_candidate_text (response : value) : result value :=
  data ← get_prop response (lit "data");
  candidates ← get_prop data (lit "candidates");
  candidate ← get_first candidates;
  cont ← get_prop candidate (lit "content");
  parts ← get_prop cont (lit "parts");
  part ← get_first parts;
  get_prop part (lit "text").

(** The coordinate mapper:
    [Math.max(0, Math.min((issue.line || 1) - 1 + startLine, document.lineCount - 1))]. *)
Definition absolute_line (issue : value) (startLine : nat) (document : TextDocument)
  : result number :=
  l ← get_prop issue (lit "line");
  x ← js_sub (js_or l (VNum (Fin 1))) (Fin 1);
  Ok (Math_max (Fin 0)
        (Math_min (num_add x (num_of_nat startLine))
                  (num_sub (num_of_nat (lineCount document)) (Fin 1)))).

(** The severity of [reviewCode]. *)
Definition review_severity (s : value) : DiagnosticSeverity :=
  let severity := Warning in
  let severity := if strict_eq_str s (lit "error") then Error else severity in
  let severity := if strict_eq_str s (lit "info") then Information else severity in
  severity.

(** The severity of [quickReviewSelection]. *)
Definition quick_severity (s : value) : DiagnosticSeverity :=
  let severity := Warning in
  let severity := if strict_eq_str s (lit "error") then Error else severity in
  severity.

(** The interpolation of [v] in a template literal converts it to a string. *)
Definition interpolate (v : value) : result value :=
  if ToString_throws v then Throw TypeError else Ok v.

(** The callback of [issues.map], up to the identity of the new object. *)
Definition make_diagnostic (sev : value -> DiagnosticSeverity)
    (document : TextDocument) (startLine : nat) (issue : value)
  : result (Range * value * DiagnosticSeverity) :=
  line ← absolute_line issue startLine document;
  '(_, range) ← lineAt document line;
  s ← get_prop issue (lit "severity");
  let severity := sev s in
  m ← get_prop issue (lit "message");
  text ← interpolate m;
  Ok (range, text, severity).

(** The [try] block of [reviewCode] that parses the reply. *)
Definition parse_review_try (aiResponse : value) : result value :=
  jsonMatch ← js_match re_greedy aiResponse;
  match jsonMatch with
  | Some m => JSON_parse m
  | None => Ok (VArr [])
  end.

Definition parse_review (aiResponse : value) (σ : State) : value * State :=
  match parse_review_try aiResponse with
  | Ok issues => (issues, σ)
  | Throw e => (VArr [], console_error e σ)
  end.

(** [reviewCode(document, code, startLine)] from the moment [getApiKey] and
    [axios.post] have settled. *)
Definition reviewCode (document : TextDocument) (startLine : nat)
    (apiKey : option jsstring) (response : result value) (σ : State) : State :=
  match apiKey with
  | None => σ
  | Some _ =>
      match r ← response; first_candidate_text r with
      | Throw e => show (ErrorReviewFailed e) σ
      | Ok aiResponse =>
          let '(issues, σ1) := parse_review aiResponse σ in
          match js_map (make_diagnostic review_severity document startLine) issues with
          | Throw e => show (ErrorReviewFailed e) σ1
          | Ok l =>
              let diagnostics := allocate (next_ident σ1) l in
              let σ2 := collection_set (uri document) diagnostics
                          (allocated (length l) σ1) in
              if Nat.eqb (length diagnostics) 0 then show InfoNoIssues σ2
              else show (InfoFound (length diagnostics)) σ2
          end
      end
  end.

(** The callback of [parsed.filter]. *)
Definition quality_filter (issue : value) : result bool :=
  m ← get_prop issue (lit "message");
  if negb (truthy m) then Ok false
  else
    len ← get_prop m (lit "length");
    long ← js_gt len (Fin 10);
    if negb long then Ok false
    else
      l1 ← js_toLowerCase m;
      if includes l1 (lit "comment") then Ok false
      else
        l2 ← js_toLowerCase m;
        if includes l2 (lit "naming") then Ok false
        else
          l3 ← js_toLowerCase m;
          Ok (negb (includes l3 (lit "style"))).

(** The [try] block of [quickReviewSelection] that parses and filters. *)
Definition parse_quick_try (aiResponse : value) : result (list value) :=
  jsonMatch ← js_match re_lazy aiResponse;
  match jsonMatch with
  | Some m => parsed ← JSON_parse m; js_filter quality_filter parsed
  | None => Ok []
  end.

Definition parse_quick (aiResponse : value) (σ : State) : list value * State :=
  match parse_quick_try aiResponse with
  | Ok issues => (issues, σ)
  | Throw e => ([], console_error e σ)
  end.

(** [quickReviewSelection(document, selection)]: [code] is the selected
    text and [selectionStart] is [selection.start.line]. *)
Definition quickReviewSelection (document : TextDocument) (code : jsstring)
    (selectionStart : nat) (apiKey : option jsstring) (response : result value)
    (σ : State) : State :=
  match code with
  | [] => show WarnNoCodeSelected σ
  | _ =>
      match apiKey with
      | None => σ
      | Some _ =>
          match r ← response; first_candidate_text r with
          | Throw e => show (ErrorReviewFailed e) σ
          | Ok aiResponse =>
              let '(issues, σ1) := parse_quick aiResponse σ in
              if Nat.eqb (length issues) 0 then show InfoNoCritical σ1
              else
                match map_result (make_diagnostic quick_severity document selectionStart) issues with
                | Throw e => show (ErrorReviewFailed e) σ1
                | Ok l =>
                    let diagnostics := allocate (next_ident σ1) l in
                    let existingDiagnostics :=
                      default [] (collection_get (uri document) σ1) in
                    let allDiagnostics := existingDiagnostics ++ diagnostics in
                    let σ2 := collection_set (uri document) allDiagnostics
                                (allocated (length l) σ1) in
                    show (InfoFoundCritical (length diagnostics)) σ2
                end
          end
      end
  end.

(** ** Applying a fix *)

(** [response.data.candidates.content.parts.text.trim()]. *)
Definition fixed_text (response : value) : result jsstring :=
  data ← get_prop response (lit "data");
  candidates ← get_prop data (lit "candidates");
  cont ← get_prop candidates (lit "content");
  parts ← get_prop cont (lit "parts");
  text ← get_prop parts (lit "text");
  js_trim text.

(** [s.split('```').join('')]. *)
Fixpoint remove_fences (s : jsstring) : jsstring :=
  match s with
  | a :: r =>
      match r with
      | b :: c :: r' =>
          if (a =? 96) && (b =? 96) && (c =? 96) then remove_fences r'
          else a :: remove_fences r
      | _ => a :: remove_fences r
      end
  | [] => []
  end.

(** [s.split('\n')] and [ls.join('\n')]. *)
Fixpoint split_lines (s : jsstring) : list jsstring :=
  match s with
  | [] => [[]]
  | c :: r =>
      if c =? 10 then [] :: split_lines r
      else
        match split_lines r with
        | l :: ls => (c :: l) :: ls
        | [] => [[c]]
        end
  end.

Fixpoint join_lines (ls : list jsstring) : jsstring :=
  match ls with
  | [] => []
  | [l] => l
  | l :: ls' => l ++ 10 :: join_lines ls'
  end.

(** [line.match(/^[a-z]+$/)] on a line without line feed. *)
Definition is_language_name (l : jsstring) : bool :=
  match l with
  | [] => false
  | _ => forallb (fun c => (97 <=? c) && (c <=? 122)) l
  end.

Definition clean_fix (fixedCode : jsstring) : jsstring :=
  trim (join_lines
          (List.filter (fun l => negb (is_language_name l))
             (split_lines (remove_fences fixedCode)))).

(** [applyAIFix(document, diagnostic)] from the moment [getApiKey] and
    [axios.post] have settled; [activeTextEditor] is the document of the
    active editor, if there is one. *)
Definition applyAIFix (document : TextDocument) (diagnostic : Diagnostic)
    (apiKey : option jsstring) (response : result value)
    (activeTextEditor : option string) (σ : State) : State :=
  match apiKey with
  | None => σ
  | Some _ =>
      match _ ← lineAt document (num_of_nat (range_line (range diagnostic)));
            r ← response;
            fixedCode ← fixed_text r;
            Ok (clean_fix fixedCode) with
      | Throw e => show (ErrorFixFailed e) σ
      | Ok fixedCode =>
          match activeTextEditor with
          | Some d =>
              if String.eqb d (uri document) then
                let σ1 := send_edit (uri document) (range diagnostic) fixedCode σ in
                let σ2 := show InfoFixApplied σ1 in
                let remainingDiagnostics :=
                  List.filter (fun d => negb (Nat.eqb (ident d) (ident diagnostic)))
                    <$> collection_get (uri document) σ2 in
                collection_set (uri document) (default [] remainingDiagnostics) σ2
              else σ
          | None => σ
          end
      end
  end.

(** ** The chat session *)

Inductive Role := user | assistant.

(** An element of [conversationHistory]: [{ role, parts: [{ text }] }]. *)
Record Turn := {
  role : Role;
  text : value
}.

(** What [handleChatMessage] reads from the active editor: the base name of
    the file, its language and the selected (or whole) text. *)
Record EditorContext := {
  fileName : jsstring;
  language : jsstring;
  codeContext : jsstring
}.

Definition fullPrompt (message : jsstring) (editor : option EditorContext) : jsstring :=
  match editor with
  | None => message
  | Some e =>
      lit "I'm working on file: " ++ fileName e ++ lit " (Language: " ++ language e
      ++ lit ")" ++ [10; 10] ++ lit "File Content:" ++ [10] ++ lit "```" ++ language e
      ++ [10] ++ codeContext e ++ [10] ++ lit "```" ++ [10; 10]
      ++ lit "User Question: " ++ message
  end.

(** Messages from the webview to the extension and back. *)
Inductive ToExtension :=
| sendMessage (message : jsstring)
| clearChat
| stopStream.

(** The text of an [error] message: the fixed text about the missing key,
    or ["AI request failed: "] followed by the message of the exception. *)
Inductive ChatFailure :=
| ApiKeyNotSet
| RequestError (e : error).

Inductive ToWebview :=
| aiResponse (text : value)
| chatError (e : ChatFailure)
| chatCleared
| streamStopped (text : jsstring).

(** An [AbortController]. *)
Record AbortController := { aborted : bool }.

(** The nodes of the chat container.  A typed message records the reply
    being revealed, whether the timer of the reveal was started, and the
    notice appended to it; the timer itself is not modelled. *)
Inductive Entry :=
| EmptyState
| UserMessage (text : jsstring)
| ErrorMessage (e : ChatFailure)
| LoadingDots
| TypedMessage (text : value) (revealing : bool) (notice : option jsstring).

(** The extension's globals [conversationHistory] and
    [currentStreamController], the requests that await their reply with the
    [contents] they sent, the messages posted to the webview, and the
    webview script's [isStreaming], chat container (nodes with their
    identity) and [currentTypingDiv]. *)
Record Chat := {
  conversationHistory : list Turn;
  currentStreamController : option AbortController;
  outstanding : list (list (string * value));
  posted : list ToWebview;
  chat_console : list error;
  isStreaming : bool;
  chatContainer : list (nat * Entry);
  currentTypingDiv : option nat;
  next_node : nat
}.

Definition initial : Chat :=
  {| conversationHistory := [];
     currentStreamController := None;
     outstanding := [];
     posted := [];
     chat_console := [];
     isStreaming := false;
     chatContainer := [(0%nat, EmptyState)];
     currentTypingDiv := None;
     next_node := 1 |}.

(** *** The webview script *)

Definition is_empty_state (n : nat * Entry) : bool :=
  match n with (_, EmptyState) => true | _ => false end.

Definition is_loading (n : nat * Entry) : bool :=
  match n with (_, LoadingDots) => true | _ => false end.

(** Removal of the first node that [p] selects. *)
Fixpoint remove_first {A} (p : A -> bool) (l : list A) : list A :=
  match l with
  | [] => []
  | x :: r => if p x then r else x :: remove_first p r
  end.

Definition with_container (f : list (nat * Entry) -> list (nat * Entry)) (c : Chat) : Chat :=
  {| conversationHistory := conversationHistory c;
     currentStreamController := currentStreamController c;
     outstanding := outstanding c;
     posted := posted c;
     chat_console := chat_console c;
     isStreaming := isStreaming c;
     chatContainer := f (chatContainer c);
     currentTypingDiv := currentTypingDiv c;
     next_node := next_node c |}.

Definition append_node (e : Entry) (c : Chat) : Chat :=
  {| conversationHistory := conversationHistory c;
     currentStreamController := currentStreamController c;
     outstanding := outstanding c;
     posted := posted c;
     chat_console := chat_console c;
     isStreaming := isStreaming c;
     chatContainer := chatContainer c ++ [(next_node c, e)];
     currentTypingDiv := currentTypingDiv c;
     next_node := S (next_node c) |}.

Definition set_streaming (b : bool) (c : Chat) : Chat :=
  {| conversationHistory := conversationHistory c;
     currentStreamController := currentStreamController c;
     outstanding := outstanding c;
     posted := posted c;
     chat_console := chat_console c;
     isStreaming := b;
     chatContainer := chatContainer c;
     currentTypingDiv := currentTypingDiv c;
     next_node := next_node c |}.

Definition set_typing (d : option nat) (c : Chat) : Chat :=
  {| conversationHistory := conversationHistory c;
     currentStreamController := currentStreamController c;
     outstanding := outstanding c;
     posted := posted c;
     chat_console := chat_console c;
     isStreaming := isStreaming c;
     chatContainer := chatContainer c;
     currentTypingDiv := d;
     next_node := next_node c |}.

Definition addMessage (e : Entry) (c : Chat) : Chat :=
  append_node e (with_container (remove_first is_empty_state) c).

Definition showLoading : Chat -> Chat := append_node LoadingDots.

Definition removeLoading : Chat -> Chat := with_container (remove_first is_loading).

(** [typeMessage(text)] with the first call of [typeChar]: the reveal starts
    when [index < text.length && isStreaming]; otherwise the typing is over
    at once.  Reading [length] of [undefined] throws in the handler. *)
Definition typeMessage (t : value) (c : Chat) : Chat :=
  let c1 := with_container (remove_first is_empty_state) c in
  let node := next_node c1 in
  match len ← get_prop t (lit "length"); js_gt len (Fin 0) with
  | Throw _ => set_typing (Some node) (append_node (TypedMessage t false None) c1)
  | Ok more =>
      if more && isStreaming c1 then
        set_typing (Some node) (append_node (TypedMessage t true None) c1)
      else set_typing None (append_node (TypedMessage t false None) c1)
  end.

Definition add_notice (node : nat) (t : jsstring) (n : nat * Entry) : nat * Entry :=
  match n with
  | (i, TypedMessage v r _) =>
      if Nat.eqb i node then (i, TypedMessage v r (Some t)) else n
  | _ => n
  end.

(** The [message] listener of the webview. *)
Definition webview_receives (m : ToWebview) (c : Chat) : Chat :=
  match m with
  | aiResponse t => typeMessage t (removeLoading c)
  | streamStopped t =>
      let c1 :=
        match currentTypingDiv c with
        | Some node => with_container (List.map (add_notice node t)) c
        | None => c
        end in
      set_streaming false (set_typing None c1)
  | chatError e => set_streaming false (addMessage (ErrorMessage e) (removeLoading c))
  | chatCleared => c
  end.

(** *** The extension *)

(** [webview.postMessage(m)]: the message is recorded and delivered. *)
Definition postMessage (m : ToWebview) (c : Chat) : Chat :=
  webview_receives m
    {| conversationHistory := conversationHistory c;
       currentStreamController := currentStreamController c;
       outstanding := outstanding c;
       posted := posted c ++ [m];
       chat_console := chat_console c;
       isStreaming := isStreaming c;
       chatContainer := chatContainer c;
       currentTypingDiv := currentTypingDiv c;
       next_node := next_node c |}.

Definition push_turn (t : Turn) (c : Chat) : Chat :=
  {| conversationHistory := conversationHistory c ++ [t];
     currentStreamController := currentStreamController c;
     outstanding := outstanding c;
     posted := posted c;
     chat_console := chat_console c;
     isStreaming := isStreaming c;
     chatContainer := chatContainer c;
     currentTypingDiv := currentTypingDiv c;
     next_node := next_node c |}.

(** [conversationHistory.slice(-6).map(...)]: the request body. *)
Definition contents (history : list Turn) : list (string * value) :=
  List.map (fun msg => (match role msg with
                        | assistant => "model"%string
                        | user => "user"%string
                        end, text msg))
    (drop (length history - 6) history).

(** [handleChatMessage] up to its [await axios.post]. *)
Definition handleChatMessage_send (message : jsstring) (apiKey : option jsstring)
    (editor : option EditorContext) (c : Chat) : Chat :=
  match apiKey with
  | None => postMessage (chatError ApiKeyNotSet) c
  | Some _ =>
      let c1 := push_turn {| role := user; text := VStr (fullPrompt message editor) |} c in
      {| conversationHistory := conversationHistory c1;
         currentStreamController := currentStreamController c1;
         outstanding := outstanding c1 ++ [contents (conversationHistory c1)];
         posted := posted c1;
         chat_console := chat_console c1;
         isStreaming := isStreaming c1;
         chatContainer := chatContainer c1;
         currentTypingDiv := currentTypingDiv c1;
         next_node := next_node c1 |}
  end.

(** [handleChatMessage] from the moment the oldest outstanding request has
    settled. *)
Definition handleChatMessage_resume (response : result value) (c : Chat) : Chat :=
  match outstanding c with
  | [] => c
  | _ :: rest =>
      let c0 :=
        {| conversationHistory := conversationHistory c;
           currentStreamController := currentStreamController c;
           outstanding := rest;
           posted := posted c;
           chat_console := chat_console c;
           isStreaming := isStreaming c;
           chatContainer := chatContainer c;
           currentTypingDiv := currentTypingDiv c;
           next_node := next_node c |} in
      match r ← response; first_candidate_text r with
      | Ok aiText =>
          postMessage (aiResponse aiText)
            (push_turn {| role := assistant; text := aiText |} c0)
      | Throw e =>
          postMessage (chatError (RequestError e))
            {| conversationHistory := conversationHistory c0;
               currentStreamController := currentStreamController c0;
               outstanding := outstanding c0;
               posted := posted c0;
               chat_console := chat_console c0 ++ [e];
               isStreaming := isStreaming c0;
               chatContainer := chatContainer c0;
               currentTypingDiv := currentTypingDiv c0;
               next_node := next_node c0 |}
      end
  end.

(** The cases [clearChat] and [stopStream] of the extension's listener. *)
Definition extension_receives_clearChat (c : Chat) : Chat :=
  postMessage chatCleared
    {| conversationHistory := [];
       currentStreamController := currentStreamController c;
       outstanding := outstanding c;
       posted := posted c;
       chat_console := chat_console c;
       isStreaming := isStreaming c;
       chatContainer := chatContainer c;
       currentTypingDiv := currentTypingDiv c;
       next_node := next_node c |}.

Definition extension_receives_stopStream (c : Chat) : Chat :=
  match currentStreamController c with
  | Some _ =>
      postMessage (streamStopped ([10; 10] ++ lit "_[Response stopped by user]_"))
        {| conversationHistory := conversationHistory c;
           currentStreamController := None;
           outstanding := outstanding c;
           posted := posted c;
           chat_console := chat_console c;
           isStreaming := isStreaming c;
           chatContainer := chatContainer c;
           currentTypingDiv := currentTypingDiv c;
           next_node := next_node c |}
  | None => c
  end.

(** The [onDidReceiveMessage] listener of the extension; [apiKey] and
    [editor] are what [handleChatMessage] finds when it runs. *)
Definition onDidReceiveMessage (data : ToExtension) (apiKey : option jsstring)
    (editor : option EditorContext) (c : Chat) : Chat :=
  match data with
  | sendMessage message => handleChatMessage_send message apiKey editor c
  | clearChat => extension_receives_clearChat c
  | stopStream => extension_receives_stopStream c
  end.

(** *** What happens to a session *)

Inductive Event :=
| UserSends (input : jsstring) (apiKey : option jsstring) (editor : option EditorContext)
| UserStops
| UserClears
| RequestSettles (response : result value)
| TypingEnds.

Definition step (e : Event) (c : Chat) : Chat :=
  match e with
  | UserSends input apiKey editor =>
      (* sendMessage() of the webview, then the extension's listener *)
      let message := trim input in
      match message with
      | [] => c
      | _ =>
          if isStreaming c then c
          else
            let c1 := set_streaming true (addMessage (UserMessage message) c) in
            onDidReceiveMessage (sendMessage message) apiKey editor (showLoading c1)
      end
  | UserStops =>
      (* stopStreaming() of the webview, then the extension's listener *)
      onDidReceiveMessage stopStream None None (removeLoading (set_streaming false c))
  | UserClears =>
      (* clearChat() of the webview, then the extension's listener *)
      onDidReceiveMessage clearChat None None
        (append_node EmptyState (with_container (fun _ => []) c))
  | RequestSettles response => handleChatMessage_resume response c
  | TypingEnds => set_typing None c
  end.

Definition run (events : list Event) (c : Chat) : Chat :=
  fold_left (fun c e => step e c) events c.

(** ** Vocabulary of the statements *)

(** The diagnostics of a document, none when the collection has no entry. *)
Definition diagnostics_of (u : string) (σ : State) : list Diagnostic :=
  default [] (collection_get u σ).

(** What the [try] blocks leave in [issues]. *)
Definition review_issues (aiResponse : value) : value :=
  match parse_review_try aiResponse with
  | Ok issues => issues
  | Throw _ => VArr []
  end.

Definition quick_issues (aiResponse : value) : list value :=
  match parse_quick_try aiResponse with
  | Ok issues => issues
  | Throw _ => []
  end.

(** What a review pass makes of a reply: the range, message and severity of
    each diagnostic it constructs, when no step throws. *)
Definition review_output (document : TextDocument) (start : nat) (response : value)
  : result (list (Range * value * DiagnosticSeverity)) :=
  a ← first_candidate_text response;
  js_map (make_diagnostic review_severity document start) (review_issues a).

Definition quick_output (document : TextDocument) (start : nat) (response : value)
  : result (list (Range * value * DiagnosticSeverity)) :=
  a ← first_candidate_text response;
  map_result (make_diagnostic quick_severity document start) (quick_issues a).

(** A line number is in the document when it is a number of
    [0, lineCount). *)
Definition in_document (n : number) (document : TextDocument) : Prop :=
  exists q, n = Fin q /\ (0 <= q)%Q /\ (q < inject_Z (Z.of_nat (lineCount document)))%Q.

(** A message is of low value when its lower case contains one of the
    three keywords. *)
Definition low_value (m : jsstring) : bool :=
  includes (toLowerCase m) (lit "comment")
  || includes (toLowerCase m) (lit "naming")
  || includes (toLowerCase m) (lit "style").

(** An issue as the prompt asks for it: an object whose message, if it has
    one, is a string. *)
Definition plain_issue (issue : value) : Prop :=
  exists props, issue = VObj props /\
    (own_prop props (lit "message") = None
     \/ exists m, own_prop props (lit "message") = Some (VStr m)).

(** What the quality filter keeps: the issues whose message has more than
    10 code units and is not of low value. *)
Definition kept (issue : value) : bool :=
  match issue with
  | VObj props =>
      match own_prop props (lit "message") with
      | Some (VStr m) => (10 <? length m)%nat && negb (low_value m)
      | _ => false
      end
  | _ => false
  end.

(** The diagnostics of a document are distinct objects, allocated before
    the next free identity. *)
Definition distinct_objects (σ : State) : Prop :=
  forall u ds, diagnosticCollection σ !! u = Some ds ->
    NoDup (ident <$> ds) /\ Forall (fun d => (ident d < next_ident σ)%nat) ds.

Definition is_stop_notice (m : ToWebview) : bool :=
  match m with
  | streamStopped _ => true
  | _ => false
  end.

(** ** Examples *)

(** The reply of the endpoint in its documented shape, with one candidate
    whose single part carries the text [t]. *)
Definition response_of (t : jsstring) : value :=
  VObj [(lit "data",
         VObj [(lit "candidates",
                VArr [VObj [(lit "content",
                             VObj [(lit "parts", VArr [VObj [(lit "text", VStr t)]]);
                                   (lit "role", VStr (lit "model"))])]])])].

(** A document of ten lines, a state without diagnostics, and a key. *)
Definition sample_document : TextDocument :=
  {| uri := "file:///src/app.js";
     languageId := lit "javascript";
     lines := replicate 10 (lit "const total = items.length;") |}.

Definition empty_state : State :=
  {| diagnosticCollection := ∅;
     notifications := [];
     console := [];
     edits := [];
     next_ident := 0 |}.

Definition sample_key : jsstring := lit "AIzaSy-key".

(** The JSON texts of the examples are written with an apostrophe where
    the text has a double quote. *)
Definition json (s : string) : jsstring :=
  List.map (fun c => if c =? 39 then 34 else c) (lit s).

(** The two examples of the specification: a reply without array, and a
    reply with one issue in a fenced block between two sentences. *)
Definition no_issues_reply : jsstring := lit "No issues found, code looks good!".

Definition fenced_prefix : jsstring :=
  lit "Here is the review:" ++ [10] ++ lit "```json" ++ [10].

Definition fenced_body : jsstring :=
  json "{'line':3,'message':'Null pointer dereference risk','severity':'error'}".

Definition fenced_suffix : jsstring :=
  [10] ++ lit "```" ++ [10] ++ lit "Let me know if you need more.".

Definition null_pointer_issue : value :=
  VObj [(lit "line", VNum (Fin 3));
        (lit "message", VStr (lit "Null pointer dereference risk"));
        (lit "severity", VStr (lit "error"))].

(** A reply whose prose mentions line numbers in brackets before the
    array, and the array it carries. *)
Definition bracketed_prose_array : jsstring :=
  json "[{'line':1,'message':'Null pointer dereference risk','severity':'error'}]".

Definition bracketed_prose_reply : jsstring :=
  lit "Lines [1, 2] are affected: " ++ bracketed_prose_array.

(** A reply that is one array, with a bracket inside a message. *)
Definition index_message_reply : jsstring :=
  json "[{'line':4,'message':'Index items[0] is read before the bounds check','severity':'error'}]".

(** An issue whose message has exactly 10 code units, the reply that
    reports it, and an issue about naming. *)
Definition ten_unit_issue : value :=
  VObj [(lit "line", VNum (Fin 7));
        (lit "message", VStr (lit "Null deref"));
        (lit "severity", VStr (lit "error"))].

Definition ten_unit_reply : jsstring :=
  json "[{'line':7,'message':'Null deref','severity':'error'}]".

Definition style_issue : value :=
  VObj [(lit "line", VNum (Fin 2));
        (lit "message", VStr (lit "Inconsistent Naming of the loop variables"));
        (lit "severity", VStr (lit "warning"))].

(** A reply with one issue of severity "info", and a reply with two
    issues. *)
Definition info_reply : jsstring :=
  json "[{'line':2,'message':'Unbounded recursion can overflow the stack','severity':'info'}]".

Definition two_issue_reply : jsstring :=
  json "[{'line':3,'message':'Null pointer dereference risk','severity':'error'},{'line':8,'message':'Unbounded recursion can overflow the stack','severity':'warning'}]".

(** A reply whose issue reports its line as a text that is no number. *)
Definition text_line_issue : value :=
  VObj [(lit "line", VStr (lit "abc"));
        (lit "message", VStr (lit "Null pointer dereference risk"));
        (lit "severity", VStr (lit "error"))].

Definition text_line_reply : jsstring :=
  json "[{'line':'abc','message':'Null pointer dereference risk','severity':'error'}]".

(** The state after a full review of [info_reply], which leaves one
    diagnostic on the sample document, and the state after two quick reviews
    of [two_issue_reply] over it: five diagnostics, the last two with the
    content of the two before them. *)
Definition reviewed_state : State :=
  reviewCode sample_document 0 (Some sample_key) (Ok (response_of info_reply)) empty_state.

Definition twice_reviewed_state : State :=
  quickReviewSelection sample_document (lit "f(x)") 0 (Some sample_key)
    (Ok (response_of two_issue_reply))
    (quickReviewSelection sample_document (lit "f(x)") 0 (Some sample_key)
       (Ok (response_of two_issue_reply)) reviewed_state).

(** The second diagnostic of that state. *)
Definition fixed_diagnostic : Diagnostic :=
  {| ident := 1;
     range := {| range_line := 2; range_start := 0; range_end := 27 |};
     message := VStr (lit "Null pointer dereference risk");
     severity := Error;
     source := Some (lit "AI Copilot") |}.

(** A reply to a fix request in the documented shape, and a reply whose
    [candidates] is an object that carries [content.parts.text] itself, the
    only shape from which [applyAIFix] reads a text. *)
Definition fix_response : value :=
  response_of (lit "const total = items ? items.length : 0;").

Definition direct_fix_response : value :=
  VObj [(lit "data",
         VObj [(lit "candidates",
                VObj [(lit "content",
                       VObj [(lit "parts",
                              VObj [(lit "text",
                                     VStr (lit "const total = items ? items.length : 0;"))])])])])].

(** A question, the stop button while the request is outstanding, and the
    reply that arrives afterwards. *)
Definition question : jsstring := lit "Why is total NaN?".

Definition answer : jsstring := lit "Because items is undefined.".

Definition stopped_session : Chat :=
  run [UserSends question (Some sample_key) None; UserStops] initial.

Definition settled_session : Chat :=
  step (RequestSettles (Ok (response_of answer))) stopped_session.

(** ** The quick fixes offered for a diagnostic *)

(** A [vscode.CodeAction] of kind QuickFix: the name of its command, the
    arguments of the command, the diagnostics it is attached to and
    [isPreferred].  The titles are left out. *)
Record CodeAction := {
  command : string;
  arguments : TextDocument * Diagnostic;
  diagnostics : list Diagnostic;
  isPreferred : bool
}.

(** [diagnostic.source === "AI Copilot"]. *)
Definition is_ai_copilot (diagnostic : Diagnostic) : bool :=
  match source diagnostic with
  | Some s => str_eqb s (lit "AI Copilot")
  | None => false
  end.

(** [AICodeFixProvider.provideCodeActions(document, range, context)];
    [context_diagnostics] is [context.diagnostics], which the editor fills
    with the diagnostics of every source at the range. *)
Definition provideCodeActions (document : TextDocument)
    (context_diagnostics : list Diagnostic) : list CodeAction :=
  fold_left
    (fun codeActions diagnostic =>
       if is_ai_copilot diagnostic then
         codeActions ++ [{| command := "aiCopilotReviewer.applyAIFix";
                            arguments := (document, diagnostic);
                            diagnostics := [diagnostic];
                            isPreferred := true |}]
       else codeActions)
    context_diagnostics [].

(** ** The context of a fix request *)

(** A line number as [new vscode.Range] and [getText] take it.  They are
    modelled for whole numbers from 0 on, the only ones that reach them. *)
Definition line_index (n : number) : result nat :=
  match n with
  | Fin q =>
      let z := Qfloor q in
      if Qeq_bool (inject_Z z) q && (0 <=? z)%Z then Ok (Z.to_nat z)
      else Throw IllegalLine
  | NaN | Inf _ => Throw IllegalLine
  end.

(** [document.getText(new vscode.Range(startLine, 0, endLine, 0))]: the
    lines from [startLine] up to, not including, [endLine], each with the
    line terminator [eol] of the document after it. *)
Definition getText_lines (document : TextDocument) (eol : jsstring)
    (startLine endLine : number) : result jsstring :=
  s ← line_index startLine;
  e ← line_index endLine;
  Ok (concat ((fun l => l ++ eol) <$> take (e - s) (drop s (lines document)))).

(** What [applyAIFix] puts into its prompt: [lineText] and [context]. *)
Definition fix_context (document : TextDocument) (eol : jsstring) (diagnostic : Diagnostic)
  : result (jsstring * jsstring) :=
  let line := num_of_nat (range_line (range diagnostic)) in
  '(lineText, _) ← lineAt document line;
  let startLine := Math_max (Fin 0) (num_sub line (Fin 5)) in
  let endLine := Math_min (num_sub (num_of_nat (lineCount document)) (Fin 1))
                          (num_add line (Fin 5)) in
  context ← getText_lines document eol startLine endLine;
  Ok (lineText, context).

(** ** The commands as the editor runs them *)

(** The messages of [getApiKey] and of the commands below: "API Key is
    required to use AI Copilot!", "API Key saved successfully!", "Reviews
    cleared!", "No file open!" and "Language not supported.". *)
Inductive Notice :=
| ErrorApiKeyRequired
| InfoApiKeySaved
| InfoReviewsCleared
| WarnNoFileOpen
| InfoLanguageNotSupported.

(** The setting [aiCopilotReviewer.apiKey] ([None] when it has no value),
    the state of the review commands, and the messages above in the order
    they are shown. *)
Record Workspace := {
  apiKeySetting : option jsstring;
  reviews : State;
  notices : list Notice
}.

Definition notify (n : Notice) (w : Workspace) : Workspace :=
  {| apiKeySetting := apiKeySetting w;
     reviews := reviews w;
     notices := notices w ++ [n] |}.

(** [config.update("apiKey", apiKey, ConfigurationTarget.Global)]. *)
Definition config_update (apiKey : option jsstring) (w : Workspace) : Workspace :=
  {| apiKeySetting := apiKey;
     reviews := reviews w;
     notices := notices w |}.

Definition with_reviews (f : State -> State) (w : Workspace) : Workspace :=
  {| apiKeySetting := apiKeySetting w;
     reviews := f (reviews w);
     notices := notices w |}.

(** [!apiKey] for what is [undefined] or a string. *)
Definition absent (apiKey : option jsstring) : bool :=
  match apiKey with
  | Some (_ :: _) => false
  | Some [] | None => true
  end.

(** [getApiKey()]; [entered] is what the input box resolves to if it is
    shown, [None] when the user dismisses it.  The result [None] is
    [null]. *)
Definition getApiKey (entered : option jsstring) (w : Workspace)
  : option jsstring * Workspace :=
  let apiKey := apiKeySetting w in
  if absent apiKey then
    let apiKey := entered in
    if absent apiKey then (None, notify ErrorApiKeyRequired w)
    else (apiKey, notify InfoApiKeySaved (config_update apiKey w))
  else (apiKey, w).

(** [reviewCode], [quickReviewSelection] and [applyAIFix] with their call
    of [getApiKey].  [quickReviewSelection] returns on an empty selection
    before it asks for the key. *)
Definition reviewCode_command (document : TextDocument) (startLine : nat)
    (entered : option jsstring) (response : result value) (w : Workspace) : Workspace :=
  let '(apiKey, w1) := getApiKey entered w in
  with_reviews (reviewCode document startLine apiKey response) w1.

Definition quickReviewSelection_command (document : TextDocument) (code : jsstring)
    (selectionStart : nat) (entered : option jsstring) (response : result value)
    (w : Workspace) : Workspace :=
  match code with
  | [] => with_reviews (quickReviewSelection document code selectionStart None response) w
  | _ =>
      let '(apiKey, w1) := getApiKey entered w in
      with_reviews (quickReviewSelection document code selectionStart apiKey response) w1
  end.

Definition applyAIFix_command (document : TextDocument) (diagnostic : Diagnostic)
    (entered : option jsstring) (response : result value)
    (activeTextEditor : option string) (w : Workspace) : Workspace :=
  let '(apiKey, w1) := getApiKey entered w in
  with_reviews (applyAIFix document diagnostic apiKey response activeTextEditor) w1.

Definition supportedLanguages : list jsstring :=
  [lit "javascript"; lit "typescript"; lit "python"; lit "java"; lit "cpp";
   lit "c"; lit "go"; lit "rust"].

(** [reviewDocument(document)]. *)
Definition reviewDocument (document : TextDocument) (entered : option jsstring)
    (response : result value) (w : Workspace) : Workspace :=
  if negb (existsb (str_eqb (languageId document)) supportedLanguages) then
    notify InfoLanguageNotSupported w
  else reviewCode_command document 0 entered response w.

(** What the commands read from [vscode.window.activeTextEditor]: its
    document, the text of its selection and the line the selection starts
    on. *)
Record TextEditor := {
  editor_document : TextDocument;
  selection_text : jsstring;
  selection_start_line : nat
}.

(** [reviewCurrentFile()] and [reviewSelectedCode()]. *)
Definition reviewCurrentFile (editor : option TextEditor) (entered : option jsstring)
    (response : result value) (w : Workspace) : Workspace :=
  match editor with
  | None => notify WarnNoFileOpen w
  | Some e => reviewDocument (editor_document e) entered response w
  end.

Definition reviewSelectedCode (editor : option TextEditor) (entered : option jsstring)
    (response : result value) (w : Workspace) : Workspace :=
  match editor with
  | None => w
  | Some e =>
      match selection_text e with
      | [] => with_reviews (show WarnNoCodeSelected) w
      | _ =>
          reviewCode_command (editor_document e) (selection_start_line e) entered response w
      end
  end.

(** [diagnosticCollection.clear()]. *)
Definition collection_clear (σ : State) : State :=
  {| diagnosticCollection := ∅;
     notifications := notifications σ;
     console := console σ;
     edits := edits σ;
     next_ident := next_ident σ |}.

(** The command [aiCopilotReviewer.clearDiagnostics] and the listener of
    [onDidSaveTextDocument] with the value of the setting [reviewOnSave]. *)
Definition clearDiagnostics (w : Workspace) : Workspace :=
  notify InfoReviewsCleared (with_reviews collection_clear w).

Definition onDidSaveTextDocument (reviewOnSave : bool) (doc : TextDocument)
    (entered : option jsstring) (response : result value) (w : Workspace) : Workspace :=
  if reviewOnSave then reviewDocument doc entered response w else w.

(** The commands that act on the diagnostic collection, with what each of
    them finds when it runs: the active editor, what the input box for the
    key resolves to, and the settled request.  The commands [explainCode],
    [fixCode], [generateTests] and [refactorCode], which do not touch the
    collection, are left out. *)
Inductive Command :=
| ReviewFile (editor : option TextEditor) (entered : option jsstring)
    (response : result value)
| ReviewSelection (editor : option TextEditor) (entered : option jsstring)
    (response : result value)
| QuickReviewSelection (document : TextDocument) (code : jsstring) (selectionStart : nat)
    (entered : option jsstring) (response : result value)
| ApplyAIFix (document : TextDocument) (diagnostic : Diagnostic)
    (entered : option jsstring) (response : result value)
    (activeTextEditor : option string)
| ClearDiagnostics
| SaveTextDocument (reviewOnSave : bool) (doc : TextDocument)
    (entered : option jsstring) (response : result value).

Definition execute (c : Command) (w : Workspace) : Workspace :=
  match c with
  | ReviewFile editor entered response => reviewCurrentFile editor entered response w
  | ReviewSelection editor entered response => reviewSelectedCode editor entered response w
  | QuickReviewSelection document code selectionStart entered response =>
      quickReviewSelection_command document code selectionStart entered response w
  | ApplyAIFix document diagnostic entered response activeTextEditor =>
      applyAIFix_command document diagnostic entered response activeTextEditor w
  | ClearDiagnostics => clearDiagnostics w
  | SaveTextDocument reviewOnSave doc entered response =>
      onDidSaveTextDocument reviewOnSave doc entered response w
  end.

Definition execute_all (cs : list Command) (w : Workspace) : Workspace :=
  fold_left (fun w c => execute c w) cs w.

(** The workspace when the extension is activated. *)
Definition activated (apiKey : option jsstring) : Workspace :=
  {| apiKeySetting := apiKey; reviews := empty_state; notices := [] |}.

(** ** More vocabulary *)

(** A text that neither starts nor ends with white space. *)
Definition trimmed (s : jsstring) : bool :=
  match s with
  | [] => true
  | c :: _ => negb (is_space c) && negb (is_space (List.last s c))
  end.

(** The delimiter of a code block. *)
Definition fence : jsstring := lit "```".

(** A diagnostic covers a whole line of the document. *)
Definition covers_line (document : TextDocument) (r : Range) : Prop :=
  exists text, lines document !! range_line r = Some text
               /\ range_start r = 0%nat /\ range_end r = length text.

(** A message as the quality filter lets it through: a text of more than
    10 code units that is not of low value. *)
Definition substantial (m : value) : Prop :=
  exists t, m = VStr t /\ (10 < length t)%nat /\ low_value t = false.

(** The clamp of the mapper, in whole numbers. *)
Definition clamp_line (z : Z) (start lineCount : nat) : Z :=
  Z.max 0 (Z.min (z - 1 + Z.of_nat start) (Z.of_nat lineCount - 1)).

(** A property of the range, message and severity of an entry from which
    a diagnostic is constructed. *)
Definition entry_holds (P : Range -> value -> DiagnosticSeverity -> Prop)
    (e : Range * value * DiagnosticSeverity) : Prop :=
  P e.1.1 e.1.2 e.2.

(** Every diagnostic of the collection is one that a review constructed:
    it has the source "AI Copilot" and starts at column 0. *)
Definition from_reviews (σ : State) : Prop :=
  forall u ds, diagnosticCollection σ !! u = Some ds ->
    Forall (fun d => source d = Some (lit "AI Copilot") /\ range_start (range d) = 0%nat) ds.

(** What every state that the commands reach satisfies. *)
Definition sound (w : Workspace) : Prop :=
  distinct_objects (reviews w) /\ from_reviews (reviews w).

(** The quick fix for a diagnostic. *)
Definition fix_for (document : TextDocument) (diagnostic : Diagnostic) : CodeAction :=
  {| command := "aiCopilotReviewer.applyAIFix";
     arguments := (document, diagnostic);
     diagnostics := [diagnostic];
     isPreferred := true |}.

Definition is_fix (c : Command) : bool :=
  match c with
  | ApplyAIFix _ _ _ _ _ => true
  | _ => false
  end.


(** The full prompt of the question that an event asks in the state [c],
    if it is one for which [handleChatMessage] sends a request: a message
    that is not blank, sent while the webview is not streaming, with a
    key. *)
Definition asks (e : Event) (c : Chat) : option jsstring :=
  match e with
  | UserSends input (Some _) editor =>
      match trim input with
      | [] => None
      | message => if isStreaming c then None else Some (fullPrompt message editor)
      end
  | _ => None
  end.

(** The prompts of the questions whose requests are outstanding after
    [events], the oldest first, given those that were outstanding in [c]:
    a question that is asked joins them, a request that settles leaves
    them. *)
Fixpoint pending_questions (events : list Event) (c : Chat) (prompts : list jsstring)
  : list jsstring :=
  match events with
  | [] => prompts
  | e :: events' =>
      pending_questions events' (step e c)
        match e with
        | RequestSettles _ => tail prompts
        | _ =>
            match asks e c with
            | Some prompt => prompts ++ [prompt]
            | None => prompts
            end
        end
  end.


(** ** More examples *)

(** A reply whose array has a [null] after an issue. *)
Definition null_element_reply : jsstring :=
  json "[{'line':3,'message':'Null pointer dereference risk','severity':'error'},null]".

(** The same array without its brackets. *)
Definition null_element_body : jsstring :=
  json "{'line':3,'message':'Null pointer dereference risk','severity':'error'},null".

(** A fix in a fenced block, and the line it carries. *)
Definition fixed_line : jsstring := lit "const total = items ? items.length : 0;".

Definition fenced_fix : jsstring :=
  fence ++ lit "javascript" ++ [10] ++ fixed_line ++ [10] ++ fence.

(** The editor on the sample document with its fourth line selected. *)
Definition sample_editor : TextEditor :=
  {| editor_document := sample_document;
     selection_text := lit "const total = items.length;";
     selection_start_line := 3 |}.

(** A session: a review of the file, which asks for the key, a quick review
    of a selection, and a save with [reviewOnSave] off. *)
Definition sample_commands : list Command :=
  [ReviewFile (Some sample_editor) (Some sample_key) (Ok (response_of two_issue_reply));
   QuickReviewSelection sample_document (lit "f(x)") 3 None (Ok (response_of info_reply));
   SaveTextDocument false sample_document None (Ok (response_of no_issues_reply))].

Definition sample_workspace : Workspace := execute_all sample_commands (activated None).

(** The diagnostic of that session on line 8 of the reply, line 7 of the
    document. *)
Definition recursion_diagnostic : Diagnostic :=
  {| ident := 1;
     range := {| range_line := 7; range_start := 0; range_end := 27 |};
     message := VStr (lit "Unbounded recursion can overflow the stack");
     severity := Warning;
     source := Some (lit "AI Copilot") |}.

(** The sample document after its last eight lines were deleted. *)
Definition shortened_document : TextDocument :=
  {| uri := uri sample_document;
     languageId := languageId sample_document;
     lines := take 2 (lines sample_document) |}.

(** An issue about a bug, whose message has "naming" inside a word. *)
Definition renaming_issue : value :=
  VObj [(lit "line", VNum (Fin 5));
        (lit "message", VStr (lit "Renaming the file races with the open handle"));
        (lit "severity", VStr (lit "error"))].

(** * Properties *)

(** Decidable facts about concrete texts are settled by evaluation. *)
Ltac decide_by_computation :=
  match goal with
  | |- ?P => apply (bool_decide_unpack P); vm_compute; exact I
  end.

(** ** Strings *)

Lemma str_eqb_eq (s t : jsstring) : str_eqb s t = true <-> s = t.
Proof.
  revert t. induction s as [|c s IH]; intros [|d t]; simpl; try (split; congruence).
  rewrite andb_true_iff, N.eqb_eq, IH. split; [intros [-> ->]; reflexivity | intros [= -> ->]; auto].
Qed.

Lemma str_eqb_refl (s : jsstring) : str_eqb s s = true.
Proof. apply str_eqb_eq. reflexivity. Qed.

(** ** The JSON parser consumes its input and never runs out of fuel *)

Lemma skip_ws_le (s : jsstring) : (length (skip_ws s) <= length s)%nat.
Proof. induction s as [|c s IH]; simpl; [lia|]. destruct (is_json_ws c); simpl; lia. Qed.

Lemma span_digits_length (s ds r : jsstring) :
  span_digits s = (ds, r) -> length s = (length ds + length r)%nat.
Proof.
  revert ds r. induction s as [|c s IH]; simpl; intros ds r H.
  - injection H as <- <-. reflexivity.
  - destruct (is_digit c).
    + destruct (span_digits s) as [ds' r'] eqn:E. injection H as <- <-.
      simpl. rewrite (IH _ _ eq_refl). reflexivity.
    + injection H as <- <-. reflexivity.
Qed.

Lemma signed_digits_lt (neg : bool) (s r : jsstring) (e : Z) :
  signed_digits neg s = Some (e, r) -> (length r < length s)%nat.
Proof.
  unfold signed_digits. destruct (span_digits s) as [ds rest] eqn:E.
  apply span_digits_length in E. destruct ds; [discriminate|].
  intros [= _ <-]. simpl in E. lia.
Qed.

Lemma scan_exponent_lt (s r : jsstring) (e : Z) :
  scan_exponent s = Some (e, r) -> (length r < length s)%nat.
Proof.
  destruct s as [|c s']; simpl; [discriminate|].
  destruct (c =? 43); [intros H%signed_digits_lt; lia|].
  destruct (c =? 45); [intros H%signed_digits_lt; lia|].
  intros H%signed_digits_lt. simpl in H. lia.
Qed.

Lemma json_fraction_le (s ds r : jsstring) :
  json_fraction s = Some (ds, r) -> (length r <= length s)%nat.
Proof.
  destruct s as [|c s']; simpl; [intros [= _ <-]; simpl; lia|].
  destruct (c =? 46).
  - destruct (span_digits s') as [ds' r'] eqn:E. apply span_digits_length in E.
    destruct ds'; [discriminate|]. intros [= _ <-]. lia.
  - intros [= _ <-]. simpl. lia.
Qed.

Lemma json_unsigned_lt (neg : bool) (s r : jsstring) (n : number) :
  json_unsigned neg s = Some (n, r) -> (length r < length s)%nat.
Proof.
  unfold json_unsigned. destruct (span_digits s) as [ds1 r1] eqn:E.
  apply span_digits_length in E. destruct ds1 as [|d ds']; [discriminate|].
  destruct ((d =? 48) && _); [discriminate|].
  destruct (json_fraction r1) as [[ds2 r2]|] eqn:F; [|discriminate].
  apply json_fraction_le in F. simpl in E |- *.
  destruct r2 as [|c r3]; [intros [= _ <-]; simpl; lia|].
  destruct (is_e c).
  - destruct (scan_exponent r3) as [[e r4]|] eqn:X; [|discriminate].
    apply scan_exponent_lt in X. simpl. intros [= _ <-]. simpl in F. lia.
  - intros [= _ <-]. lia.
Qed.

Lemma json_number_lt (s r : jsstring) (n : number) :
  json_number s = Some (n, r) -> (length r < length s)%nat.
Proof.
  destruct s as [|c s']; simpl; [discriminate|].
  destruct (c =? 45); intros H%json_unsigned_lt; simpl in *; lia.
Qed.

Lemma json_string_lt (s t r : jsstring) :
  json_string s = Some (t, r) -> (length r < length s)%nat.
Proof.
  remember (length s) as n eqn:Hn. revert s t r Hn.
  induction n as [n IH] using lt_wf_ind. intros s t r -> H.
  destruct s as [|c s']; simpl in H; [discriminate|].
  destruct (c =? 34); [injection H as _ <-; simpl; lia|].
  destruct (c =? 92).
  - destruct s' as [|e r1]; [discriminate|].
    destruct (e =? 117).
    + destruct r1 as [|a [|b [|c' [|d r2]]]]; try discriminate.
      destruct (hex4 a b c' d); [|discriminate]. simpl in H.
      destruct (json_string r2) as [[t' r']|] eqn:E; [|discriminate].
      injection H as _ <-. apply (IH (length r2)) in E; simpl; auto; lia.
    + destruct (escape e); [|discriminate]. simpl in H.
      destruct (json_string r1) as [[t' r']|] eqn:E; [|discriminate].
      injection H as _ <-. apply (IH (length r1)) in E; simpl; auto; lia.
  - destruct (c <? 32); [discriminate|].
    destruct (json_string s') as [[t' r']|] eqn:E; [|discriminate].
    injection H as _ <-. apply (IH (length s')) in E; simpl; auto; lia.
Qed.

Lemma parse_consumes (fuel : nat) :
  (forall s v r, parse_value fuel s = Parsed v r -> (length r < length s)%nat) /\
  (forall s l r, parse_elements fuel s = Parsed l r -> (length r < length s)%nat) /\
  (forall s m r, parse_members fuel s = Parsed m r -> (length r < length s)%nat).
Proof.
  induction fuel as [|f (IHv & IHe & IHm)]; [repeat split; intros; discriminate|].
  repeat split.
  - intros s v r. cbn [parse_value].
    pose proof (skip_ws_le s) as Hs. destruct (skip_ws s) as [|c r0]; [discriminate|].
    simpl in Hs.
    destruct (c =? 34).
    { destruct (json_string r0) as [[t r']|] eqn:E; [|discriminate].
      apply json_string_lt in E. intros [= _ <-]. lia. }
    destruct (c =? 91).
    { pose proof (skip_ws_le r0) as Hr. destruct (skip_ws r0) as [|d r']; [discriminate|].
      simpl in Hr. destruct (d =? 93); [intros [= _ <-]; lia|].
      destruct (parse_elements f r0) as [l r''| |] eqn:E; try discriminate.
      apply IHe in E. intros [= _ <-]. lia. }
    destruct (c =? 123).
    { pose proof (skip_ws_le r0) as Hr. destruct (skip_ws r0) as [|d r']; [discriminate|].
      simpl in Hr. destruct (d =? 125); [intros [= _ <-]; lia|].
      destruct (parse_members f r0) as [l r''| |] eqn:E; try discriminate.
      apply IHm in E. intros [= _ <-]. lia. }
    do 3 (destruct (starts_with _ _);
          [intros [= _ <-]; simpl; rewrite length_drop; lia|]).
    destruct (json_number (c :: r0)) as [[n r']|] eqn:E; [|discriminate].
    apply json_number_lt in E. simpl in E. intros [= _ <-]. lia.
  - intros s l r. cbn [parse_elements].
    destruct (parse_value f s) as [v r0| |] eqn:E; try discriminate.
    apply IHv in E.
    pose proof (skip_ws_le r0) as Hr. destruct (skip_ws r0) as [|d r']; [discriminate|].
    simpl in Hr. destruct (d =? 44).
    { destruct (parse_elements f r') as [l' r''| |] eqn:E'; try discriminate.
      apply IHe in E'. intros [= _ <-]. lia. }
    destruct (d =? 93); [|discriminate]. intros [= _ <-]. lia.
  - intros s m r. cbn [parse_members].
    pose proof (skip_ws_le s) as Hs. destruct (skip_ws s) as [|q r0]; [discriminate|].
    simpl in Hs. destruct (q =? 34); [|discriminate].
    destruct (json_string r0) as [[k r1]|] eqn:K; [|discriminate].
    apply json_string_lt in K.
    pose proof (skip_ws_le r1) as H1. destruct (skip_ws r1) as [|c r2]; [discriminate|].
    simpl in H1. destruct (c =? 58); [|discriminate].
    destruct (parse_value f r2) as [v r3| |] eqn:E; try discriminate.
    apply IHv in E.
    pose proof (skip_ws_le r3) as H3. destruct (skip_ws r3) as [|d r4]; [discriminate|].
    simpl in H3. destruct (d =? 44).
    { destruct (parse_members f r4) as [m' r5| |] eqn:E'; try discriminate.
      apply IHm in E'. intros [= _ <-]. lia. }
    destruct (d =? 125); [|discriminate]. intros [= _ <-]. lia.
Qed.

(** With fuel beyond twice the length of the text, the parser reaches a
    verdict. *)
Lemma parse_fuel (fuel : nat) :
  (forall s, (2 * length s < fuel)%nat -> parse_value fuel s <> OutOfFuel) /\
  (forall s, (2 * length s + 1 < fuel)%nat -> parse_elements fuel s <> OutOfFuel) /\
  (forall s, (2 * length s + 1 < fuel)%nat -> parse_members fuel s <> OutOfFuel).
Proof.
  induction fuel as [|f (IHv & IHe & IHm)]; [repeat split; intros; lia|].
  repeat split.
  - intros s Hf. cbn [parse_value].
    pose proof (skip_ws_le s) as Hs. destruct (skip_ws s) as [|c r0]; [discriminate|].
    simpl in Hs.
    destruct (c =? 34); [destruct (json_string r0) as [[t r']|]; discriminate|].
    destruct (c =? 91).
    { destruct (skip_ws r0) as [|d r']; [discriminate|].
      destruct (d =? 93); [discriminate|].
      destruct (parse_elements f r0) as [l r''| |] eqn:E; try discriminate.
      apply IHe in E; [contradiction|lia]. }
    destruct (c =? 123).
    { destruct (skip_ws r0) as [|d r']; [discriminate|].
      destruct (d =? 125); [discriminate|].
      destruct (parse_members f r0) as [l r''| |] eqn:E; try discriminate.
      apply IHm in E; [contradiction|lia]. }
    repeat (destruct (starts_with _ _); [discriminate|]).
    destruct (json_number (c :: r0)) as [[n r']|]; discriminate.
  - intros s Hf. cbn [parse_elements].
    destruct (parse_value f s) as [v r0| |] eqn:E; try discriminate.
    + apply (proj1 (parse_consumes f)) in E.
      pose proof (skip_ws_le r0) as Hr. destruct (skip_ws r0) as [|d r']; [discriminate|].
      simpl in Hr. destruct (d =? 44).
      { destruct (parse_elements f r') as [l' r''| |] eqn:E'; try discriminate.
        apply IHe in E'; [contradiction|lia]. }
      destruct (d =? 93); discriminate.
    + apply IHv in E; [contradiction|lia].
  - intros s Hf. cbn [parse_members].
    pose proof (skip_ws_le s) as Hs. destruct (skip_ws s) as [|q r0]; [discriminate|].
    simpl in Hs. destruct (q =? 34); [|discriminate].
    destruct (json_string r0) as [[k r1]|] eqn:K; [|discriminate].
    apply json_string_lt in K.
    pose proof (skip_ws_le r1) as H1. destruct (skip_ws r1) as [|c r2]; [discriminate|].
    simpl in H1. destruct (c =? 58); [|discriminate].
    destruct (parse_value f r2) as [v r3| |] eqn:E; try discriminate.
    + apply (proj1 (parse_consumes f)) in E.
      pose proof (skip_ws_le r3) as H3. destruct (skip_ws r3) as [|d r4]; [discriminate|].
      simpl in H3. destruct (d =? 44).
      { destruct (parse_members f r4) as [m' r5| |] eqn:E'; try discriminate.
        apply IHm in E'; [contradiction|lia]. }
      destruct (d =? 125); discriminate.
    + apply IHv in E; [contradiction|lia].
Qed.

Lemma parse_value_fuel (s : jsstring) : parse_value (S (2 * length s)) s <> OutOfFuel.
Proof. apply (proj1 (parse_fuel _)). lia. Qed.

Lemma parse_value_bracket (fuel : nat) (s : jsstring) :
  parse_value (S fuel) (91 :: s) =
  match skip_ws s with
  | d :: r' =>
      if d =? 93 then Parsed (VArr []) r'
      else
        match parse_elements fuel s with
        | Parsed l r'' => Parsed (VArr l) r''
        | Malformed => Malformed
        | OutOfFuel => OutOfFuel
        end
  | [] => Malformed
  end.
Proof. reflexivity. Qed.

(** A text that starts with an opening bracket parses to an array or not at
    all. *)
Lemma JSON_parse_bracket (s : jsstring) (v : value) :
  JSON_parse (91 :: s) = Ok v -> exists l, v = VArr l.
Proof.
  unfold JSON_parse. rewrite parse_value_bracket.
  destruct (skip_ws s) as [|d r']; [discriminate|].
  destruct (d =? 93).
  - destruct (skip_ws r'); [|discriminate]. intros [= <-]. eauto.
  - destruct (parse_elements _ s) as [l r''| |]; try discriminate.
    destruct (skip_ws r''); [|discriminate]. intros [= <-]. eauto.
Qed.

(** ** The regular expressions *)

Lemma bracket_match_head (tail : jsstring -> option jsstring) (s m : jsstring) :
  bracket_match tail s = Some m -> exists m', m = 91 :: m'.
Proof.
  induction s as [|c s IH]; simpl; [discriminate|].
  destruct (c =? 91) eqn:E; [|exact IH].
  apply N.eqb_eq in E. subst c.
  destruct (tail s) as [m0|]; [|exact IH]. intros [= <-]. eauto.
Qed.

Lemma bracket_match_skip (tail : jsstring -> option jsstring) (pre s : jsstring) :
  91 ∉ pre -> bracket_match tail (pre ++ s) = bracket_match tail s.
Proof.
  induction pre as [|c pre IH]; [reflexivity|].
  intros H. apply not_elem_of_cons in H as [Hc Hpre]. simpl.
  destruct (N.eqb_spec c 91); [congruence|]. auto.
Qed.

Lemma up_to_last_close_none (s : jsstring) : 93 ∉ s -> up_to_last_close s = None.
Proof.
  induction s as [|c s IH]; [reflexivity|].
  intros H. apply not_elem_of_cons in H as [Hc Hs]. simpl. rewrite (IH Hs).
  destruct (N.eqb_spec c 93); congruence.
Qed.

Lemma up_to_last_close_app (a post : jsstring) :
  93 ∉ post -> up_to_last_close (a ++ 93 :: post) = Some (a ++ [93]).
Proof.
  intros H. induction a as [|c a IH]; simpl.
  - rewrite (up_to_last_close_none _ H). reflexivity.
  - rewrite IH. reflexivity.
Qed.

Lemma up_to_first_close_app (a post : jsstring) :
  93 ∉ a -> up_to_first_close (a ++ 93 :: post) = Some (a ++ [93]).
Proof.
  induction a as [|c a IH]; simpl; [reflexivity|].
  intros H. apply not_elem_of_cons in H as [Hc Ha].
  destruct (N.eqb_spec c 93); [congruence|]. rewrite (IH Ha). reflexivity.
Qed.

(** The greedy expression finds a bracketed text that prose without
    brackets surrounds. *)
Lemma re_greedy_delimited (pre mid post : jsstring) :
  91 ∉ pre -> 93 ∉ post ->
  re_greedy (pre ++ 91 :: mid ++ 93 :: post) = Some (91 :: mid ++ [93]).
Proof.
  intros Hpre Hpost. unfold re_greedy. rewrite bracket_match_skip by assumption.
  simpl. rewrite up_to_last_close_app by assumption. reflexivity.
Qed.

(** The lazy expression stops at the first closing bracket. *)
Lemma re_lazy_delimited (pre mid post : jsstring) :
  91 ∉ pre -> 93 ∉ mid ->
  re_lazy (pre ++ 91 :: mid ++ 93 :: post) = Some (91 :: mid ++ [93]).
Proof.
  intros Hpre Hmid. unfold re_lazy. rewrite bracket_match_skip by assumption.
  simpl. rewrite up_to_first_close_app by assumption. reflexivity.
Qed.

Lemma up_to_last_close_split (s m : jsstring) :
  up_to_last_close s = Some m ->
  exists mid post, s = mid ++ 93 :: post /\ (93 ∉ post) /\ m = mid ++ [93].
Proof.
  revert m. induction s as [|c s IH]; simpl; [discriminate|]. intros m.
  destruct (up_to_last_close s) as [m0|] eqn:E.
  - intros [= <-]. destruct (IH _ eq_refl) as (mid & post & -> & Hpost & ->).
    exists (c :: mid), post. auto.
  - destruct (N.eqb_spec c 93) as [->|]; [|discriminate]. intros [= <-].
    exists [], s. repeat split; auto.
    intros Hin. clear IH. induction s as [|d s IHs]; [inversion Hin|].
    simpl in E. destruct (up_to_last_close s); [discriminate|].
    destruct (N.eqb_spec d 93); [discriminate|].
    apply elem_of_cons in Hin as [Heq|Hin]; [congruence|auto].
Qed.

Lemma up_to_first_close_split (s m : jsstring) :
  up_to_first_close s = Some m ->
  exists mid post, s = mid ++ 93 :: post /\ (93 ∉ mid) /\ m = mid ++ [93].
Proof.
  revert m. induction s as [|c s IH]; simpl; [discriminate|]. intros m.
  destruct (N.eqb_spec c 93) as [->|Hc].
  - intros [= <-]. exists [], s. repeat split; auto. apply not_elem_of_nil.
  - destruct (up_to_first_close s) as [m0|]; [|discriminate]. simpl.
    intros [= <-]. destruct (IH _ eq_refl) as (mid & post & -> & Hmid & ->).
    exists (c :: mid), post. repeat split; auto.
    apply not_elem_of_cons. auto.
Qed.

Lemma up_to_last_close_tail (c : N) (s : jsstring) :
  up_to_last_close (c :: s) = None -> up_to_last_close s = None.
Proof. simpl. destruct (up_to_last_close s); [discriminate|reflexivity]. Qed.

Lemma up_to_first_close_tail (c : N) (s : jsstring) :
  up_to_first_close (c :: s) = None -> up_to_first_close s = None.
Proof.
  simpl. destruct (c =? 93); [discriminate|].
  destruct (up_to_first_close s); [discriminate|reflexivity].
Qed.

(** When nothing closes after one opening bracket, nothing closes after a
    later one: a failed attempt of the engine is never followed by a
    successful one. *)
Lemma bracket_match_none (tail : jsstring -> option jsstring) (s : jsstring) :
  (forall c r, tail (c :: r) = None -> tail r = None) ->
  tail s = None -> bracket_match tail s = None.
Proof.
  intros Htail. induction s as [|c s IH]; [reflexivity|]. intros Hs.
  simpl. rewrite (Htail _ _ Hs). rewrite (IH (Htail _ _ Hs)).
  destruct (c =? 91); reflexivity.
Qed.

Lemma bracket_match_split (tail : jsstring -> option jsstring) (s m : jsstring) :
  (forall c r, tail (c :: r) = None -> tail r = None) ->
  bracket_match tail s = Some m ->
  exists pre rest m',
    s = pre ++ 91 :: rest /\ (91 ∉ pre) /\ tail rest = Some m' /\ m = 91 :: m'.
Proof.
  intros Htail. induction s as [|c s IH]; simpl; [discriminate|].
  destruct (N.eqb_spec c 91) as [->|Hc].
  - destruct (tail s) as [m'|] eqn:E.
    + intros [= <-]. exists [], s, m'. repeat split; auto. apply not_elem_of_nil.
    + rewrite (bracket_match_none tail s Htail E). discriminate.
  - intros H. destruct (IH H) as (pre & rest & m' & -> & Hpre & Ht & ->).
    exists (c :: pre), rest, m'. repeat split; auto.
    apply not_elem_of_cons. auto.
Qed.

(** The greedy expression matches from the first opening bracket to the
    last closing bracket, and only then. *)
Lemma re_greedy_spec (s m : jsstring) :
  re_greedy s = Some m <->
  exists pre mid post,
    s = pre ++ 91 :: mid ++ 93 :: post /\ (91 ∉ pre) /\ (93 ∉ post) /\ m = 91 :: mid ++ [93].
Proof.
  split.
  - intros H. apply bracket_match_split in H; [|exact up_to_last_close_tail].
    destruct H as (pre & rest & m' & -> & Hpre & Ht & ->).
    apply up_to_last_close_split in Ht as (mid & post & -> & Hpost & ->).
    exists pre, mid, post. auto.
  - intros (pre & mid & post & -> & Hpre & Hpost & ->).
    apply re_greedy_delimited; assumption.
Qed.

(** The lazy expression matches from the first opening bracket to the first
    closing bracket after it, and only then. *)
Lemma re_lazy_spec (s m : jsstring) :
  re_lazy s = Some m <->
  exists pre mid post,
    s = pre ++ 91 :: mid ++ 93 :: post /\ (91 ∉ pre) /\ (93 ∉ mid) /\ m = 91 :: mid ++ [93].
Proof.
  split.
  - intros H. apply bracket_match_split in H; [|exact up_to_first_close_tail].
    destruct H as (pre & rest & m' & -> & Hpre & Ht & ->).
    apply up_to_first_close_split in Ht as (mid & post & -> & Hmid & ->).
    exists pre, mid, post. auto.
  - intros (pre & mid & post & -> & Hpre & Hmid & ->).
    apply re_lazy_delimited; assumption.
Qed.

(** [filter] keeps the order of the elements. *)
Lemma filter_result_sublist {A} (f : A -> result bool) (l kept : list A) :
  filter_result f l = Ok kept -> sublist kept l.
Proof.
  revert kept. induction l as [|x l IH]; simpl; intros kept.
  - intros [= <-]. constructor.
  - destruct (f x) as [b|]; [|discriminate]. simpl.
    destruct (filter_result f l) as [r'|]; [|discriminate]. simpl.
    intros [= <-]. destruct b; [apply sublist_skip | apply sublist_cons]; auto.
Qed.

(** ** The response parser *)

Lemma first_candidate_text_response_of (t : jsstring) :
  first_candidate_text (response_of t) = Ok (VStr t).
Proof. reflexivity. Qed.

(** The issues that [reviewCode] maps do not depend on the state. *)
Lemma parse_review_fst (a : value) (σ : State) :
  fst (parse_review a σ) = match parse_review_try a with Ok v => v | Throw _ => VArr [] end.
Proof. unfold parse_review. destruct (parse_review_try a); reflexivity. Qed.

Lemma parse_review_notifications (a : value) (σ : State) :
  notifications (snd (parse_review a σ)) = notifications σ
  /\ diagnosticCollection (snd (parse_review a σ)) = diagnosticCollection σ
  /\ edits (snd (parse_review a σ)) = edits σ
  /\ next_ident (snd (parse_review a σ)) = next_ident σ.
Proof. unfold parse_review. destruct (parse_review_try a); simpl; auto. Qed.

Lemma parse_quick_notifications (a : value) (σ : State) :
  notifications (snd (parse_quick a σ)) = notifications σ
  /\ diagnosticCollection (snd (parse_quick a σ)) = diagnosticCollection σ
  /\ edits (snd (parse_quick a σ)) = edits σ
  /\ next_ident (snd (parse_quick a σ)) = next_ident σ.
Proof. unfold parse_quick. destruct (parse_quick_try a); simpl; auto. Qed.

(** The issues of a full review are always an array: [issues.map] is
    defined. *)
Lemma review_issues_array (a : value) : exists l, review_issues a = VArr l.
Proof.
  unfold review_issues, parse_review_try.
  destruct (js_match re_greedy a) as [[m|]|] eqn:E; simpl; eauto.
  destruct a; try discriminate. simpl in E. injection E as E.
  apply bracket_match_head in E as [m' ->].
  destruct (JSON_parse (91 :: m')) as [v|] eqn:P; eauto.
  apply JSON_parse_bracket in P as [l ->]. eauto.
Qed.

Lemma parse_review_malformed (t : jsstring) (σ : State) :
  re_greedy t = None \/ (exists m e, re_greedy t = Some m /\ JSON_parse m = Throw e) ->
  fst (parse_review (VStr t) σ) = VArr [].
Proof.
  rewrite parse_review_fst. unfold parse_review_try. simpl.
  intros [-> | (m & e & -> & ->)]; reflexivity.
Qed.

Lemma parse_quick_malformed (t : jsstring) (σ : State) :
  re_lazy t = None \/ (exists m e, re_lazy t = Some m /\ JSON_parse m = Throw e) ->
  fst (parse_quick (VStr t) σ) = [].
Proof.
  unfold parse_quick, parse_quick_try. simpl.
  intros [-> | (m & e & -> & ->)]; reflexivity.
Qed.

(** C2.  When the expression finds no bracketed text in the reply, or
    [JSON.parse] rejects the text it found, the parser yields the empty
    issue list on both review paths; the command then reports "no issues"
    with an information message and shows no error message.  The full
    review sets the empty diagnostic list, the quick review leaves the
    collection as it was. *)
Theorem malformed_reply_gives_no_issues
    (document : TextDocument) (start : nat) (code key : jsstring)
    (response : value) (t : jsstring) (σ : State) :
  first_candidate_text response = Ok (VStr t) ->
  (re_greedy t = None \/ (exists m e, re_greedy t = Some m /\ JSON_parse m = Throw e) ->
   fst (parse_review (VStr t) σ) = VArr [] /\
   let σ' := reviewCode document start (Some key) (Ok response) σ in
   notifications σ' = notifications σ ++ [InfoNoIssues] /\
   diagnosticCollection σ' = <[uri document := []]> (diagnosticCollection σ))
  /\
  (re_lazy t = None \/ (exists m e, re_lazy t = Some m /\ JSON_parse m = Throw e) ->
   code <> [] ->
   fst (parse_quick (VStr t) σ) = [] /\
   let σ' := quickReviewSelection document code start (Some key) (Ok response) σ in
   notifications σ' = notifications σ ++ [InfoNoCritical] /\
   diagnosticCollection σ' = diagnosticCollection σ).
Proof.
  intros Ht. split.
  - intros Hbad. pose proof (parse_review_malformed t σ Hbad) as Hi.
    split; [exact Hi|]. unfold reviewCode. simpl. rewrite Ht.
    destruct (parse_review (VStr t) σ) as [issues σ1] eqn:E. simpl in Hi. subst issues.
    pose proof (parse_review_notifications (VStr t) σ) as (Hn & Hd & _ & _).
    rewrite E in Hn, Hd. simpl in *. rewrite Hn, Hd. auto.
  - intros Hbad Hcode. pose proof (parse_quick_malformed t σ Hbad) as Hi.
    split; [exact Hi|]. unfold quickReviewSelection.
    destruct code as [|c code']; [congruence|]. simpl. rewrite Ht.
    destruct (parse_quick (VStr t) σ) as [issues σ1] eqn:E. simpl in Hi. subst issues.
    pose proof (parse_quick_notifications (VStr t) σ) as (Hn & Hd & _ & _).
    rewrite E in Hn, Hd. simpl in *. rewrite Hn, Hd. auto.
Qed.

(** The reply ["No issues found, code looks good!"] has no bracket; in the
    reply with brackets in its prose, the text from the first bracket to the
    last is no JSON. *)
Lemma malformed_reply_gives_no_issues_witness :
  notifications (reviewCode sample_document 0 (Some sample_key)
                   (Ok (response_of no_issues_reply)) empty_state)
    = [InfoNoIssues]
  /\ notifications (quickReviewSelection sample_document (lit "x = y") 0 (Some sample_key)
                      (Ok (response_of no_issues_reply)) empty_state)
    = [InfoNoCritical]
  /\ notifications (reviewCode sample_document 0 (Some sample_key)
                      (Ok (response_of bracketed_prose_reply)) empty_state)
    = [InfoNoIssues].
Proof.
  destruct (malformed_reply_gives_no_issues sample_document 0 (lit "x = y") sample_key
              (response_of no_issues_reply) no_issues_reply empty_state
              (first_candidate_text_response_of no_issues_reply))
    as [Hfull Hquick].
  destruct (malformed_reply_gives_no_issues sample_document 0 (lit "x = y") sample_key
              (response_of bracketed_prose_reply) bracketed_prose_reply empty_state
              (first_candidate_text_response_of bracketed_prose_reply))
    as [Hfull' _].
  split; [|split].
  - apply Hfull. left. vm_compute. reflexivity.
  - apply Hquick; [left; vm_compute; reflexivity | discriminate].
  - apply Hfull'. right. eexists _, SyntaxError. split; vm_compute; reflexivity.
Defined.

(** C3, as stated, fails.  The first reply contains a valid JSON array,
    after prose with brackets of its own: the greedy expression of the full
    review takes everything from the first opening bracket, which does not
    parse, and the review sees no issue.  The second reply is a valid JSON
    array and nothing else, with one issue that passes the quality filter:
    the lazy expression of the quick review stops at the bracket inside the
    message, and the quick review sees no issue. *)
Lemma array_anywhere_counterexample :
  (exists issue,
     JSON_parse bracketed_prose_array = Ok (VArr [issue])
     /\ (exists pre post, bracketed_prose_reply = pre ++ bracketed_prose_array ++ post)
     /\ fst (parse_review (VStr bracketed_prose_reply) empty_state) = VArr []
     /\ fst (parse_review (VStr bracketed_prose_reply) empty_state) <> VArr [issue])
  /\
  (exists issue,
     JSON_parse index_message_reply = Ok (VArr [issue])
     /\ quality_filter issue = Ok true
     /\ fst (parse_quick (VStr index_message_reply) empty_state) = []
     /\ fst (parse_quick (VStr index_message_reply) empty_state) <> [issue]).
Proof.
  split.
  - eexists. split; [vm_compute; reflexivity|].
    split; [exists (lit "Lines [1, 2] are affected: "), []; vm_compute; reflexivity|].
    split; [vm_compute; reflexivity|]. vm_compute. discriminate.
  - eexists. split; [vm_compute; reflexivity|].
    split; [vm_compute; reflexivity|].
    split; [vm_compute; reflexivity|]. vm_compute. discriminate.
Qed.

(** ** The quality filter *)

Lemma nat_gt_10 (n : nat) :
  negb (Qle_bool (inject_Z (Z.of_nat n)) 10) = (10 <? n)%nat.
Proof.
  unfold Qle_bool. simpl. rewrite Z.mul_1_r.
  destruct (Nat.ltb_spec 10 n); destruct (Z.leb_spec (Z.of_nat n) 10); simpl; auto; lia.
Qed.

Lemma quality_filter_text (props : list (jsstring * value)) (m : jsstring) :
  own_prop props (lit "message") = Some (VStr m) ->
  quality_filter (VObj props) = Ok ((10 <? length m)%nat && negb (low_value m)).
Proof.
  intros Hm. unfold quality_filter. simpl. rewrite Hm. simpl.
  destruct m as [|c m']; [reflexivity|]. simpl truthy. cbv iota. simpl negb. cbv iota.
  change (get_prop (VStr (c :: m')) (lit "length"))
    with (Ok (VNum (num_of_nat (length (c :: m'))))).
  simpl mbind. unfold js_gt. simpl. rewrite nat_gt_10.
  unfold low_value.
  destruct (10 <? S (length m'))%nat; [|reflexivity]. simpl.
  destruct (includes _ (lit "comment")); [reflexivity|].
  destruct (includes _ (lit "naming")); [reflexivity|]. reflexivity.
Qed.

Lemma quality_filter_plain (issue : value) :
  plain_issue issue -> quality_filter issue = Ok (kept issue).
Proof.
  intros (props & -> & [Hnone | [m Hm]]).
  - unfold quality_filter, kept. simpl. rewrite Hnone. reflexivity.
  - rewrite (quality_filter_text props m Hm). unfold kept. rewrite Hm. reflexivity.
Qed.

(** C8, as stated, fails: a message of exactly 10 code units is not
    shorter than 10 and has no keyword, yet the filter discards its issue,
    and the quick review of a reply with that single issue finds nothing. *)
Lemma ten_unit_message_counterexample :
  own_prop [(lit "line", VNum (Fin 7)); (lit "message", VStr (lit "Null deref"));
            (lit "severity", VStr (lit "error"))] (lit "message")
    = Some (VStr (lit "Null deref"))
  /\ length (lit "Null deref") = 10%nat
  /\ (length (lit "Null deref") <? 10)%nat = false
  /\ low_value (lit "Null deref") = false
  /\ quality_filter ten_unit_issue = Ok false
  /\ JSON_parse ten_unit_reply = Ok (VArr [ten_unit_issue])
  /\ fst (parse_quick (VStr ten_unit_reply) empty_state) = [].
Proof. repeat split; vm_compute; reflexivity. Qed.

(** C8, amended.  On the quick-review path, for parsed issues that are
    objects whose message is a string or missing, the quality filter
    discards exactly those whose message is missing, has at most 10 code
    units, or contains in lower case one of "comment", "naming" and
    "style"; it keeps all the others, in their order. *)
Theorem quality_filter_keeps
    (l : list value) :
  Forall plain_issue l ->
  filter_result quality_filter l = Ok (List.filter kept l).
Proof.
  induction 1 as [|issue l Hissue _ IH]; [reflexivity|].
  simpl. rewrite (quality_filter_plain issue Hissue). simpl. rewrite IH. simpl.
  destruct (kept issue); reflexivity.
Qed.

Lemma plain_issue_object (props : list (jsstring * value)) (m : jsstring) :
  own_prop props (lit "message") = Some (VStr m) -> plain_issue (VObj props).
Proof. intros H. exists props. split; [reflexivity|]. right. eauto. Qed.

(** Of three issues the filter keeps the first: the second has a message of
    10 code units, the third is about naming. *)
Lemma quality_filter_keeps_witness :
  filter_result quality_filter [null_pointer_issue; ten_unit_issue; style_issue]
    = Ok [null_pointer_issue].
Proof.
  apply (quality_filter_keeps [null_pointer_issue; ten_unit_issue; style_issue]).
  repeat constructor; eapply plain_issue_object; vm_compute; reflexivity.
Defined.

(** ** The severity mapping *)

Lemma strict_eq_str_true (a : value) (s : jsstring) :
  strict_eq_str a s = true <-> a = VStr s.
Proof.
  destruct a; simpl; try (split; congruence).
  rewrite str_eqb_eq. split; congruence.
Qed.

(** Reading [severity] of an issue whose [line] could be read does not
    throw. *)
Lemma severity_access_total (issue : value) (l : value) :
  get_prop issue (lit "line") = Ok l ->
  exists s, get_prop issue (lit "severity") = Ok s.
Proof. destruct issue; simpl; try discriminate; eauto. Qed.

(** C9, as stated, fails on the quick-review path: "info" maps to Warning
    there, and the quick review of a reply with one "info" issue attaches a
    Warning, where the full review of the same reply attaches an
    Information. *)
Lemma quick_info_counterexample :
  quick_severity (VStr (lit "info")) = Warning
  /\ quick_severity (VStr (lit "info")) <> Information
  /\ severity <$> diagnostics_of (uri sample_document)
       (quickReviewSelection sample_document (lit "f(x)") 0 (Some sample_key)
          (Ok (response_of info_reply)) empty_state) = [Warning]
  /\ severity <$> diagnostics_of (uri sample_document)
       (reviewCode sample_document 0 (Some sample_key)
          (Ok (response_of info_reply)) empty_state) = [Information].
Proof.
  split; [reflexivity|]. split; [discriminate|].
  split; vm_compute; reflexivity.
Qed.

(** C9, amended.  The severity mapping is a total function of the raw
    severity on both paths.  On the full-review path "error" maps to Error,
    "info" to Information and any other value, a missing one included, to
    Warning.  On the quick-review path "error" maps to Error and any other
    value, "info" included, to Warning. *)
Theorem severity_mapping (s : value) :
  (s = VStr (lit "error") -> review_severity s = Error /\ quick_severity s = Error)
  /\ (s = VStr (lit "info") -> review_severity s = Information /\ quick_severity s = Warning)
  /\ (s <> VStr (lit "error") -> s <> VStr (lit "info") ->
      review_severity s = Warning /\ quick_severity s = Warning).
Proof.
  split; [intros ->; split; reflexivity|].
  split; [intros ->; split; reflexivity|].
  intros He Hi.
  assert (Ee : strict_eq_str s (lit "error") = false).
  { destruct (strict_eq_str s (lit "error")) eqn:E; [|reflexivity].
    apply strict_eq_str_true in E. contradiction. }
  assert (Ei : strict_eq_str s (lit "info") = false).
  { destruct (strict_eq_str s (lit "info")) eqn:E; [|reflexivity].
    apply strict_eq_str_true in E. contradiction. }
  unfold review_severity, quick_severity. rewrite Ee, Ei. split; reflexivity.
Qed.

(** The missing severity, [undefined], is a Warning on both paths. *)
Lemma severity_mapping_witness :
  review_severity VUndefined = Warning /\ quick_severity VUndefined = Warning.
Proof.
  apply (proj2 (proj2 (severity_mapping VUndefined))); discriminate.
Defined.

(** ** The coordinate mapper *)

Lemma clamp_in_range (x y : Q) :
  (0 <= y)%Q ->
  exists z, Math_max (Fin 0) (Math_min (Fin x) (Fin y)) = Fin z
            /\ (0 <= z)%Q /\ (z <= y)%Q
            /\ (z == Qmax 0 (Qmin x y))%Q.
Proof.
  intros Hy. unfold Math_min. simpl.
  destruct (Qle_bool x y) eqn:Exy; simpl.
  - apply Qle_bool_iff in Exy. unfold Math_max. simpl.
    destruct (Qle_bool x 0) eqn:Ex0; simpl.
    + apply Qle_bool_iff in Ex0. exists 0%Q. repeat split; auto with qarith.
      rewrite (Q.min_l x y) by assumption. rewrite Q.max_l by assumption. reflexivity.
    + assert (H0 : (0 < x)%Q).
      { apply Qnot_le_lt. intros H. apply Qle_bool_iff in H. congruence. }
      exists x. repeat split; auto with qarith.
      rewrite (Q.min_l x y) by assumption.
      rewrite Q.max_r by auto with qarith. reflexivity.
  - assert (Hyx : (y < x)%Q).
    { apply Qnot_le_lt. intros H. apply Qle_bool_iff in H. congruence. }
    unfold Math_max. simpl.
    destruct (Qle_bool y 0) eqn:Ey0; simpl.
    + apply Qle_bool_iff in Ey0. exists 0%Q. repeat split; auto with qarith.
      rewrite (Q.min_r x y) by auto with qarith.
      rewrite Q.max_l by assumption. reflexivity.
    + exists y. repeat split; auto with qarith.
      rewrite (Q.min_r x y) by auto with qarith.
      rewrite Q.max_r by assumption. reflexivity.
Qed.

Lemma last_line (document : TextDocument) :
  (0 < lineCount document)%nat ->
  exists y, num_sub (num_of_nat (lineCount document)) (Fin 1) = Fin y
            /\ (0 <= y)%Q /\ (y < inject_Z (Z.of_nat (lineCount document)))%Q.
Proof.
  intros Hlc. unfold num_sub, num_of_nat. simpl.
  eexists. split; [reflexivity|].
  rewrite !Qred_correct.
  set (n := Z.of_nat (lineCount document)).
  assert (Hn : (1 <= n)%Z) by (unfold n; lia).
  unfold Qle, Qlt, Qplus, Qopp, inject_Z. simpl. lia.
Qed.

(** Where the mapper does clamp: a line that is missing, [null], 0, or any
    other falsy value counts as 1, and a line that is a number, however far
    from the excerpt, is brought into the document. *)
Lemma absolute_line_in_document
    (issue l : value) (start : nat) (document : TextDocument) :
  (0 < lineCount document)%nat ->
  get_prop issue (lit "line") = Ok l ->
  truthy l = false \/ (exists q, l = VNum (Fin q)) \/ (exists b, l = VNum (Inf b)) ->
  exists n, absolute_line issue start document = Ok n /\ in_document n document.
Proof.
  intros Hlc Hl Hcase. unfold absolute_line. rewrite Hl.
  destruct (last_line document Hlc) as (y & Hy & Hy0 & Hylt). rewrite Hy. simpl.
  assert (Hfin : forall x, exists n,
             Ok (Math_max (Fin 0) (Math_min (Fin x) (Fin y))) = Ok n /\ in_document n document).
  { intros x. destruct (clamp_in_range x y Hy0) as (z & -> & Hz0 & Hzy & _).
    eexists. split; [reflexivity|]. exists z. repeat split; auto.
    eapply Qle_lt_trans; eassumption. }
  destruct Hcase as [Hfalsy | [[q ->] | [b ->]]].
  - unfold js_or. rewrite Hfalsy. simpl. apply Hfin.
  - unfold js_or. destruct (truthy (VNum (Fin q))); simpl; apply Hfin.
  - unfold js_or. simpl. destruct b; simpl.
    + eexists. split; [reflexivity|]. exists 0%Q. repeat split; auto with qarith.
      eapply Qle_lt_trans; eassumption.
    + unfold Math_min. simpl. unfold Math_max. simpl.
      destruct (Qle_bool y 0) eqn:E; simpl.
      * eexists. split; [reflexivity|]. exists 0%Q. repeat split; auto with qarith.
        eapply Qle_lt_trans; eassumption.
      * eexists. split; [reflexivity|]. exists y. repeat split; auto.
Qed.

(** For a line that is a number, or falsy and then counted as 1, the
    mapper computes the clamp of the specification. *)
Lemma absolute_line_clamp
    (issue l : value) (x : Q) (start : nat) (document : TextDocument) :
  (0 < lineCount document)%nat ->
  get_prop issue (lit "line") = Ok l ->
  (truthy l = false /\ x = 1%Q) \/ (truthy l = true /\ l = VNum (Fin x)) ->
  exists z, absolute_line issue start document = Ok (Fin z)
            /\ (z == Qmax 0 (Qmin (x - 1 + inject_Z (Z.of_nat start))
                                  (inject_Z (Z.of_nat (lineCount document)) - 1)))%Q.
Proof.
  intros Hlc Hl Hcase. unfold absolute_line. rewrite Hl.
  assert (Hlast : (0 <= inject_Z (Z.of_nat (lineCount document)) - 1)%Q).
  { unfold Qle, Qminus, Qplus, Qopp, inject_Z. simpl. lia. }
  assert (Hx : js_sub (js_or l (VNum (Fin 1))) (Fin 1) = Ok (Fin (Qred (x + Qred (- (1)))))).
  { unfold js_or. destruct Hcase as [[-> ->] | [-> ->]]; reflexivity. }
  simpl. rewrite Hx. simpl.
  destruct (clamp_in_range
              (Qred (Qred (x + Qred (- (1))) + inject_Z (Z.of_nat start)))
              (Qred (inject_Z (Z.of_nat (lineCount document)) + Qred (- (1)))))
    as (z & Hz & _ & _ & Heq).
  { rewrite !Qred_correct. exact Hlast. }
  exists z. split; [rewrite <- Hz; reflexivity|].
  rewrite Heq. rewrite !Qred_correct. reflexivity.
Qed.

(** Where it does not: a line that is truthy and converts to NaN, such as a
    text without a number in it or an object, stays NaN through
    [Math.min] and [Math.max]. *)
Lemma absolute_line_nan
    (issue l : value) (start : nat) (document : TextDocument) :
  get_prop issue (lit "line") = Ok l ->
  truthy l = true ->
  ToNumber l = Ok NaN ->
  absolute_line issue start document = Ok NaN.
Proof.
  intros Hl Ht Hn. unfold absolute_line. rewrite Hl. simpl.
  unfold js_or. rewrite Ht. unfold js_sub. rewrite Hn. reflexivity.
Qed.

(** C1 holds for the lines above and fails for a line that is a non-empty
    text without a number in it: [||] keeps the text, the subtraction turns
    it into NaN, and neither [Math.min] nor [Math.max] brings NaN back.
    The absolute line is no line of the document; the editor refuses it and
    the whole review, full or quick, fails with an error message, the
    diagnostics of the document staying what they were. *)
Theorem text_line_is_not_clamped :
  JSON_parse text_line_reply = Ok (VArr [text_line_issue])
  /\ absolute_line text_line_issue 0 sample_document = Ok NaN
  /\ ~ in_document NaN sample_document
  /\ lineAt sample_document NaN = Throw IllegalLine
  /\ notifications (reviewCode sample_document 0 (Some sample_key)
                      (Ok (response_of text_line_reply)) empty_state)
     = [ErrorReviewFailed IllegalLine]
  /\ diagnosticCollection (reviewCode sample_document 0 (Some sample_key)
                             (Ok (response_of text_line_reply)) empty_state)
     = diagnosticCollection empty_state
  /\ notifications (quickReviewSelection sample_document (lit "f(x)") 0 (Some sample_key)
                      (Ok (response_of text_line_reply)) empty_state)
     = [ErrorReviewFailed IllegalLine].
Proof.
  split; [vm_compute; reflexivity|].
  split; [apply (absolute_line_nan _ (VStr (lit "abc"))); reflexivity|].
  split; [intros (q & Hq & _); discriminate|].
  split; [reflexivity|].
  split; [vm_compute; reflexivity|].
  split; vm_compute; reflexivity.
Qed.

(** ** The write operations on the diagnostic collection *)

Lemma parse_review_eq (a : value) (σ : State) :
  exists σ1, parse_review a σ = (review_issues a, σ1)
    /\ notifications σ1 = notifications σ
    /\ diagnosticCollection σ1 = diagnosticCollection σ
    /\ edits σ1 = edits σ
    /\ next_ident σ1 = next_ident σ.
Proof.
  unfold parse_review, review_issues.
  destruct (parse_review_try a); eexists; (split; [reflexivity|]); simpl; auto.
Qed.

Lemma parse_quick_eq (a : value) (σ : State) :
  exists σ1, parse_quick a σ = (quick_issues a, σ1)
    /\ notifications σ1 = notifications σ
    /\ diagnosticCollection σ1 = diagnosticCollection σ
    /\ edits σ1 = edits σ
    /\ next_ident σ1 = next_ident σ.
Proof.
  unfold parse_quick, quick_issues.
  destruct (parse_quick_try a); eexists; (split; [reflexivity|]); simpl; auto.
Qed.

(** One diagnostic is allocated per element. *)
Lemma allocate_length (n : nat) (l : list (Range * value * DiagnosticSeverity)) :
  length (allocate n l) = length l.
Proof. revert n. induction l as [|[[r m] s] l IH]; intros n; simpl; auto. Qed.

(** What the allocated diagnostics say does not depend on where they are
    allocated. *)
Lemma allocate_content (n k : nat) (l : list (Range * value * DiagnosticSeverity)) :
  content <$> allocate n l = content <$> allocate k l.
Proof.
  revert n k. induction l as [|[[r m] s] l IH]; intros n k; simpl; [reflexivity|].
  f_equal. apply IH.
Qed.

(** They are distinct objects, allocated from [n] on. *)
Lemma allocate_ident (n : nat) (l : list (Range * value * DiagnosticSeverity)) :
  ident <$> allocate n l = seq n (length l).
Proof.
  revert n. induction l as [|[[r m] s] l IH]; intros n; simpl; [reflexivity|].
  f_equal. apply IH.
Qed.

(** [map] constructs one element per element, in their order. *)
Lemma map_result_Forall2 {A B} (f : A -> result B) (l : list A) (l' : list B) :
  map_result f l = Ok l' -> Forall2 (fun x y => f x = Ok y) l l'.
Proof.
  revert l'. induction l as [|x l IH]; simpl; intros l'.
  - intros [= <-]. constructor.
  - destruct (f x) as [y|] eqn:E; [|discriminate]. simpl.
    destruct (map_result f l) as [r|]; [|discriminate]. simpl.
    intros [= <-]. constructor; auto.
Qed.

Lemma map_result_length {A B} (f : A -> result B) (l : list A) (l' : list B) :
  map_result f l = Ok l' -> length l' = length l.
Proof.
  revert l'. induction l as [|x l IH]; simpl; intros l'.
  - intros [= <-]. reflexivity.
  - destruct (f x); [|discriminate]. simpl.
    destruct (map_result f l); [|discriminate]. simpl.
    intros [= <-]. simpl. f_equal. auto.
Qed.

(** The state after a full review that constructs the diagnostics [l]. *)
Lemma reviewCode_completes
    (document : TextDocument) (start : nat) (key : jsstring) (response : value)
    (σ : State) (l : list (Range * value * DiagnosticSeverity)) :
  review_output document start response = Ok l ->
  let σ' := reviewCode document start (Some key) (Ok response) σ in
  diagnosticCollection σ'
    = <[uri document := allocate (next_ident σ) l]> (diagnosticCollection σ)
  /\ next_ident σ' = (next_ident σ + length l)%nat
  /\ edits σ' = edits σ
  /\ notifications σ'
     = notifications σ ++ [if Nat.eqb (length l) 0 then InfoNoIssues else InfoFound (length l)].
Proof.
  unfold review_output, reviewCode. simpl.
  destruct (first_candidate_text response) as [a|]; [|discriminate]. simpl.
  intros Hmap.
  destruct (parse_review_eq a σ) as (σ1 & -> & Hn & Hd & He & Hi).
  rewrite Hmap. rewrite allocate_length.
  destruct (Nat.eqb (length l) 0); simpl; rewrite Hn, Hd, He, Hi; auto.
Qed.

(** C4.  A full review that constructs diagnostics for its reply sets them
    as the diagnostics of the document, whatever was there before, and
    touches no other document.  A second full review with the same reply
    leaves one diagnostic per issue, with the same content as after the
    first: nothing of the first pass remains beside them. *)
Theorem full_review_replaces
    (document : TextDocument) (start : nat) (key : jsstring) (response : value)
    (σ : State) (l : list (Range * value * DiagnosticSeverity)) :
  review_output document start response = Ok l ->
  let σ1 := reviewCode document start (Some key) (Ok response) σ in
  let σ2 := reviewCode document start (Some key) (Ok response) σ1 in
  diagnosticCollection σ1 !! uri document = Some (allocate (next_ident σ) l)
  /\ (forall u, u <> uri document ->
        diagnosticCollection σ1 !! u = diagnosticCollection σ !! u)
  /\ diagnosticCollection σ2 !! uri document = Some (allocate (next_ident σ1) l)
  /\ content <$> diagnostics_of (uri document) σ2
     = content <$> diagnostics_of (uri document) σ1
  /\ length (diagnostics_of (uri document) σ2) = length l.
Proof.
  intros Hout σ1 σ2.
  destruct (reviewCode_completes document start key response σ l Hout) as (Hd1 & _).
  destruct (reviewCode_completes document start key response σ1 l Hout) as (Hd2 & _).
  fold σ1 in Hd1, Hd2. fold σ2 in Hd2.
  assert (H1 : diagnosticCollection σ1 !! uri document = Some (allocate (next_ident σ) l))
    by (rewrite Hd1; apply lookup_insert_eq).
  assert (H2 : diagnosticCollection σ2 !! uri document = Some (allocate (next_ident σ1) l))
    by (rewrite Hd2; apply lookup_insert_eq).
  split; [exact H1|].
  split; [intros u Hu; rewrite Hd1; apply lookup_insert_ne; congruence|].
  split; [exact H2|].
  unfold diagnostics_of, collection_get. rewrite H1, H2. simpl.
  split; [apply allocate_content | apply allocate_length].
Qed.

(** Two full reviews of a reply with two issues, over a document that had a
    diagnostic of an earlier review. *)
Lemma full_review_replaces_witness :
  length (diagnostics_of (uri sample_document) reviewed_state) = 1%nat
  /\ length (diagnostics_of (uri sample_document)
               (reviewCode sample_document 0 (Some sample_key)
                  (Ok (response_of two_issue_reply))
                  (reviewCode sample_document 0 (Some sample_key)
                     (Ok (response_of two_issue_reply)) reviewed_state))) = 2%nat
  /\ content <$> diagnostics_of (uri sample_document)
                   (reviewCode sample_document 0 (Some sample_key)
                      (Ok (response_of two_issue_reply))
                      (reviewCode sample_document 0 (Some sample_key)
                         (Ok (response_of two_issue_reply)) reviewed_state))
     = content <$> diagnostics_of (uri sample_document)
                     (reviewCode sample_document 0 (Some sample_key)
                        (Ok (response_of two_issue_reply)) reviewed_state).
Proof.
  assert (Hout : review_output sample_document 0 (response_of two_issue_reply)
                 = Ok [({| range_line := 2; range_start := 0; range_end := 27 |},
                        VStr (lit "Null pointer dereference risk"), Error);
                       ({| range_line := 7; range_start := 0; range_end := 27 |},
                        VStr (lit "Unbounded recursion can overflow the stack"), Warning)])
    by (vm_compute; reflexivity).
  destruct (full_review_replaces sample_document 0 sample_key
              (response_of two_issue_reply) reviewed_state _ Hout) as (_ & _ & _ & Hc & Hlen).
  split; [vm_compute; reflexivity|].
  split; [exact Hlen | exact Hc].
Defined.

(** The state after a quick review that constructs the diagnostics [l];
    [l] is empty when the filter leaves no issue, and nothing is written. *)
Lemma quickReviewSelection_completes
    (document : TextDocument) (code : jsstring) (start : nat) (key : jsstring)
    (response : value) (σ : State) (l : list (Range * value * DiagnosticSeverity)) :
  code <> [] ->
  quick_output document start response = Ok l ->
  let σ' := quickReviewSelection document code start (Some key) (Ok response) σ in
  diagnostics_of (uri document) σ'
    = diagnostics_of (uri document) σ ++ allocate (next_ident σ) l
  /\ (forall u, u <> uri document ->
        diagnosticCollection σ' !! u = diagnosticCollection σ !! u)
  /\ next_ident σ' = (next_ident σ + length l)%nat
  /\ edits σ' = edits σ.
Proof.
  intros Hcode. unfold quick_output, quickReviewSelection.
  destruct code as [|c code']; [congruence|]. simpl.
  destruct (first_candidate_text response) as [a|]; [|discriminate]. simpl.
  intros Hmap.
  destruct (parse_quick_eq a σ) as (σ1 & -> & Hn & Hd & He & Hi).
  destruct (quick_issues a) as [|issue issues] eqn:Hissues.
  - simpl in Hmap. injection Hmap as <-. simpl.
    unfold diagnostics_of, collection_get. simpl. rewrite Hd, He, Hi, app_nil_r.
    repeat split; auto.
  - cbn [length Nat.eqb]. rewrite Hmap. simpl.
    unfold diagnostics_of, collection_get. simpl. rewrite Hd, He, !Hi.
    rewrite lookup_insert_eq. simpl.
    repeat split; auto. intros u Hu. apply lookup_insert_ne. congruence.
Qed.

(** C5.  A quick review appends the diagnostics it constructs to those the
    document has, which stay in front, unchanged; it removes no duplicate.
    Run twice on the same reply and the same document, it appends two
    batches with the same content, one diagnostic per issue each time, and
    touches no other document. *)
Theorem quick_review_appends
    (document : TextDocument) (code : jsstring) (start : nat) (key : jsstring)
    (response : value) (σ : State) (l : list (Range * value * DiagnosticSeverity)) :
  code <> [] ->
  quick_output document start response = Ok l ->
  let σ1 := quickReviewSelection document code start (Some key) (Ok response) σ in
  let σ2 := quickReviewSelection document code start (Some key) (Ok response) σ1 in
  diagnostics_of (uri document) σ1
    = diagnostics_of (uri document) σ ++ allocate (next_ident σ) l
  /\ diagnostics_of (uri document) σ2
     = diagnostics_of (uri document) σ
         ++ allocate (next_ident σ) l ++ allocate (next_ident σ1) l
  /\ content <$> allocate (next_ident σ1) l = content <$> allocate (next_ident σ) l
  /\ length (diagnostics_of (uri document) σ2)
     = (length (diagnostics_of (uri document) σ) + 2 * length l)%nat
  /\ (forall u, u <> uri document ->
        diagnosticCollection σ2 !! u = diagnosticCollection σ !! u).
Proof.
  intros Hcode Hout σ1 σ2.
  destruct (quickReviewSelection_completes document code start key response σ l Hcode Hout)
    as (H1 & Ho1 & _).
  destruct (quickReviewSelection_completes document code start key response σ1 l Hcode Hout)
    as (H2 & Ho2 & _).
  fold σ1 in H1, Ho1, H2, Ho2. fold σ2 in H2, Ho2.
  split; [exact H1|].
  split; [rewrite H2, H1, <- app_assoc; reflexivity|].
  split; [apply allocate_content|].
  split.
  - rewrite H2, H1, !length_app, !allocate_length. lia.
  - intros u Hu. rewrite Ho2, Ho1 by assumption. reflexivity.
Qed.

(** Two quick reviews of a reply with two issues, over a document that had
    one diagnostic: five diagnostics in the end. *)
Lemma quick_review_appends_witness :
  length (diagnostics_of (uri sample_document)
            (quickReviewSelection sample_document (lit "f(x)") 0 (Some sample_key)
               (Ok (response_of two_issue_reply))
               (quickReviewSelection sample_document (lit "f(x)") 0 (Some sample_key)
                  (Ok (response_of two_issue_reply)) reviewed_state)))
  = (length (diagnostics_of (uri sample_document) reviewed_state) + 2 * 2)%nat.
Proof.
  assert (Hout : quick_output sample_document 0 (response_of two_issue_reply)
                 = Ok [({| range_line := 2; range_start := 0; range_end := 27 |},
                        VStr (lit "Null pointer dereference risk"), Error);
                       ({| range_line := 7; range_start := 0; range_end := 27 |},
                        VStr (lit "Unbounded recursion can overflow the stack"), Warning)])
    by (vm_compute; reflexivity).
  assert (Hcode : lit "f(x)" <> []) by discriminate.
  destruct (quick_review_appends sample_document (lit "f(x)") 0 sample_key
              (response_of two_issue_reply) reviewed_state _ Hcode Hout)
    as (_ & _ & _ & Hlen & _).
  exact Hlen.
Defined.

(** ** The identity of diagnostics *)

Section Identity.

Context (document : TextDocument) (apiKey : option jsstring) (response : result value).

Lemma distinct_objects_allocate (n : nat) (l : list (Range * value * DiagnosticSeverity)) :
  NoDup (ident <$> allocate n l)
  /\ Forall (fun d => (n <= ident d < n + length l)%nat) (allocate n l).
Proof.
  split.
  - rewrite allocate_ident. apply NoDup_seq.
  - revert n. induction l as [|[[r m] s] l IH]; intros n; simpl; constructor.
    + simpl. lia.
    + eapply Forall_impl; [apply IH|]. simpl. intros d Hd. lia.
Qed.

Lemma distinct_objects_weaken (σ σ' : State) :
  diagnosticCollection σ' = diagnosticCollection σ ->
  (next_ident σ <= next_ident σ')%nat ->
  distinct_objects σ -> distinct_objects σ'.
Proof.
  intros Hd Hn Hinv u ds Hu. rewrite Hd in Hu.
  destruct (Hinv u ds Hu) as [Hnd Hlt]. split; [exact Hnd|].
  eapply Forall_impl; [exact Hlt|]. simpl. intros d Hdlt. lia.
Qed.

Lemma distinct_objects_set (u : string) (ds : list Diagnostic) (k : nat) (σ : State) :
  distinct_objects σ ->
  NoDup (ident <$> ds) ->
  Forall (fun d => (ident d < next_ident σ + k)%nat) ds ->
  distinct_objects (collection_set u ds (allocated k σ)).
Proof.
  intros Hinv Hnd Hlt v ds' Hv. simpl in Hv.
  destruct (decide (u = v)) as [->|Hne].
  - rewrite lookup_insert_eq in Hv. injection Hv as <-. split; assumption.
  - rewrite lookup_insert_ne in Hv by assumption.
    destruct (Hinv v ds' Hv) as [Hnd' Hlt']. split; [exact Hnd'|].
    eapply Forall_impl; [exact Hlt'|]. simpl. intros d Hd. lia.
Qed.

(** A full review keeps the diagnostics distinct. *)
Lemma reviewCode_distinct (start : nat) (σ : State) :
  distinct_objects σ -> distinct_objects (reviewCode document start apiKey response σ).
Proof.
  intros Hinv. unfold reviewCode. destruct apiKey as [k|]; [|exact Hinv].
  destruct (response ≫= _) as [a|e]; [|exact Hinv].
  destruct (parse_review_eq a σ) as (σ1 & -> & _ & Hd & _ & Hi).
  assert (Hinv1 : distinct_objects σ1)
    by (apply (distinct_objects_weaken σ); [assumption|lia|assumption]).
  destruct (js_map _ (review_issues a)) as [l|e]; [|exact Hinv1].
  destruct (distinct_objects_allocate (next_ident σ1) l) as [Hnd Hlt].
  assert (Hset : distinct_objects
                   (collection_set (uri document) (allocate (next_ident σ1) l)
                      (allocated (length l) σ1))).
  { apply distinct_objects_set; [assumption|assumption|].
    eapply Forall_impl; [exact Hlt|]. simpl. intros d Hdlt. lia. }
  destruct (Nat.eqb _ 0); exact Hset.
Qed.

(** A quick review keeps them distinct: the new objects differ from the
    ones the document has. *)
Lemma quickReviewSelection_distinct (code : jsstring) (start : nat) (σ : State) :
  distinct_objects σ ->
  distinct_objects (quickReviewSelection document code start apiKey response σ).
Proof.
  intros Hinv. unfold quickReviewSelection. destruct code as [|c code']; [exact Hinv|].
  destruct apiKey as [k|]; [|exact Hinv].
  destruct (response ≫= _) as [a|e]; [|exact Hinv].
  destruct (parse_quick_eq a σ) as (σ1 & -> & _ & Hd & _ & Hi).
  assert (Hinv1 : distinct_objects σ1)
    by (apply (distinct_objects_weaken σ); [assumption|lia|assumption]).
  destruct (Nat.eqb _ 0); [exact Hinv1|].
  destruct (map_result _ (quick_issues a)) as [l|e]; [|exact Hinv1].
  destruct (distinct_objects_allocate (next_ident σ1) l) as [Hnd Hlt].
  apply distinct_objects_set; [assumption| |].
  - rewrite fmap_app. apply NoDup_app. unfold collection_get.
    destruct (diagnosticCollection σ1 !! uri document) as [ds|] eqn:E; simpl.
    + destruct (Hinv1 _ _ E) as [Hnd' Hlt']. split; [exact Hnd'|]. split; [|exact Hnd].
      intros i Hi1 Hi2.
      apply list_elem_of_fmap in Hi1 as (d1 & -> & Hd1).
      apply list_elem_of_fmap in Hi2 as (d2 & Heq & Hd2).
      rewrite Forall_forall in Hlt'. rewrite Forall_forall in Hlt.
      specialize (Hlt' _ Hd1). specialize (Hlt _ Hd2). simpl in *. lia.
    + split; [constructor|]. split; [|exact Hnd]. intros i Hi1. inversion Hi1.
  - apply Forall_app. split.
    + unfold collection_get.
      destruct (diagnosticCollection σ1 !! uri document) as [ds|] eqn:E; simpl;
        [|constructor].
      destruct (Hinv1 _ _ E) as [_ Hlt']. eapply Forall_impl; [exact Hlt'|].
      simpl. intros d Hdlt. lia.
    + eapply Forall_impl; [exact Hlt|]. simpl. intros d Hdlt. lia.
Qed.

(** A fix keeps them distinct. *)
Lemma applyAIFix_distinct (diagnostic : Diagnostic) (editor : option string) (σ : State) :
  distinct_objects σ ->
  distinct_objects (applyAIFix document diagnostic apiKey response editor σ).
Proof.
  intros Hinv. unfold applyAIFix. destruct apiKey as [k|]; [|exact Hinv].
  destruct (lineAt _ _ ≫= _) as [fixedCode|e]; [|exact Hinv].
  destruct editor as [d|]; [|exact Hinv].
  destruct (String.eqb d (uri document)); [|exact Hinv].
  intros u ds Hu. simpl in Hu. unfold collection_get in Hu. simpl in Hu.
  destruct (decide (uri document = u)) as [<-|Hne].
  - rewrite lookup_insert_eq in Hu. injection Hu as <-.
    destruct (diagnosticCollection σ !! uri document) as [ds0|] eqn:E; simpl.
    + destruct (Hinv _ _ E) as [Hnd Hlt]. split.
      * apply (sublist_NoDup _ (ident <$> ds0)); [exact Hnd|]. apply fmap_sublist.
        clear. induction ds0 as [|x ds0 IH]; simpl; [constructor|].
        destruct (negb _); [apply sublist_skip | apply sublist_cons]; exact IH.
      * rewrite Forall_forall in Hlt. rewrite Forall_forall. intros x Hx.
        apply list_elem_of_In, filter_In in Hx as [Hx _].
        apply Hlt, list_elem_of_In. exact Hx.
    + split; constructor.
  - rewrite lookup_insert_ne in Hu by assumption. exact (Hinv u ds Hu).
Qed.

End Identity.

(** ** Applying a fix *)

(** The state after a fix whose text is obtained, with the document in the
    active editor. *)
Lemma applyAIFix_applied
    (document : TextDocument) (diagnostic : Diagnostic) (key : jsstring)
    (response : value) (line : jsstring * Range) (fixedCode : jsstring) (σ : State) :
  lineAt document (num_of_nat (range_line (range diagnostic))) = Ok line ->
  fixed_text response = Ok fixedCode ->
  let σ' := applyAIFix document diagnostic (Some key) (Ok response)
              (Some (uri document)) σ in
  diagnostics_of (uri document) σ'
    = List.filter (fun d => negb (Nat.eqb (ident d) (ident diagnostic)))
        (diagnostics_of (uri document) σ)
  /\ (forall u, u <> uri document ->
        diagnosticCollection σ' !! u = diagnosticCollection σ !! u)
  /\ edits σ' = edits σ ++ [(uri document, range diagnostic, clean_fix fixedCode)]
  /\ notifications σ' = notifications σ ++ [InfoFixApplied].
Proof.
  intros Hline Hfix. unfold applyAIFix. rewrite Hline. simpl. rewrite Hfix. simpl.
  rewrite String.eqb_refl.
  split.
  { unfold diagnostics_of, collection_get. simpl. rewrite lookup_insert_eq. simpl.
    destruct (diagnosticCollection σ !! uri document); reflexivity. }
  split; [|split; reflexivity].
  intros u Hu. simpl. apply lookup_insert_ne. congruence.
Qed.

(** Among distinct objects, the filter of [applyAIFix] removes one
    diagnostic, the one being fixed, when the document has it. *)
Lemma filter_removes_one (diagnostic : Diagnostic) (ds : list Diagnostic) :
  NoDup (ident <$> ds) -> diagnostic ∈ ds ->
  S (length (List.filter (fun d => negb (Nat.eqb (ident d) (ident diagnostic))) ds))
  = length ds.
Proof.
  induction ds as [|x ds IH]; intros Hnd Hin; [inversion Hin|].
  simpl in Hnd. apply NoDup_cons in Hnd as [Hx Hnd]. simpl.
  destruct (Nat.eqb_spec (ident x) (ident diagnostic)) as [Heq|Hne]; simpl.
  - f_equal. clear IH Hin.
    assert (Hall : forall d, d ∈ ds -> ident d <> ident diagnostic).
    { intros d Hd Hid. apply Hx. rewrite Heq, <- Hid. apply list_elem_of_fmap. eauto. }
    clear Hx Hnd. induction ds as [|y ds IH]; [reflexivity|]. simpl.
    destruct (Nat.eqb_spec (ident y) (ident diagnostic)) as [Hy|Hy]; simpl.
    + exfalso. apply (Hall y); [left|exact Hy].
    + f_equal. apply IH. intros d Hd. apply Hall. right. exact Hd.
  - f_equal. apply IH; [exact Hnd|].
    apply elem_of_cons in Hin as [->|Hin]; [congruence|exact Hin].
Qed.

(** With distinct diagnostics, a fix of one that the document has leaves
    one diagnostic fewer. *)
Lemma applyAIFix_removes_one
    (document : TextDocument) (diagnostic : Diagnostic) (key : jsstring)
    (response : value) (line : jsstring * Range) (fixedCode : jsstring) (σ : State) :
  lineAt document (num_of_nat (range_line (range diagnostic))) = Ok line ->
  fixed_text response = Ok fixedCode ->
  distinct_objects σ ->
  diagnostic ∈ diagnostics_of (uri document) σ ->
  S (length (diagnostics_of (uri document)
               (applyAIFix document diagnostic (Some key) (Ok response)
                  (Some (uri document)) σ)))
  = length (diagnostics_of (uri document) σ).
Proof.
  intros Hline Hfix Hinv Hin.
  destruct (applyAIFix_applied document diagnostic key response line fixedCode σ Hline Hfix)
    as (-> & _).
  apply filter_removes_one; [|exact Hin].
  unfold diagnostics_of, collection_get in *.
  destruct (diagnosticCollection σ !! uri document) as [ds|] eqn:E; simpl in *.
  - apply (Hinv _ _ E).
  - inversion Hin.
Qed.

(** What lines 387 to 398 do, were a text read from the reply and the
    document in the active editor: [applyAIFix] sends the edit and then
    removes from the diagnostics of the document the objects that are the
    diagnostic being fixed, and only those; a diagnostic stays exactly when
    it is another object, whatever it says, and the diagnostics of other
    documents are not touched.  The value that [editor.edit] resolves to is
    not read.  When the active editor shows another document, or there is
    no active editor, the state is left as it was. *)
Lemma fix_removes_that_diagnostic
    (document : TextDocument) (diagnostic : Diagnostic) (key : jsstring)
    (response : value) (line : jsstring * Range) (fixedCode : jsstring)
    (editor : option string) (σ : State) :
  lineAt document (num_of_nat (range_line (range diagnostic))) = Ok line ->
  fixed_text response = Ok fixedCode ->
  let σ' := applyAIFix document diagnostic (Some key) (Ok response) editor σ in
  (editor = Some (uri document) ->
   diagnostics_of (uri document) σ'
     = List.filter (fun d => negb (Nat.eqb (ident d) (ident diagnostic)))
         (diagnostics_of (uri document) σ)
   /\ (forall d, d ∈ diagnostics_of (uri document) σ' <->
                 d ∈ diagnostics_of (uri document) σ /\ ident d <> ident diagnostic)
   /\ (forall u, u <> uri document ->
         diagnosticCollection σ' !! u = diagnosticCollection σ !! u)
   /\ edits σ' = edits σ ++ [(uri document, range diagnostic, clean_fix fixedCode)])
  /\ (editor <> Some (uri document) -> σ' = σ).
Proof.
  intros Hline Hfix. split.
  - intros ->.
    destruct (applyAIFix_applied document diagnostic key response line fixedCode σ Hline Hfix)
      as (Hf & Hother & He & _).
    split; [exact Hf|].
    split; [|split; assumption].
    intros d. rewrite Hf. rewrite list_elem_of_In, filter_In, <- list_elem_of_In.
    rewrite negb_true_iff, Nat.eqb_neq. reflexivity.
  - intros Hne. unfold applyAIFix. rewrite Hline. simpl. rewrite Hfix. simpl.
    destruct editor as [d|]; [|reflexivity].
    destruct (String.eqb_spec d (uri document)); [congruence|reflexivity].
Qed.

(** With a reply whose [candidates] is an object, the fix of the second of
    five diagnostics leaves the other four, the fourth among them, which
    says what the second said. *)
Lemma fix_removes_that_diagnostic_witness :
  ident <$> diagnostics_of (uri sample_document) twice_reviewed_state = [0; 1; 2; 3; 4]%nat
  /\ content <$> (diagnostics_of (uri sample_document) twice_reviewed_state !! 3%nat)
     = Some (content fixed_diagnostic)
  /\ ident <$> diagnostics_of (uri sample_document)
       (applyAIFix sample_document fixed_diagnostic (Some sample_key)
          (Ok direct_fix_response) (Some (uri sample_document)) twice_reviewed_state)
     = [0; 2; 3; 4]%nat
  /\ applyAIFix sample_document fixed_diagnostic (Some sample_key)
       (Ok direct_fix_response) (Some "file:///src/other.js"%string) twice_reviewed_state
     = twice_reviewed_state.
Proof.
  split; [vm_compute; reflexivity|].
  split; [vm_compute; reflexivity|].
  assert (Hline : lineAt sample_document (num_of_nat (range_line (range fixed_diagnostic)))
                  = Ok (lit "const total = items.length;",
                        {| range_line := 2; range_start := 0; range_end := 27 |}))
    by (vm_compute; reflexivity).
  assert (Hfix : fixed_text direct_fix_response
                 = Ok (lit "const total = items ? items.length : 0;"))
    by (vm_compute; reflexivity).
  split.
  - destruct (fix_removes_that_diagnostic sample_document fixed_diagnostic sample_key
                direct_fix_response _ _ (Some (uri sample_document)) twice_reviewed_state
                Hline Hfix) as [Hactive _].
    destruct (Hactive eq_refl) as (-> & _). vm_compute. reflexivity.
  - destruct (fix_removes_that_diagnostic sample_document fixed_diagnostic sample_key
                direct_fix_response _ _ (Some "file:///src/other.js"%string)
                twice_reviewed_state Hline Hfix) as [_ Hother].
    apply Hother. discriminate.
Defined.

(** The documented reply carries its text where the other requests of the
    file read it, and not where [applyAIFix] reads it. *)
Lemma fixed_text_response_of (t : jsstring) :
  fixed_text (response_of t) = Throw TypeError.
Proof. reflexivity. Qed.

(** C6 fails on the code.  [applyAIFix] reads the text of the reply at
    [response.data.candidates.content.parts.text], without the indices
    with which the four other requests of the file read it: for every reply
    of the documented shape, whatever text it carries, the read throws, and
    the fix of a diagnostic removes nothing.  The state after two quick
    reviews has five diagnostics for the sample document; the fix of the
    second of them, with the key set, the document in the active editor and
    a reply that carries the fixed line, shows "Fix failed", sends no edit
    and leaves all five diagnostics, the fixed one among them. *)
Theorem documented_reply_fixes_nothing :
  (forall (document : TextDocument) (diagnostic : Diagnostic) (key t : jsstring)
          (editor : option string) (σ : State),
     first_candidate_text (response_of t) = Ok (VStr t)
     /\ fixed_text (response_of t) = Throw TypeError
     /\ diagnosticCollection
          (applyAIFix document diagnostic (Some key) (Ok (response_of t)) editor σ)
        = diagnosticCollection σ
     /\ edits (applyAIFix document diagnostic (Some key) (Ok (response_of t)) editor σ)
        = edits σ
     /\ exists e,
          notifications
            (applyAIFix document diagnostic (Some key) (Ok (response_of t)) editor σ)
          = notifications σ ++ [ErrorFixFailed e])
  /\ ident <$> diagnostics_of (uri sample_document) twice_reviewed_state
     = [0; 1; 2; 3; 4]%nat
  /\ diagnostics_of (uri sample_document) twice_reviewed_state !! 1%nat
     = Some fixed_diagnostic
  /\ lineAt sample_document (num_of_nat (range_line (range fixed_diagnostic)))
     = Ok (lit "const total = items.length;",
           {| range_line := 2; range_start := 0; range_end := 27 |})
  /\ first_candidate_text fix_response
     = Ok (VStr (lit "const total = items ? items.length : 0;"))
  /\ notifications
       (applyAIFix sample_document fixed_diagnostic (Some sample_key) (Ok fix_response)
          (Some (uri sample_document)) twice_reviewed_state)
     = notifications twice_reviewed_state ++ [ErrorFixFailed TypeError]
  /\ edits
       (applyAIFix sample_document fixed_diagnostic (Some sample_key) (Ok fix_response)
          (Some (uri sample_document)) twice_reviewed_state)
     = []
  /\ diagnostics_of (uri sample_document)
       (applyAIFix sample_document fixed_diagnostic (Some sample_key) (Ok fix_response)
          (Some (uri sample_document)) twice_reviewed_state)
     = diagnostics_of (uri sample_document) twice_reviewed_state
  /\ diagnostics_of (uri sample_document)
       (applyAIFix sample_document fixed_diagnostic (Some sample_key) (Ok fix_response)
          (Some (uri sample_document)) twice_reviewed_state) !! 1%nat
     = Some fixed_diagnostic.
Proof.
  split.
  - intros document diagnostic key t editor σ.
    split; [reflexivity|]. split; [apply fixed_text_response_of|].
    unfold applyAIFix.
    destruct (lineAt document (num_of_nat (range_line (range diagnostic)))) as [line|e];
      cbn [mbind result_bind]; [rewrite fixed_text_response_of|];
      cbn [mbind result_bind]; (split; [reflexivity|]); (split; [reflexivity|]); eauto.
  - repeat split; vm_compute; reflexivity.
Qed.

(** C10.  When [candidates] is an array, as in every reply of the
    documented shape, reading [content.parts] of it throws a TypeError: no
    text is ever obtained from such a reply.  [applyAIFix] catches the
    exception and reports a failed fix with an error message, sends no edit
    to the document and leaves the diagnostic collection as it was. *)
Theorem fix_fails_on_documented_shape
    (document : TextDocument) (diagnostic : Diagnostic) (key : jsstring)
    (response data : value) (candidates : list value)
    (editor : option string) (σ : State) :
  get_prop response (lit "data") = Ok data ->
  get_prop data (lit "candidates") = Ok (VArr candidates) ->
  let σ' := applyAIFix document diagnostic (Some key) (Ok response) editor σ in
  fixed_text response = Throw TypeError
  /\ (exists e, notifications σ' = notifications σ ++ [ErrorFixFailed e])
  /\ (forall line,
        lineAt document (num_of_nat (range_line (range diagnostic))) = Ok line ->
        notifications σ' = notifications σ ++ [ErrorFixFailed TypeError])
  /\ edits σ' = edits σ
  /\ diagnosticCollection σ' = diagnosticCollection σ.
Proof.
  intros Hdata Hcand.
  assert (Hfix : fixed_text response = Throw TypeError).
  { unfold fixed_text. rewrite Hdata. simpl. rewrite Hcand. reflexivity. }
  split; [exact Hfix|].
  unfold applyAIFix.
  destruct (lineAt document (num_of_nat (range_line (range diagnostic)))) as [line|e];
    simpl; [rewrite Hfix|]; simpl.
  - repeat split; eauto.
  - repeat split; eauto. intros line Hline. discriminate.
Qed.

(** The reply of the documented shape to a fix of the second diagnostic. *)
Lemma fix_fails_on_documented_shape_witness :
  notifications (applyAIFix sample_document fixed_diagnostic (Some sample_key)
                   (Ok fix_response) (Some (uri sample_document)) twice_reviewed_state)
    = notifications twice_reviewed_state ++ [ErrorFixFailed TypeError]
  /\ edits (applyAIFix sample_document fixed_diagnostic (Some sample_key)
              (Ok fix_response) (Some (uri sample_document)) twice_reviewed_state)
     = edits twice_reviewed_state
  /\ diagnosticCollection
       (applyAIFix sample_document fixed_diagnostic (Some sample_key)
          (Ok fix_response) (Some (uri sample_document)) twice_reviewed_state)
     = diagnosticCollection twice_reviewed_state.
Proof.
  destruct (fix_fails_on_documented_shape sample_document fixed_diagnostic sample_key
              fix_response _ _ (Some (uri sample_document)) twice_reviewed_state
              eq_refl eq_refl) as (_ & _ & Hn & He & Hd).
  split; [eapply Hn; vm_compute; reflexivity|]. split; assumption.
Defined.

(** ** The chat session *)

(** No function of the webview script or of the extension assigns
    [currentStreamController], except the listener of [stopStream], which
    sets it to [null]. *)
Lemma webview_receives_controller (m : ToWebview) (c : Chat) :
  currentStreamController (webview_receives m c) = currentStreamController c.
Proof.
  destruct m as [t|e| |t]; simpl; try reflexivity.
  - unfold typeMessage. simpl.
    destruct (get_prop t (lit "length") ≫= _) as [more|]; simpl; [|reflexivity].
    destruct (more && isStreaming c); reflexivity.
  - destruct (currentTypingDiv c); reflexivity.
Qed.

Lemma webview_receives_posted (m : ToWebview) (c : Chat) :
  posted (webview_receives m c) = posted c.
Proof.
  destruct m as [t|e| |t]; simpl; try reflexivity.
  - unfold typeMessage. simpl.
    destruct (get_prop t (lit "length") ≫= _) as [more|]; simpl; [|reflexivity].
    destruct (more && isStreaming c); reflexivity.
  - destruct (currentTypingDiv c); reflexivity.
Qed.

Lemma postMessage_controller (m : ToWebview) (c : Chat) :
  currentStreamController (postMessage m c) = currentStreamController c.
Proof. unfold postMessage. rewrite webview_receives_controller. reflexivity. Qed.

Lemma postMessage_posted (m : ToWebview) (c : Chat) :
  posted (postMessage m c) = posted c ++ [m].
Proof. unfold postMessage. rewrite webview_receives_posted. reflexivity. Qed.

Lemma handleChatMessage_send_controller m k ed (c : Chat) :
  currentStreamController (handleChatMessage_send m k ed c) = currentStreamController c.
Proof.
  unfold handleChatMessage_send. destruct k; [reflexivity|apply postMessage_controller].
Qed.

Lemma handleChatMessage_send_posted m k ed (c : Chat) :
  posted (handleChatMessage_send m k ed c)
  = posted c ++ match k with Some _ => [] | None => [chatError ApiKeyNotSet] end.
Proof.
  unfold handleChatMessage_send. destruct k; [simpl; rewrite app_nil_r; reflexivity|].
  apply postMessage_posted.
Qed.

Lemma handleChatMessage_resume_controller r (c : Chat) :
  currentStreamController (handleChatMessage_resume r c) = currentStreamController c.
Proof.
  unfold handleChatMessage_resume. destruct (outstanding c); [reflexivity|].
  destruct (r ≫= _); rewrite postMessage_controller; reflexivity.
Qed.

Lemma handleChatMessage_resume_posted r (c : Chat) :
  existsb is_stop_notice (posted (handleChatMessage_resume r c))
  = existsb is_stop_notice (posted c).
Proof.
  unfold handleChatMessage_resume. destruct (outstanding c); [reflexivity|].
  destruct (r ≫= _); rewrite postMessage_posted, existsb_app; simpl;
    rewrite orb_false_r; reflexivity.
Qed.

Lemma step_controller (e : Event) (c : Chat) :
  currentStreamController c = None -> currentStreamController (step e c) = None.
Proof.
  intros Hc. destruct e as [input apiKey editor| | |response|];
    cbn [step onDidReceiveMessage].
  - destruct (trim input); [assumption|]. destruct (isStreaming c); [assumption|].
    rewrite handleChatMessage_send_controller. assumption.
  - unfold extension_receives_stopStream.
    change (currentStreamController (removeLoading (set_streaming false c)))
      with (currentStreamController c).
    rewrite Hc. assumption.
  - unfold extension_receives_clearChat. rewrite postMessage_controller. assumption.
  - rewrite handleChatMessage_resume_controller. assumption.
  - assumption.
Qed.

(** In every state a session can reach, [currentStreamController] is
    [null]. *)
Lemma controller_is_never_set (events : list Event) :
  currentStreamController (run events initial) = None.
Proof.
  unfold run. rewrite <- fold_left_rev_right.
  induction (rev events) as [|e l IH]; [reflexivity|].
  simpl. apply step_controller. exact IH.
Qed.

(** So the listener does nothing on [stopStream], whenever it runs. *)
Lemma stop_is_ignored (events : list Event) (apiKey : option jsstring)
    (editor : option EditorContext) :
  onDidReceiveMessage stopStream apiKey editor (run events initial) = run events initial.
Proof.
  cbn [onDidReceiveMessage]. unfold extension_receives_stopStream.
  rewrite controller_is_never_set. reflexivity.
Qed.


Lemma step_posts_no_notice (e : Event) (c : Chat) :
  currentStreamController c = None ->
  existsb is_stop_notice (posted c) = false ->
  existsb is_stop_notice (posted (step e c)) = false.
Proof.
  intros Hc Hp. destruct e as [input apiKey editor| | |response|];
    cbn [step onDidReceiveMessage].
  - destruct (trim input); [assumption|]. destruct (isStreaming c); [assumption|].
    rewrite handleChatMessage_send_posted, existsb_app.
    change (posted (showLoading _)) with (posted c). rewrite Hp.
    destruct apiKey; reflexivity.
  - unfold extension_receives_stopStream.
    change (currentStreamController (removeLoading (set_streaming false c)))
      with (currentStreamController c).
    rewrite Hc. assumption.
  - unfold extension_receives_clearChat. rewrite postMessage_posted, existsb_app.
    simpl. rewrite Hp. reflexivity.
  - rewrite handleChatMessage_resume_posted. assumption.
  - assumption.
Qed.

(** No session ever posts the cancellation notice to the webview. *)
Lemma notice_is_never_posted (events : list Event) :
  existsb is_stop_notice (posted (run events initial)) = false.
Proof.
  assert (H : currentStreamController (run events initial) = None
              /\ existsb is_stop_notice (posted (run events initial)) = false).
  { unfold run. rewrite <- fold_left_rev_right.
    induction (rev events) as [|e l [IHc IHp]]; [split; reflexivity|].
    simpl. split; [apply step_controller | apply step_posts_no_notice]; assumption. }
  apply H.
Qed.

(** C7 fails on the code.  The user sends a question and presses the stop
    button while the request is outstanding: the webview leaves its
    streaming state, but the extension posts nothing, the transcript gets no
    notice, and the request stays outstanding.  When its reply arrives, the
    assistant turn is appended to the history and the reply is posted to the
    webview, which shows an empty message for it. *)
Theorem stop_does_not_cancel :
  isStreaming stopped_session = false
  /\ posted stopped_session = []
  /\ snd <$> chatContainer stopped_session = [UserMessage question]
  /\ length (outstanding stopped_session) = 1%nat
  /\ role <$> conversationHistory stopped_session = [user]
  /\ conversationHistory settled_session
     = [{| role := user; text := VStr question |};
        {| role := assistant; text := VStr answer |}]
  /\ posted settled_session = [aiResponse (VStr answer)]
  /\ snd <$> chatContainer settled_session
     = [UserMessage question; TypedMessage (VStr answer) false None].
Proof. repeat split; vm_compute; reflexivity. Qed.

(** * Beyond the claims *)

(** ** What a review pass does in every case *)

(** A full review ends in one of three ways: without key it does nothing;
    when a step throws it shows the error and writes nothing; otherwise it
    sets the diagnostics it constructed. *)
Lemma reviewCode_cases
    (document : TextDocument) (start : nat) (apiKey : option jsstring)
    (response : result value) (σ : State) :
  let σ' := reviewCode document start apiKey response σ in
  edits σ' = edits σ
  /\ ((apiKey = None /\ σ' = σ)
      \/ (exists key e,
            apiKey = Some key
            /\ (r ← response; review_output document start r) = Throw e
            /\ diagnosticCollection σ' = diagnosticCollection σ
            /\ next_ident σ' = next_ident σ
            /\ notifications σ' = notifications σ ++ [ErrorReviewFailed e])
      \/ (exists key r l,
            apiKey = Some key /\ response = Ok r
            /\ review_output document start r = Ok l
            /\ diagnosticCollection σ'
               = <[uri document := allocate (next_ident σ) l]> (diagnosticCollection σ)
            /\ next_ident σ' = (next_ident σ + length l)%nat
            /\ notifications σ'
               = notifications σ
                 ++ [if Nat.eqb (length l) 0 then InfoNoIssues else InfoFound (length l)])).
Proof.
  destruct apiKey as [key|]; [|simpl; auto 6].
  destruct response as [r|e];
    [|simpl; split; [reflexivity|]; right; left; exists key, e; auto 6].
  destruct (review_output document start r) as [l|e] eqn:Hout.
  - destruct (reviewCode_completes document start key r σ l Hout) as (Hd & Hi & He & Hn).
    simpl. split; [exact He|]. right. right. exists key, r, l. auto 8.
  - assert (Hout' := Hout). unfold review_output in Hout. unfold reviewCode. simpl.
    destruct (first_candidate_text r) as [a|e0]; simpl in *.
    + destruct (parse_review_eq a σ) as (σ1 & -> & Hn & Hd & He & Hi).
      rewrite Hout. simpl. rewrite Hn, Hd, He, Hi.
      split; [reflexivity|]. right. left. exists key, e. rewrite Hout'. auto 6.
    + injection Hout as ->. split; [reflexivity|]. right. left. exists key, e.
      rewrite Hout'. auto 6.
Qed.

(** A quick review ends in one of five ways; when the filter leaves no
    issue it writes nothing. *)
Lemma quickReviewSelection_cases
    (document : TextDocument) (code : jsstring) (start : nat) (apiKey : option jsstring)
    (response : result value) (σ : State) :
  let σ' := quickReviewSelection document code start apiKey response σ in
  edits σ' = edits σ
  /\ ((code <> [] /\ apiKey = None /\ σ' = σ)
      \/ (diagnosticCollection σ' = diagnosticCollection σ
          /\ next_ident σ' = next_ident σ
          /\ ((code = [] /\ notifications σ' = notifications σ ++ [WarnNoCodeSelected])
              \/ (exists key e,
                    code <> [] /\ apiKey = Some key
                    /\ (r ← response; quick_output document start r) = Throw e
                    /\ notifications σ' = notifications σ ++ [ErrorReviewFailed e])
              \/ (exists key r,
                    code <> [] /\ apiKey = Some key /\ response = Ok r
                    /\ quick_output document start r = Ok []
                    /\ notifications σ' = notifications σ ++ [InfoNoCritical])))
      \/ (exists key r l,
            code <> [] /\ apiKey = Some key /\ response = Ok r
            /\ quick_output document start r = Ok l /\ l <> []
            /\ diagnosticCollection σ'
               = <[uri document := diagnostics_of (uri document) σ ++ allocate (next_ident σ) l]>
                   (diagnosticCollection σ)
            /\ next_ident σ' = (next_ident σ + length l)%nat
            /\ notifications σ' = notifications σ ++ [InfoFoundCritical (length l)])).
Proof.
  unfold quickReviewSelection.
  destruct code as [|c code'].
  { simpl. split; [reflexivity|]. right. left. auto 6. }
  assert (Hcode : c :: code' <> []) by discriminate.
  destruct apiKey as [key|]; [|simpl; auto 6].
  destruct response as [r|e].
  2:{ simpl. split; [reflexivity|]. right. left. split; [reflexivity|].
      split; [reflexivity|]. right. left. exists key, e. auto. }
  simpl.
  destruct (first_candidate_text r) as [a|e0] eqn:Ha; simpl.
  2:{ split; [reflexivity|]. right. left. split; [reflexivity|].
      split; [reflexivity|]. right. left. exists key, e0.
      unfold quick_output. rewrite Ha. auto. }
  destruct (parse_quick_eq a σ) as (σ1 & -> & Hn & Hd & He & Hi).
  destruct (quick_issues a) as [|issue issues] eqn:Hissues.
  { simpl. rewrite Hn, Hd, He, Hi. split; [reflexivity|]. right. left.
    split; [reflexivity|]. split; [reflexivity|]. right. right. exists key, r.
    unfold quick_output. rewrite Ha. simpl. rewrite Hissues. auto 6. }
  cbn [length Nat.eqb].
  destruct (map_result _ (issue :: issues)) as [l|e] eqn:Hmap; simpl.
  - rewrite Hn, Hd, He, !Hi. split; [reflexivity|]. right. right. exists key, r, l.
    split; [exact Hcode|]. split; [reflexivity|]. split; [reflexivity|].
    split; [unfold quick_output; rewrite Ha; simpl; rewrite Hissues; exact Hmap|].
    split.
    { intros ->. apply map_result_length in Hmap. discriminate. }
    rewrite allocate_length. unfold diagnostics_of, collection_get. rewrite Hd. auto.
  - rewrite Hn, Hd, He, Hi. split; [reflexivity|]. right. left.
    split; [reflexivity|]. split; [reflexivity|]. right. left. exists key, e.
    unfold quick_output. rewrite Ha. simpl. rewrite Hissues. auto.
Qed.

(** ** What a diagnostic of a review says *)

Lemma lineAt_covers (document : TextDocument) (n : number) (text : jsstring) (r : Range) :
  lineAt document n = Ok (text, r) ->
  lines document !! range_line r = Some text /\ covers_line document r.
Proof.
  unfold lineAt. destruct n as [| |q]; try discriminate.
  destruct (Qeq_bool _ _ && _ && _) eqn:E; [|discriminate].
  intros [= <- <-].
  apply andb_true_iff in E as [E Hlt]. apply andb_true_iff in E as [_ H0].
  apply Z.leb_le in H0. apply Z.ltb_lt in Hlt. unfold lineCount in Hlt.
  assert (Hi : (Z.to_nat (Qfloor q) < length (lines document))%nat) by lia.
  destruct (lookup_lt_is_Some_2 _ _ Hi) as [t Ht].
  assert (Hn : nth (Z.to_nat (Qfloor q)) (lines document) ([] : list N) = t)
    by (apply nth_lookup_Some; exact Ht).
  rewrite Hn. simpl. split; [exact Ht|]. exists t. auto.
Qed.

(** A diagnostic that the callback of [map] constructs covers a line of the
    document and carries the message and the mapped severity of its
    issue. *)
Lemma make_diagnostic_ok
    (sev : value -> DiagnosticSeverity) (document : TextDocument) (start : nat)
    (issue : value) (r : Range) (m : value) (s : DiagnosticSeverity) :
  make_diagnostic sev document start issue = Ok (r, m, s) ->
  covers_line document r
  /\ get_prop issue (lit "message") = Ok m
  /\ ToString_throws m = false
  /\ exists raw, get_prop issue (lit "severity") = Ok raw /\ s = sev raw.
Proof.
  unfold make_diagnostic.
  destruct (absolute_line issue start document) as [n|]; [|discriminate]. simpl.
  destruct (lineAt document n) as [[text r0]|] eqn:Hline; [|discriminate]. simpl.
  destruct (get_prop issue (lit "severity")) as [raw|]; [|discriminate]. simpl.
  destruct (get_prop issue (lit "message")) as [m0|]; [|discriminate]. simpl.
  unfold interpolate. destruct (ToString_throws m0) eqn:Hm; [discriminate|].
  simpl. intros [= <- <- <-].
  split; [eapply lineAt_covers; eassumption|]. eauto.
Qed.

(** Whatever value the reply puts in the place of an issue, the quality
    filter lets it through only with a message that is a text of more than
    10 code units without one of the keywords. *)
Lemma quality_filter_sound (issue : value) :
  quality_filter issue = Ok true ->
  exists m, get_prop issue (lit "message") = Ok m /\ substantial m.
Proof.
  unfold quality_filter.
  destruct (get_prop issue (lit "message")) as [m|]; [|discriminate]. simpl.
  destruct m as [| |b|n|t|l|props].
  - discriminate.
  - discriminate.
  - destruct b; discriminate.
  - destruct (truthy (VNum n)); discriminate.
  - intros H. exists (VStr t). split; [reflexivity|]. exists t. split; [reflexivity|].
    destruct t as [|c t']; [discriminate|].
    cbn [truthy negb] in H.
    change (get_prop (VStr (c :: t')) (lit "length"))
      with (Ok (VNum (num_of_nat (length (c :: t'))))) in H.
    cbn [mbind result_bind] in H. unfold js_gt in H. simpl in H. rewrite nat_gt_10 in H.
    destruct (10 <? S (length t'))%nat eqn:Hlen; [|discriminate].
    apply Nat.ltb_lt in Hlen. split; [exact Hlen|].
    unfold low_value. simpl in H.
    destruct (includes _ (lit "comment")); [discriminate|].
    destruct (includes _ (lit "naming")); [discriminate|].
    destruct (includes _ (lit "style")); [discriminate|]. reflexivity.
  - cbn [truthy negb]. simpl.
    destruct (negb (negb _)); discriminate.
  - cbn [truthy negb]. simpl.
    destruct (js_gt _ _) as [[|]|]; discriminate.
Qed.

Lemma filter_result_Forall {A} (f : A -> result bool) (l kept : list A) :
  filter_result f l = Ok kept -> Forall (fun x => f x = Ok true) kept.
Proof.
  revert kept. induction l as [|x l IH]; simpl; intros kept.
  - intros [= <-]. constructor.
  - destruct (f x) as [b|] eqn:E; [|discriminate]. simpl.
    destruct (filter_result f l) as [r'|]; [|discriminate]. simpl.
    intros [= <-]. destruct b; [constructor|]; auto.
Qed.

(** The issues of a quick review have all passed the filter. *)
Lemma quick_issues_filtered (a : value) :
  Forall (fun issue => quality_filter issue = Ok true) (quick_issues a).
Proof.
  unfold quick_issues, parse_quick_try.
  destruct (js_match re_lazy a) as [[m|]|]; simpl; try constructor.
  destruct (JSON_parse m) as [v|]; simpl; [|constructor].
  destruct v; simpl; try constructor.
  destruct (filter_result quality_filter elems) as [kept|] eqn:E; [|constructor].
  eapply filter_result_Forall. exact E.
Qed.

Lemma map_result_Forall {A B} (f : A -> result B) (P : A -> Prop) (Q : B -> Prop)
    (l : list A) (l' : list B) :
  (forall x y, P x -> f x = Ok y -> Q y) ->
  Forall P l -> map_result f l = Ok l' -> Forall Q l'.
Proof.
  intros HPQ HP Hmap. apply map_result_Forall2 in Hmap.
  induction Hmap as [|x y l l' Hxy _ IH]; [constructor|].
  apply Forall_cons in HP as [Hx HP]. constructor; eauto.
Qed.

Lemma allocate_Forall (P : Range -> value -> DiagnosticSeverity -> Prop) (n : nat)
    (l : list (Range * value * DiagnosticSeverity)) :
  Forall (entry_holds P) l ->
  Forall (fun d => P (range d) (message d) (severity d)
                   /\ source d = Some (lit "AI Copilot")) (allocate n l).
Proof.
  intros H. revert n. induction H as [|[[r m] s] l Hx _ IH]; intros n; simpl;
    constructor; auto.
Qed.

Lemma review_output_entries
    (document : TextDocument) (start : nat) (response : value)
    (l : list (Range * value * DiagnosticSeverity)) :
  review_output document start response = Ok l ->
  Forall (entry_holds (fun r m s => covers_line document r /\ ToString_throws m = false)) l.
Proof.
  unfold review_output. destruct (first_candidate_text response) as [a|]; [|discriminate].
  simpl. destruct (review_issues_array a) as [issues ->]. simpl.
  apply (map_result_Forall _ (fun _ => True)).
  - intros issue [[r m] s] _ H. apply make_diagnostic_ok in H as (Hc & _ & Hm & _).
    split; assumption.
  - apply Forall_forall. auto.
Qed.

Lemma quick_output_entries
    (document : TextDocument) (start : nat) (response : value)
    (l : list (Range * value * DiagnosticSeverity)) :
  quick_output document start response = Ok l ->
  Forall (entry_holds (fun r m s => covers_line document r /\ substantial m
                                    /\ (s = Error \/ s = Warning))) l.
Proof.
  unfold quick_output. destruct (first_candidate_text response) as [a|]; [|discriminate].
  simpl.
  apply (map_result_Forall _ (fun issue => quality_filter issue = Ok true)).
  - intros issue [[r m] s] Hq H.
    apply make_diagnostic_ok in H as (Hc & Hm & _ & raw & _ & ->).
    apply quality_filter_sound in Hq as (m' & Hm' & Hsub).
    rewrite Hm in Hm'. injection Hm' as <-.
    split; [exact Hc|]. split; [exact Hsub|].
    unfold quick_severity. destruct (strict_eq_str raw (lit "error")); auto.
  - apply quick_issues_filtered.
Qed.

(** What a quick review appends, whatever its outcome. *)
Lemma quickReviewSelection_appends
    (document : TextDocument) (code : jsstring) (start : nat) (apiKey : option jsstring)
    (response : result value) (σ : State) :
  let σ' := quickReviewSelection document code start apiKey response σ in
  exists new,
    diagnostics_of (uri document) σ' = diagnostics_of (uri document) σ ++ new
    /\ Forall (fun d => (covers_line document (range d) /\ substantial (message d)
                         /\ (severity d = Error \/ severity d = Warning))
                        /\ source d = Some (lit "AI Copilot")) new.
Proof.
  destruct (quickReviewSelection_cases document code start apiKey response σ)
    as (_ & [(_ & _ & Heq) | [(Hd & _) | (key & r & l & _ & _ & _ & Hout & _ & Hd & _)]]).
  - exists []. simpl. rewrite Heq, app_nil_r. split; [reflexivity|constructor].
  - exists []. simpl. unfold diagnostics_of, collection_get. rewrite Hd, app_nil_r.
    split; [reflexivity|constructor].
  - exists (allocate (next_ident σ) l). simpl. split.
    + unfold diagnostics_of at 1. unfold collection_get. rewrite Hd, lookup_insert_eq.
      reflexivity.
    + apply (allocate_Forall
               (fun r m s => covers_line document r /\ substantial m
                             /\ (s = Error \/ s = Warning))).
      eapply quick_output_entries. exact Hout.
Qed.

(** X1.  Every diagnostic that a review pass constructs covers one whole
    line of the document, from column 0 to the end of the line, and has the
    source "AI Copilot".  A full review leaves the collection as it was or
    sets for the document a list of such diagnostics; a quick review keeps
    the diagnostics of the document in front and appends such diagnostics,
    none when it fails or finds nothing. *)
Theorem constructed_diagnostics_cover_lines
    (document : TextDocument) (code : jsstring) (start : nat) (apiKey : option jsstring)
    (response : result value) (σ : State) :
  (let σ' := reviewCode document start apiKey response σ in
   diagnosticCollection σ' = diagnosticCollection σ
   \/ exists ds,
        diagnosticCollection σ' = <[uri document := ds]> (diagnosticCollection σ)
        /\ Forall (fun d => covers_line document (range d)
                            /\ source d = Some (lit "AI Copilot")) ds)
  /\
  (let σ' := quickReviewSelection document code start apiKey response σ in
   exists new,
     diagnostics_of (uri document) σ' = diagnostics_of (uri document) σ ++ new
     /\ Forall (fun d => covers_line document (range d)
                         /\ source d = Some (lit "AI Copilot")) new).
Proof.
  split.
  - destruct (reviewCode_cases document start apiKey response σ)
      as (_ & [(_ & Heq) | [(key & e & _ & _ & Hd & _)
                           | (key & r & l & _ & _ & Hout & Hd & _)]]).
    + left. simpl. rewrite Heq. reflexivity.
    + left. exact Hd.
    + right. exists (allocate (next_ident σ) l). split; [exact Hd|].
      eapply Forall_impl;
        [apply (allocate_Forall
                  (fun r m s => covers_line document r /\ ToString_throws m = false));
         eapply review_output_entries; exact Hout|].
      simpl. intros d [[Hc _] Hs]. auto.
  - destruct (quickReviewSelection_appends document code start apiKey response σ)
      as (new & Hnew & Hall).
    exists new. split; [exact Hnew|].
    eapply Forall_impl; [exact Hall|]. simpl. intros d [[Hc _] Hs]. auto.
Qed.

(** X2.  Whatever the reply holds, every diagnostic that a quick review
    appends has a message that is a text of more than 10 code units without
    "comment", "naming" or "style" in its lower case, and the severity Error
    or Warning: no value that is not such a text gets past the filter, and no
    diagnostic of a quick review is an Information or a Hint. *)
Theorem quick_review_appends_substantial
    (document : TextDocument) (code : jsstring) (start : nat) (apiKey : option jsstring)
    (response : result value) (σ : State) :
  let σ' := quickReviewSelection document code start apiKey response σ in
  exists new,
    diagnostics_of (uri document) σ' = diagnostics_of (uri document) σ ++ new
    /\ Forall (fun d => substantial (message d)
                        /\ (severity d = Error \/ severity d = Warning)) new.
Proof.
  destruct (quickReviewSelection_appends document code start apiKey response σ)
    as (new & Hnew & Hall).
  exists new. split; [exact Hnew|].
  eapply Forall_impl; [exact Hall|]. simpl. intros d [(_ & Hm & Hs) _]. auto.
Qed.

(** X3.  A review pass, full or quick, that ends with the message "Review
    failed" has changed nothing else: the diagnostics of every document and
    the edits are what they were, however many diagnostics the pass had
    constructed before the step that threw. *)
Theorem failed_review_writes_nothing
    (document : TextDocument) (code : jsstring) (start : nat) (apiKey : option jsstring)
    (response : result value) (σ : State) (e : error) :
  (notifications (reviewCode document start apiKey response σ)
   = notifications σ ++ [ErrorReviewFailed e] ->
   diagnosticCollection (reviewCode document start apiKey response σ)
   = diagnosticCollection σ
   /\ edits (reviewCode document start apiKey response σ) = edits σ)
  /\
  (notifications (quickReviewSelection document code start apiKey response σ)
   = notifications σ ++ [ErrorReviewFailed e] ->
   diagnosticCollection (quickReviewSelection document code start apiKey response σ)
   = diagnosticCollection σ
   /\ edits (quickReviewSelection document code start apiKey response σ) = edits σ).
Proof.
  split; intros Hn.
  - destruct (reviewCode_cases document start apiKey response σ)
      as (He & [(_ & Heq) | [(key & e' & _ & _ & Hd & _)
                            | (key & r & l & _ & _ & _ & _ & _ & Hn')]]).
    + simpl in Heq. rewrite Heq. auto.
    + auto.
    + simpl in Hn'. rewrite Hn' in Hn. apply app_inj_tail in Hn as [_ Hn].
      destruct (Nat.eqb (length l) 0); discriminate.
  - destruct (quickReviewSelection_cases document code start apiKey response σ)
      as (He & [(_ & _ & Heq) | [(Hd & _)
                                | (key & r & l & _ & _ & _ & _ & _ & _ & _ & Hn')]]).
    + simpl in Heq. rewrite Heq. auto.
    + auto.
    + simpl in Hn'. rewrite Hn' in Hn. apply app_inj_tail in Hn as [_ Hn]. discriminate.
Qed.

(** A full and a quick review of the reply whose line is the text "abc",
    over the state that two quick reviews have left. *)
Lemma failed_review_writes_nothing_witness :
  diagnosticCollection (reviewCode sample_document 0 (Some sample_key)
                          (Ok (response_of text_line_reply)) twice_reviewed_state)
  = diagnosticCollection twice_reviewed_state
  /\ diagnosticCollection (quickReviewSelection sample_document (lit "f(x)") 0
                             (Some sample_key) (Ok (response_of text_line_reply))
                             twice_reviewed_state)
     = diagnosticCollection twice_reviewed_state.
Proof.
  destruct (failed_review_writes_nothing sample_document (lit "f(x)") 0 (Some sample_key)
              (Ok (response_of text_line_reply)) twice_reviewed_state IllegalLine)
    as [Hfull Hquick].
  split.
  - apply Hfull. vm_compute. reflexivity.
  - apply Hquick. vm_compute. reflexivity.
Defined.

(** X4.  A review pass never sends an edit and never touches the
    diagnostics of another document, whatever the reply and whether the pass
    succeeds or fails. *)
Theorem review_touches_one_document
    (document : TextDocument) (code : jsstring) (start : nat) (apiKey : option jsstring)
    (response : result value) (σ : State) :
  (edits (reviewCode document start apiKey response σ) = edits σ
   /\ forall u, u <> uri document ->
        diagnosticCollection (reviewCode document start apiKey response σ) !! u
        = diagnosticCollection σ !! u)
  /\
  (edits (quickReviewSelection document code start apiKey response σ) = edits σ
   /\ forall u, u <> uri document ->
        diagnosticCollection (quickReviewSelection document code start apiKey response σ) !! u
        = diagnosticCollection σ !! u).
Proof.
  split.
  - destruct (reviewCode_cases document start apiKey response σ)
      as (He & [(_ & Heq) | [(key & e' & _ & _ & Hd & _)
                            | (key & r & l & _ & _ & _ & Hd & _)]]);
      (split; [exact He|]); intros u Hu.
    + simpl in Heq. rewrite Heq. reflexivity.
    + rewrite Hd. reflexivity.
    + rewrite Hd. apply lookup_insert_ne. congruence.
  - destruct (quickReviewSelection_cases document code start apiKey response σ)
      as (He & [(_ & _ & Heq) | [(Hd & _)
                                | (key & r & l & _ & _ & _ & _ & _ & Hd & _)]]);
      (split; [exact He|]); intros u Hu.
    + simpl in Heq. rewrite Heq. reflexivity.
    + rewrite Hd. reflexivity.
    + rewrite Hd. apply lookup_insert_ne. congruence.
Qed.

(** ** One element that is no object *)

Lemma map_result_throws {A B} (f : A -> result B) (l : list A) (x : A) (e : error) :
  x ∈ l -> f x = Throw e -> exists e', map_result f l = Throw e'.
Proof.
  intros Hin Hx. induction l as [|y l IH]; [inversion Hin|].
  simpl. destruct (f y) as [b|e0] eqn:Hy; simpl; [|eauto].
  apply elem_of_cons in Hin as [Heq|Hin]; [congruence|].
  destruct (IH Hin) as [e' ->]. simpl. eauto.
Qed.

(** A conversion to a number throws nothing but a TypeError. *)
Lemma ToNumber_error : forall (v : value) (e : error), ToNumber v = Throw e -> e = TypeError.
Proof.
  fix IH 1. intros v e. destruct v as [| |b|n|s|l|props]; try discriminate.
  - intros H. cbn [ToNumber] in H.
    destruct (ToString_throws (VArr l)); [congruence|].
    destruct l as [|x [|y l]]; try discriminate.
    pose proof (IH x e) as Hx.
    destruct x as [| |b|n|s|l|props]; try discriminate.
    exact (Hx H).
  - intros H. cbn [ToNumber] in H.
    destruct (has_own props (lit "toString")); [congruence|discriminate].
Qed.

Lemma get_prop_error (v : value) (k : jsstring) (e : error) :
  get_prop v k = Throw e -> e = TypeError.
Proof.
  destruct v; simpl; try discriminate; try congruence;
    destruct (str_eqb _ _); discriminate.
Qed.

(** The callback of the quality filter throws nothing but a TypeError. *)
Lemma quality_filter_error (issue : value) (e : error) :
  quality_filter issue = Throw e -> e = TypeError.
Proof.
  unfold quality_filter.
  destruct (get_prop issue (lit "message")) as [m|e0] eqn:Hm; simpl.
  2:{ apply get_prop_error in Hm. congruence. }
  destruct (negb (truthy m)); [discriminate|].
  destruct (get_prop m (lit "length")) as [len|e0] eqn:Hlen; simpl.
  2:{ apply get_prop_error in Hlen. congruence. }
  unfold js_gt.
  destruct (ToNumber len) as [x|e0] eqn:Hx; simpl.
  2:{ apply ToNumber_error in Hx. congruence. }
  destruct (negb _); [discriminate|].
  assert (Hlow : forall r, js_toLowerCase m = Throw r -> r = TypeError).
  { intros r. destruct m; simpl; congruence. }
  destruct (js_toLowerCase m) as [l1|r] eqn:H1; simpl.
  - destruct (includes l1 (lit "comment")); [discriminate|].
    destruct (includes l1 (lit "naming")); [discriminate|]. discriminate.
  - intros [= <-]. auto.
Qed.

Lemma filter_result_throws {A} (f : A -> result bool) (l : list A) (x : A) (e : error) :
  x ∈ l -> f x = Throw e -> exists e', filter_result f l = Throw e'.
Proof.
  intros Hin Hx. induction l as [|y l IH]; [inversion Hin|].
  simpl. destruct (f y) as [b|e0] eqn:Hy; simpl; [|eauto].
  apply elem_of_cons in Hin as [Heq|Hin]; [congruence|].
  destruct (IH Hin) as [e' ->]. simpl. eauto.
Qed.

Lemma filter_result_error {A} (f : A -> result bool) (l : list A) (e : error) :
  (forall x e', f x = Throw e' -> e' = TypeError) ->
  filter_result f l = Throw e -> e = TypeError.
Proof.
  intros Hf. induction l as [|y l IH]; [discriminate|].
  simpl. destruct (f y) as [b|e0] eqn:Hy; simpl.
  - destruct (filter_result f l) as [r|e0]; simpl; [discriminate|].
    intros [= <-]. auto.
  - intros [= <-]. eauto.
Qed.

(** C3, amended.  When the reply is a JSON array between prose that has no
    opening bracket before it and, for the full review, no closing bracket
    after it, the full review obtains exactly the elements of the array, in
    their order.  When the array has no closing bracket inside, whatever
    follows it, the quick review reads that array.  If every element is an
    object whose message is a text or missing, it obtains exactly the
    elements that pass the quality filter, in their order.  If the callback
    of the filter throws on an element, as it does on [null], it obtains no
    issue at all, and the TypeError goes to the console. *)
Theorem delimited_array_is_extracted
    (pre mid post : jsstring) (l : list value) (σ : State) :
  91 ∉ pre ->
  JSON_parse (91 :: mid ++ [93]) = Ok (VArr l) ->
  (93 ∉ post ->
   parse_review (VStr (pre ++ 91 :: mid ++ 93 :: post)) σ = (VArr l, σ))
  /\
  (93 ∉ mid ->
   (Forall plain_issue l ->
    parse_quick (VStr (pre ++ 91 :: mid ++ 93 :: post)) σ = (List.filter kept l, σ))
   /\ (forall issue e, issue ∈ l -> quality_filter issue = Throw e ->
         parse_quick (VStr (pre ++ 91 :: mid ++ 93 :: post)) σ
         = ([], console_error TypeError σ))
   /\ (VNull ∈ l ->
         parse_quick (VStr (pre ++ 91 :: mid ++ 93 :: post)) σ
         = ([], console_error TypeError σ))).
Proof.
  intros Hpre Hparse. split.
  - intros Hpost. unfold parse_review, parse_review_try. simpl.
    rewrite re_greedy_delimited by assumption. rewrite Hparse. reflexivity.
  - intros Hmid.
    assert (Hquick : parse_quick_try (VStr (pre ++ 91 :: mid ++ 93 :: post))
                     = filter_result quality_filter l).
    { unfold parse_quick_try. simpl. rewrite re_lazy_delimited by assumption.
      rewrite Hparse. reflexivity. }
    assert (Hthrow : forall issue e, issue ∈ l -> quality_filter issue = Throw e ->
              parse_quick (VStr (pre ++ 91 :: mid ++ 93 :: post)) σ
              = ([], console_error TypeError σ)).
    { intros issue e Hin He.
      destruct (filter_result_throws quality_filter l issue e Hin He) as [e' He'].
      assert (e' = TypeError)
        by (eapply filter_result_error; [apply quality_filter_error|exact He']).
      subst e'. unfold parse_quick. rewrite Hquick, He'. reflexivity. }
    split; [|split; [exact Hthrow|]].
    + intros Hplain.
      assert (Hkept : filter_result quality_filter l = Ok (List.filter kept l)).
      { clear -Hplain. induction Hplain as [|issue l Hissue _ IH]; [reflexivity|].
        simpl. rewrite (quality_filter_plain issue Hissue). simpl. rewrite IH. simpl.
        destruct (kept issue); reflexivity. }
      unfold parse_quick. rewrite Hquick, Hkept. reflexivity.
    + intros Hnull. apply (Hthrow VNull TypeError Hnull). reflexivity.
Qed.

(** The fenced reply of the specification's example, and the array with
    an issue and a [null]. *)
Lemma delimited_array_is_extracted_witness :
  parse_review (VStr (fenced_prefix ++ 91 :: fenced_body ++ 93 :: fenced_suffix)) empty_state
    = (VArr [null_pointer_issue], empty_state)
  /\ parse_quick (VStr (fenced_prefix ++ 91 :: fenced_body ++ 93 :: fenced_suffix)) empty_state
    = ([null_pointer_issue], empty_state)
  /\ parse_quick (VStr (91 :: null_element_body ++ [93])) empty_state
    = ([], console_error TypeError empty_state).
Proof.
  assert (Hpre : 91 ∉ fenced_prefix) by decide_by_computation.
  assert (Hpost : 93 ∉ fenced_suffix) by decide_by_computation.
  assert (Hmid : 93 ∉ fenced_body) by decide_by_computation.
  assert (Hparse : JSON_parse (91 :: fenced_body ++ [93]) = Ok (VArr [null_pointer_issue]))
    by (vm_compute; reflexivity).
  destruct (delimited_array_is_extracted fenced_prefix fenced_body fenced_suffix
              [null_pointer_issue] empty_state Hpre Hparse) as [Hfull Hquick].
  assert (Hpre' : 91 ∉ ([] : jsstring)) by apply not_elem_of_nil.
  assert (Hmid' : 93 ∉ null_element_body) by decide_by_computation.
  assert (Hparse' : JSON_parse (91 :: null_element_body ++ [93])
                    = Ok (VArr [null_pointer_issue; VNull]))
    by (vm_compute; reflexivity).
  destruct (delimited_array_is_extracted [] null_element_body []
              [null_pointer_issue; VNull] empty_state Hpre' Hparse') as [_ Hquick'].
  split; [exact (Hfull Hpost)|]. split.
  - destruct (Hquick Hmid) as (Hplain & _).
    apply Hplain. repeat constructor. eapply plain_issue_object. vm_compute. reflexivity.
  - destruct (Hquick' Hmid') as (_ & _ & Hnull).
    apply Hnull. right. left.
Defined.

(** X5.  When the array of the reply has a [null] among its elements, the
    other elements are lost with it.  The full review reads [line] of
    [null], fails with "Review failed" and writes nothing.  In the quick
    review the filter reads [message] of [null]; the TypeError is caught as
    a parse error and goes to the console only, the issue list stays empty
    and the user is told "No critical issues found!", whatever the other
    elements report. *)
Theorem null_element_discards_all
    (document : TextDocument) (code key : jsstring) (start : nat)
    (response : value) (t m : jsstring) (l : list value) (σ : State) :
  first_candidate_text response = Ok (VStr t) ->
  JSON_parse m = Ok (VArr l) ->
  VNull ∈ l ->
  (re_greedy t = Some m ->
   let σ' := reviewCode document start (Some key) (Ok response) σ in
   (exists e, notifications σ' = notifications σ ++ [ErrorReviewFailed e])
   /\ diagnosticCollection σ' = diagnosticCollection σ)
  /\
  (re_lazy t = Some m -> code <> [] ->
   let σ' := quickReviewSelection document code start (Some key) (Ok response) σ in
   notifications σ' = notifications σ ++ [InfoNoCritical]
   /\ console σ' = console σ ++ [TypeError]
   /\ diagnosticCollection σ' = diagnosticCollection σ).
Proof.
  intros Ht Hparse Hnull. split.
  - intros Hre.
    assert (Hout : exists e, review_output document start response = Throw e).
    { unfold review_output, review_issues, parse_review_try. rewrite Ht. simpl.
      rewrite Hre, Hparse. simpl.
      apply (map_result_throws _ _ VNull TypeError); [exact Hnull|reflexivity]. }
    destruct Hout as [e Hout].
    destruct (reviewCode_cases document start (Some key) (Ok response) σ)
      as (_ & [(Hk & _) | [(key' & e' & _ & _ & Hd & _ & Hn)
                          | (key' & r & l' & _ & Hr & Hout' & _)]]).
    + discriminate.
    + split; [eauto|exact Hd].
    + injection Hr as <-. congruence.
  - intros Hre Hcode.
    assert (Hthrow : parse_quick_try (VStr t) = Throw TypeError).
    { unfold parse_quick_try. simpl. rewrite Hre, Hparse. simpl.
      destruct (filter_result_throws quality_filter l VNull TypeError Hnull eq_refl)
        as [e He].
      rewrite He. f_equal.
      eapply filter_result_error; [|exact He]. apply quality_filter_error. }
    unfold quickReviewSelection. destruct code as [|c code']; [congruence|].
    simpl. rewrite Ht. unfold parse_quick. rewrite Hthrow. simpl. auto.
Qed.

(** The reply with an issue and a [null]. *)
Lemma null_element_discards_all_witness :
  notifications (reviewCode sample_document 0 (Some sample_key)
                   (Ok (response_of null_element_reply)) empty_state)
  = [ErrorReviewFailed TypeError]
  /\ notifications (quickReviewSelection sample_document (lit "f(x)") 0 (Some sample_key)
                      (Ok (response_of null_element_reply)) empty_state)
     = [InfoNoCritical].
Proof.
  assert (Hparse : JSON_parse null_element_reply = Ok (VArr [null_pointer_issue; VNull]))
    by (vm_compute; reflexivity).
  assert (Hnull : VNull ∈ [null_pointer_issue; VNull]) by (right; left).
  destruct (null_element_discards_all sample_document (lit "f(x)") sample_key 0
              (response_of null_element_reply) null_element_reply null_element_reply
              [null_pointer_issue; VNull] empty_state
              (first_candidate_text_response_of null_element_reply) Hparse Hnull)
    as [Hfull Hquick].
  split.
  - vm_compute. reflexivity.
  - apply Hquick; [vm_compute; reflexivity | discriminate].
Defined.

(** ** Whole line numbers *)

Lemma Qred_inject_Z (q : Q) (z : Z) : (q == inject_Z z)%Q -> Qred q = inject_Z z.
Proof.
  intros H. rewrite (Qred_complete _ _ H). unfold inject_Z, Qred.
  pose proof (Z.ggcd_gcd z 1) as Hg. pose proof (Z.ggcd_correct_divisors z 1) as Hd.
  destruct (Z.ggcd z 1) as [g [a b]]. simpl in Hg, Hd. simpl.
  rewrite Z.gcd_1_r in Hg. subst g. destruct Hd as [Ha Hb].
  rewrite Z.mul_1_l in Ha, Hb. subst a b. reflexivity.
Qed.

Lemma num_add_whole (a b : Z) :
  num_add (Fin (inject_Z a)) (Fin (inject_Z b)) = Fin (inject_Z (a + b)).
Proof. simpl. f_equal. apply Qred_inject_Z. rewrite inject_Z_plus. reflexivity. Qed.

Lemma num_sub_whole (q : Q) (a b : Z) :
  (q == inject_Z a)%Q ->
  num_sub (Fin q) (Fin (inject_Z b)) = Fin (inject_Z (a - b)).
Proof.
  intros H. unfold num_sub. simpl. f_equal. apply Qred_inject_Z.
  rewrite Qred_correct, H. unfold Z.sub. rewrite inject_Z_plus, inject_Z_opp. reflexivity.
Qed.

Lemma Qle_bool_whole (a b : Z) : Qle_bool (inject_Z a) (inject_Z b) = (a <=? b)%Z.
Proof. unfold Qle_bool. simpl. rewrite !Z.mul_1_r. reflexivity. Qed.

Lemma Math_min_whole (a b : Z) :
  Math_min (Fin (inject_Z a)) (Fin (inject_Z b)) = Fin (inject_Z (Z.min a b)).
Proof.
  unfold Math_min. simpl. rewrite Qle_bool_whole.
  destruct (Z.leb_spec a b); simpl; f_equal; f_equal; lia.
Qed.

Lemma Math_max_whole (a b : Z) :
  Math_max (Fin (inject_Z a)) (Fin (inject_Z b)) = Fin (inject_Z (Z.max a b)).
Proof.
  unfold Math_max. simpl. rewrite Qle_bool_whole.
  destruct (Z.leb_spec b a); simpl; f_equal; f_equal; lia.
Qed.

(** The editor accepts every whole line number of the document. *)
Lemma lineAt_whole (document : TextDocument) (z : Z) :
  (0 <= z < Z.of_nat (lineCount document))%Z ->
  exists text,
    lines document !! Z.to_nat z = Some text
    /\ lineAt document (Fin (inject_Z z))
       = Ok (text, {| range_line := Z.to_nat z; range_start := 0; range_end := length text |}).
Proof.
  intros [H0 Hlt]. unfold lineAt. rewrite Qfloor_Z.
  assert (Hq : Qeq_bool (inject_Z z) (inject_Z z) = true) by (apply Qeq_bool_iff; reflexivity).
  rewrite Hq. simpl.
  destruct (Z.leb_spec 0 z); [|lia]. destruct (Z.ltb_spec z (Z.of_nat (lineCount document))); [|lia].
  simpl. unfold lineCount in Hlt.
  assert (Hi : (Z.to_nat z < length (lines document))%nat) by lia.
  destruct (lookup_lt_is_Some_2 _ _ Hi) as [t Ht].
  assert (Hn : nth (Z.to_nat z) (lines document) ([] : list N) = t)
    by (apply nth_lookup_Some; exact Ht).
  rewrite Hn. eauto.
Qed.

(** X6.  For an issue whose line is a whole number, or is missing, [null],
    0 or another falsy value and then counts as 1, the mapper yields exactly
    [max(0, min(line - 1 + startLine, lineCount - 1))], a line that the
    editor accepts: a line inside the reviewed text maps to its place in
    the document, a line past the end to the last line, a line before the
    start to line 0, and the diagnostic covers that line from column 0 to
    its end. *)
Theorem whole_line_is_clamped
    (document : TextDocument) (issue l : value) (q : Q) (z : Z) (start : nat) :
  (0 < lineCount document)%nat ->
  get_prop issue (lit "line") = Ok l ->
  (truthy l = false /\ z = 1%Z) \/ (l = VNum (Fin q) /\ (q == inject_Z z)%Q /\ z <> 0%Z) ->
  let target := clamp_line z start (lineCount document) in
  absolute_line issue start document = Ok (Fin (inject_Z target))
  /\ (0 <= target < Z.of_nat (lineCount document))%Z
  /\ ((1 <= z)%Z -> (z + Z.of_nat start <= Z.of_nat (lineCount document))%Z ->
      target = (z - 1 + Z.of_nat start)%Z)
  /\ exists text,
       lines document !! Z.to_nat target = Some text
       /\ lineAt document (Fin (inject_Z target))
          = Ok (text, {| range_line := Z.to_nat target; range_start := 0;
                         range_end := length text |}).
Proof.
  intros Hlc Hl Hcase target.
  assert (Hrange : (0 <= target < Z.of_nat (lineCount document))%Z)
    by (unfold target, clamp_line; lia).
  split; [|split; [exact Hrange|split; [unfold target, clamp_line; lia|]]].
  - unfold absolute_line. rewrite Hl. cbn [mbind result_bind].
    assert (Hx : js_sub (js_or l (VNum (Fin 1))) (Fin 1) = Ok (Fin (inject_Z (z - 1)))).
    { unfold js_or. destruct Hcase as [[-> ->] | (-> & Hq & Hz)].
      - reflexivity.
      - assert (Ht : truthy (VNum (Fin q)) = true).
        { simpl. apply negb_true_iff. destruct (Qeq_bool q 0) eqn:E; [|reflexivity].
          apply Qeq_bool_iff in E. rewrite Hq in E. exfalso. apply Hz.
          unfold Qeq in E. simpl in E. lia. }
        rewrite Ht. unfold js_sub. simpl ToNumber. cbn [mbind result_bind].
        change (Fin 1) with (Fin (inject_Z 1)). rewrite (num_sub_whole q z 1 Hq).
        reflexivity. }
    rewrite Hx. cbn [mbind result_bind]. unfold num_of_nat.
    rewrite num_add_whole.
    change (Fin 1) with (Fin (inject_Z 1)).
    rewrite (num_sub_whole _ (Z.of_nat (lineCount document)) 1) by reflexivity.
    rewrite Math_min_whole.
    change (Fin 0) with (Fin (inject_Z 0)). rewrite Math_max_whole. reflexivity.
  - apply lineAt_whole. exact Hrange.
Qed.

(** Line 12 of a reply about the ten lines of the sample document is
    brought to its last line, line 9. *)
Lemma whole_line_is_clamped_witness :
  absolute_line (VObj [(lit "line", VNum (Fin 12))]) 0 sample_document
  = Ok (Fin (inject_Z 9)).
Proof.
  assert (Hlc : (0 < lineCount sample_document)%nat) by (vm_compute; lia).
  assert (Hl : get_prop (VObj [(lit "line", VNum (Fin 12))]) (lit "line")
               = Ok (VNum (Fin 12))) by reflexivity.
  assert (Hcase : (truthy (VNum (Fin 12)) = false /\ 12%Z = 1%Z)
                  \/ (VNum (Fin 12) = VNum (Fin 12)
                      /\ (12 == inject_Z 12)%Q /\ 12%Z <> 0%Z)).
  { right. split; [reflexivity|]. split; [reflexivity|discriminate]. }
  exact (proj1 (whole_line_is_clamped sample_document _ _ 12 12 0 Hlc Hl Hcase)).
Defined.

(** ** The parsed reply *)

(** X7.  The text that either expression matches starts with an opening
    bracket, so that [JSON.parse] makes an array of it or throws: on both
    review paths the value that [map] or [filter] is called on is an array,
    and neither call fails for the lack of the method. *)
Theorem matched_text_parses_to_array (t m : jsstring) (v : value) :
  re_greedy t = Some m \/ re_lazy t = Some m ->
  JSON_parse m = Ok v ->
  (exists l, v = VArr l)
  /\ (forall B (f : value -> result B), exists l, js_map f v = map_result f l)
  /\ (forall f, exists l, js_filter f v = filter_result f l).
Proof.
  intros Hre Hparse.
  assert (Hhead : exists m', m = 91 :: m').
  { destruct Hre as [Hre|Hre]; eapply bracket_match_head; exact Hre. }
  destruct Hhead as [m' ->].
  apply JSON_parse_bracket in Hparse as [l ->].
  split; [eauto|]. split; intros; exists l; reflexivity.
Qed.

(** The reply that is one array with a bracket inside a message: the
    full review parses the whole of it. *)
Lemma matched_text_parses_to_array_witness :
  re_greedy index_message_reply = Some index_message_reply
  /\ exists l, JSON_parse index_message_reply = Ok (VArr l).
Proof.
  assert (Hre : re_greedy index_message_reply = Some index_message_reply)
    by (vm_compute; reflexivity).
  split; [exact Hre|].
  destruct (JSON_parse index_message_reply) as [v|e] eqn:Hparse.
  - destruct (matched_text_parses_to_array index_message_reply index_message_reply v
                (or_introl Hre) Hparse) as ([l ->] & _).
    exists l. reflexivity.
  - vm_compute in Hparse. discriminate.
Defined.

(** ** The text of a fix *)

Lemma starts_with_app (p s t : jsstring) :
  starts_with p s = true -> starts_with p (s ++ t) = true.
Proof.
  revert s. induction p as [|c p IH]; intros s; [reflexivity|].
  destruct s as [|d s]; [discriminate|]. simpl.
  intros H. apply andb_true_iff in H as [-> H]. simpl. auto.
Qed.

Lemma includes_app_l (s t p : jsstring) :
  includes s p = true -> includes (s ++ t) p = true.
Proof.
  induction s as [|c s IH]; simpl.
  - rewrite orb_false_r. intros H. destruct p; [|discriminate].
    destruct t; reflexivity.
  - intros H. apply orb_true_iff in H as [H|H].
    + change (c :: s ++ t) with ((c :: s) ++ t).
      rewrite (starts_with_app _ _ _ H). reflexivity.
    + rewrite (IH H). apply orb_true_r.
Qed.

Lemma includes_app_r (s t p : jsstring) :
  includes t p = true -> includes (s ++ t) p = true.
Proof.
  intros H. induction s as [|c s IH]; [exact H|].
  simpl. rewrite IH. apply orb_true_r.
Qed.

(** A text without fence has none in any part of it. *)
Lemma includes_infix (pre s post p : jsstring) :
  includes (pre ++ s ++ post) p = false -> includes s p = false.
Proof.
  intros H. destruct (includes s p) eqn:E; [|reflexivity].
  rewrite (includes_app_r pre _ p (includes_app_l s post p E)) in H. discriminate.
Qed.

Lemma fence_units : fence = [96; 96; 96].
Proof. reflexivity. Qed.

(** A fence does not span a code unit that is no backtick. *)
Lemma includes_fence_sep (s t : jsstring) (c : N) :
  c <> 96 ->
  includes (s ++ c :: t) fence = includes s fence || includes t fence.
Proof.
  intros Hc. assert (Hc' : (96 =? c) = false) by (apply N.eqb_neq; congruence).
  assert (Hhead : forall s, starts_with fence (s ++ c :: t) = starts_with fence s).
  { intros s0. rewrite fence_units.
    destruct s0 as [|x [|y [|z s0]]]; cbn [starts_with app];
      rewrite ?Hc', ?andb_false_r; reflexivity. }
  induction s as [|x s IH].
  - simpl app. change (includes (c :: t) fence)
      with (starts_with fence (c :: t) || includes t fence).
    rewrite fence_units at 1. cbn [starts_with]. rewrite Hc'. reflexivity.
  - change (includes ((x :: s) ++ c :: t) fence)
      with (starts_with fence ((x :: s) ++ c :: t) || includes (s ++ c :: t) fence).
    rewrite Hhead, IH.
    change (includes (x :: s) fence) with (starts_with fence (x :: s) || includes s fence).
    rewrite orb_assoc. reflexivity.
Qed.

Lemma remove_fences_cons (a : N) (r : jsstring) :
  remove_fences (a :: r)
  = if starts_with [96; 96; 96] (a :: r) then remove_fences (drop 2 r)
    else a :: remove_fences r.
Proof.
  destruct r as [|b [|c r']]; cbn [remove_fences starts_with drop].
  - rewrite andb_false_r. reflexivity.
  - rewrite !andb_false_r. reflexivity.
  - rewrite (N.eqb_sym 96 a), (N.eqb_sym 96 b), (N.eqb_sym 96 c), andb_true_r, andb_assoc.
    reflexivity.
Qed.

(** What starts with no two backticks does not after the removal. *)
Lemma remove_fences_two (s : jsstring) :
  starts_with [96; 96] s = false -> starts_with [96; 96] (remove_fences s) = false.
Proof.
  destruct s as [|b [|c r]]; [reflexivity| |].
  - intros _. cbn [remove_fences starts_with]. apply andb_false_r.
  - cbn [starts_with]. rewrite andb_true_r. intros H.
    rewrite remove_fences_cons. cbn [starts_with].
    destruct (96 =? b) eqn:Eb; cbn [andb] in *.
    + rewrite H. cbn [andb starts_with]. rewrite Eb. cbn [andb].
      rewrite remove_fences_cons. cbn [starts_with]. rewrite H. cbn [andb starts_with].
      rewrite H. reflexivity.
    + cbn [starts_with]. rewrite Eb. reflexivity.
Qed.

(** After the removal no fence is left. *)
Lemma remove_fences_clean (s : jsstring) : includes (remove_fences s) fence = false.
Proof.
  rewrite fence_units.
  remember (length s) as n eqn:Hn. revert s Hn.
  induction n as [n IH] using lt_wf_ind. intros s Hn.
  destruct s as [|a r]; [reflexivity|].
  rewrite remove_fences_cons.
  destruct (starts_with [96; 96; 96] (a :: r)) eqn:H3.
  - apply (IH (length (drop 2 r))); [|reflexivity].
    subst n. rewrite length_drop. simpl. lia.
  - change (includes (a :: remove_fences r) [96; 96; 96])
      with (starts_with [96; 96; 96] (a :: remove_fences r)
            || includes (remove_fences r) [96; 96; 96]).
    rewrite (IH (length r)); [|subst n; simpl; lia|reflexivity].
    rewrite orb_false_r.
    cbn [starts_with] in *. destruct (96 =? a); [|reflexivity]. cbn [andb] in *.
    apply remove_fences_two. exact H3.
Qed.

(** [split] and [join] are inverse to each other on the text. *)
Lemma split_lines_nonempty (s : jsstring) : split_lines s <> [].
Proof.
  induction s as [|c s IH]; [discriminate|].
  simpl. destruct (c =? 10); [discriminate|].
  destruct (split_lines s); discriminate.
Qed.

Lemma join_split_lines (s : jsstring) : join_lines (split_lines s) = s.
Proof.
  induction s as [|c s IH]; [reflexivity|].
  simpl. destruct (N.eqb_spec c 10) as [->|Hc].
  - pose proof (split_lines_nonempty s) as Hne.
    destruct (split_lines s) as [|l ls]; [congruence|].
    change (join_lines ([] :: l :: ls)) with ([] ++ 10 :: join_lines (l :: ls)).
    rewrite IH. reflexivity.
  - pose proof (split_lines_nonempty s) as Hne.
    destruct (split_lines s) as [|l ls]; [congruence|].
    destruct ls as [|l' ls].
    + change (join_lines [l]) with l in IH. subst s. reflexivity.
    + change (join_lines ((c :: l) :: l' :: ls)) with ((c :: l) ++ 10 :: join_lines (l' :: ls)).
      change (join_lines (l :: l' :: ls)) with (l ++ 10 :: join_lines (l' :: ls)) in IH.
      subst s. reflexivity.
Qed.

Lemma join_lines_fence (ls : list jsstring) :
  includes (join_lines ls) fence = false
  <-> Forall (fun l => includes l fence = false) ls.
Proof.
  induction ls as [|l ls IH].
  - split; [constructor|reflexivity].
  - destruct ls as [|l' ls].
    + simpl. split; [intros H; repeat constructor; exact H|].
      intros H. apply Forall_cons in H as [H _]. exact H.
    + change (join_lines (l :: l' :: ls)) with (l ++ 10 :: join_lines (l' :: ls)).
      rewrite includes_fence_sep by discriminate.
      rewrite orb_false_iff, IH. split.
      * intros [H1 H2]. constructor; assumption.
      * intros H. apply Forall_cons in H. exact H.
Qed.

(** [trim] keeps a part of the text: what it drops in front and behind. *)
Lemma trim_start_suffix (s : jsstring) : exists pre, s = pre ++ trim_start s.
Proof.
  induction s as [|c s [pre IH]]; [exists []; reflexivity|].
  simpl. destruct (is_space c).
  - exists (c :: pre). simpl. congruence.
  - exists []. reflexivity.
Qed.

Lemma trim_infix (s : jsstring) : exists pre post, s = pre ++ trim s ++ post.
Proof.
  unfold trim. destruct (trim_start_suffix s) as [pre Hpre].
  destruct (trim_start_suffix (rev (trim_start s))) as [pre2 Hpre2].
  exists pre, (rev pre2). rewrite <- rev_app_distr, <- Hpre2, rev_involutive. exact Hpre.
Qed.

Lemma trim_start_head (s r : jsstring) (c : N) :
  trim_start s = c :: r -> is_space c = false.
Proof.
  induction s as [|d s IH]; [discriminate|].
  simpl. destruct (is_space d) eqn:E; [exact IH|].
  intros [= <- <-]. exact E.
Qed.

(** What [trim] returns neither starts nor ends with white space. *)
Lemma trim_trimmed (s : jsstring) : trimmed (trim s) = true.
Proof.
  unfold trim.
  destruct (trim_start (rev (trim_start s))) as [|d v] eqn:Hv; [reflexivity|].
  pose proof (trim_start_head _ _ _ Hv) as Hd.
  destruct (trim_start_suffix (rev (trim_start s))) as [pre2 Hpre2].
  rewrite Hv in Hpre2.
  assert (Hu : trim_start s = rev (d :: v) ++ rev pre2).
  { rewrite <- rev_app_distr, <- Hpre2, rev_involutive. reflexivity. }
  destruct (rev (d :: v)) as [|c w] eqn:Hw.
  { apply (f_equal (@length N)) in Hw. rewrite length_rev in Hw. discriminate. }
  unfold trimmed.
  assert (Hc : is_space c = false).
  { simpl in Hu. eapply trim_start_head. exact Hu. }
  rewrite Hc. cbn [negb andb].
  assert (Hlast : List.last (c :: w) c = d).
  { rewrite <- Hw. simpl. apply last_last. }
  rewrite Hlast, Hd. reflexivity.
Qed.

(** The text that [applyAIFix] puts into the document holds no fence and
    neither starts nor ends with white space. *)
Lemma clean_fix_clean (fixedCode : jsstring) :
  includes (clean_fix fixedCode) fence = false /\ trimmed (clean_fix fixedCode) = true.
Proof.
  unfold clean_fix. split; [|apply trim_trimmed].
  set (ls := List.filter _ _).
  destruct (trim_infix (join_lines ls)) as (pre & post & Heq).
  apply (includes_infix pre _ post). rewrite <- Heq.
  apply join_lines_fence. unfold ls.
  apply Forall_forall. intros l Hl. apply list_elem_of_In, filter_In in Hl as [Hl _].
  assert (Hall : Forall (fun l => includes l fence = false)
                   (split_lines (remove_fences fixedCode))).
  { apply join_lines_fence. rewrite join_split_lines. apply remove_fences_clean. }
  rewrite Forall_forall in Hall. apply Hall, list_elem_of_In. exact Hl.
Qed.

Lemma remove_fences_plain (s r : jsstring) :
  96 ∉ s -> remove_fences (s ++ r) = s ++ remove_fences r.
Proof.
  induction s as [|a s IH]; [reflexivity|].
  intros Hs. apply not_elem_of_cons in Hs as [Ha Hs].
  change ((a :: s) ++ r) with (a :: s ++ r). rewrite remove_fences_cons.
  cbn [starts_with]. destruct (N.eqb_spec 96 a) as [Heq|_]; [contradiction|].
  cbn [andb]. rewrite (IH Hs). reflexivity.
Qed.

Lemma remove_fences_fence (r : jsstring) : remove_fences (fence ++ r) = remove_fences r.
Proof. rewrite fence_units. reflexivity. Qed.

Lemma split_lines_line (p r : jsstring) :
  10 ∉ p -> split_lines (p ++ 10 :: r) = p :: split_lines r.
Proof.
  induction p as [|c p IH]; [reflexivity|].
  intros Hp. apply not_elem_of_cons in Hp as [Hc Hp].
  simpl. destruct (N.eqb_spec c 10) as [Heq|_]; [congruence|].
  rewrite (IH Hp). reflexivity.
Qed.

Lemma split_lines_single (p : jsstring) : 10 ∉ p -> split_lines p = [p].
Proof.
  induction p as [|c p IH]; [reflexivity|].
  intros Hp. apply not_elem_of_cons in Hp as [Hc Hp].
  simpl. destruct (N.eqb_spec c 10) as [Heq|_]; [congruence|].
  rewrite (IH Hp). reflexivity.
Qed.

(** A run of lowercase letters holds neither a backtick nor a line
    feed. *)
Lemma lowercase_plain (l : jsstring) :
  forallb (fun c => (97 <=? c) && (c <=? 122)) l = true -> (96 ∉ l) /\ (10 ∉ l).
Proof.
  induction l as [|c l IH]; simpl.
  - intros _. split; apply not_elem_of_nil.
  - intros H. apply andb_true_iff in H as [Hc H]. destruct (IH H) as [H1 H2].
    apply andb_true_iff in Hc as [Hlo _]. apply N.leb_le in Hlo.
    split; apply not_elem_of_cons; (split; [lia|assumption]).
Qed.

Lemma trim_start_spaces (pre s : jsstring) :
  forallb is_space pre = true -> trim_start (pre ++ s) = trim_start s.
Proof.
  induction pre as [|c pre IH]; [reflexivity|].
  simpl. intros H. apply andb_true_iff in H as [-> H]. auto.
Qed.

Lemma forallb_rev {A} (f : A -> bool) (l : list A) : forallb f (rev l) = forallb f l.
Proof.
  induction l as [|x l IH]; [reflexivity|].
  simpl. rewrite forallb_app, IH. simpl. rewrite andb_true_r. apply andb_comm.
Qed.

(** [trim] removes the white space around a text that has none at its
    ends. *)
Lemma trim_around (pre s post : jsstring) :
  s <> [] -> trimmed s = true ->
  forallb is_space pre = true -> forallb is_space post = true ->
  trim (pre ++ s ++ post) = s.
Proof.
  intros Hne Ht Hpre Hpost. unfold trim.
  destruct s as [|c r]; [congruence|].
  unfold trimmed in Ht. apply andb_true_iff in Ht as [Hc Hlast].
  apply negb_true_iff in Hc. apply negb_true_iff in Hlast.
  rewrite trim_start_spaces by assumption.
  change (trim_start ((c :: r) ++ post)) with (trim_start (c :: r ++ post)).
  cbn [trim_start]. rewrite Hc.
  change (c :: r ++ post) with ((c :: r) ++ post).
  rewrite rev_app_distr.
  rewrite trim_start_spaces by (rewrite forallb_rev; assumption).
  destruct (exists_last (l := c :: r)) as (l' & x & Hl); [discriminate|].
  rewrite Hl in *. rewrite last_last in Hlast.
  rewrite rev_app_distr. cbn [rev app trim_start]. rewrite Hlast.
  change (x :: rev l') with ([x] ++ rev l').
  rewrite <- (rev_involutive l') at 2.
  rewrite rev_app_distr, rev_involutive. reflexivity.
Qed.

(** X8.  Whatever the reply to a fix request holds, the text that
    [applyAIFix] sends to the editor contains no code fence and neither
    starts nor ends with white space; the edit replaces the range of the
    diagnostic, and at most one edit is sent. *)
Theorem fix_edit_is_clean
    (document : TextDocument) (diagnostic : Diagnostic) (apiKey : option jsstring)
    (response : result value) (activeTextEditor : option string) (σ : State) :
  let σ' := applyAIFix document diagnostic apiKey response activeTextEditor σ in
  edits σ' = edits σ
  \/ exists t,
       edits σ' = edits σ ++ [(uri document, range diagnostic, t)]
       /\ includes t fence = false
       /\ trimmed t = true.
Proof.
  unfold applyAIFix. destruct apiKey as [key|]; [|left; reflexivity].
  destruct (lineAt document _) as [line|e]; [|left; reflexivity]. simpl.
  destruct response as [r|e]; [|left; reflexivity]. simpl.
  destruct (fixed_text r) as [fixedCode|e]; [|left; reflexivity]. simpl.
  destruct activeTextEditor as [d|]; [|left; reflexivity].
  destruct (String.eqb d (uri document)); [|left; reflexivity].
  right. exists (clean_fix fixedCode). split; [reflexivity|]. apply clean_fix_clean.
Qed.

(** X9.  A reply that is the fixed line alone, as the prompt asks for it,
    or the fixed line in a fenced block with or without a language tag in
    lowercase letters, yields that line: for a line without backtick and
    line feed that neither starts nor ends with white space and does not
    consist of lowercase letters only. *)
Theorem fix_line_is_recovered (lang code : jsstring) :
  forallb (fun c => (97 <=? c) && (c <=? 122)) lang = true ->
  code <> [] ->
  trimmed code = true ->
  96 ∉ code ->
  10 ∉ code ->
  is_language_name code = false ->
  clean_fix code = code
  /\ clean_fix (fence ++ lang ++ [10] ++ code ++ [10] ++ fence) = code.
Proof.
  intros Hlang Hne Htrim Htick Hnl Hname. split.
  - unfold clean_fix.
    rewrite <- (app_nil_r code) at 1. rewrite remove_fences_plain by assumption.
    change (remove_fences []) with (@nil N). rewrite app_nil_r.
    rewrite split_lines_single by assumption. simpl List.filter. rewrite Hname.
    simpl. rewrite <- (app_nil_r code) at 1. apply (trim_around [] code []); auto.
  - destruct (lowercase_plain lang Hlang) as [Hlt Hln].
    unfold clean_fix. rewrite remove_fences_fence.
    replace (lang ++ [10] ++ code ++ [10] ++ fence)
      with ((lang ++ 10 :: code ++ [10]) ++ fence ++ [])
      by (rewrite app_nil_r, <- app_assoc; cbn [app]; rewrite <- app_assoc; reflexivity).
    rewrite remove_fences_plain.
    2:{ rewrite not_elem_of_app, not_elem_of_cons, not_elem_of_app, not_elem_of_cons.
        repeat split; auto; try discriminate. apply not_elem_of_nil. }
    rewrite remove_fences_fence. change (remove_fences []) with (@nil N).
    rewrite app_nil_r.
    rewrite split_lines_line by assumption.
    rewrite split_lines_line by assumption.
    change (split_lines []) with [@nil N].
    cbn [List.filter]. rewrite Hname. cbn [negb].
    change (is_language_name []) with false. cbn [negb].
    destruct lang as [|c lang'].
    + change (is_language_name []) with false. cbn [negb].
      change (join_lines [[]; code; []]) with ([10] ++ code ++ [10]).
      apply trim_around; auto.
    + assert (Hl : is_language_name (c :: lang') = true) by exact Hlang.
      rewrite Hl. cbn [negb].
      change (join_lines [code; []]) with (code ++ [10]).
      apply (trim_around [] code [10]); auto.
Qed.

(** The fix in a block fenced as JavaScript. *)
Lemma fix_line_is_recovered_witness :
  clean_fix fixed_line = fixed_line /\ clean_fix fenced_fix = fixed_line.
Proof.
  apply (fix_line_is_recovered (lit "javascript") fixed_line).
  - vm_compute. reflexivity.
  - discriminate.
  - vm_compute. reflexivity.
  - decide_by_computation.
  - decide_by_computation.
  - vm_compute. reflexivity.
Defined.

(** X10.  A line of the reply that consists of lowercase letters only is
    taken for a language tag and dropped, also when it is the fix itself: a
    fix that is one such word, [break] for one, leaves the empty text, and
    the edit replaces the line of the diagnostic by nothing. *)
Theorem lowercase_fix_is_dropped (word : jsstring) :
  is_language_name word = true -> clean_fix word = [].
Proof.
  intros Hname.
  assert (Hlow : forallb (fun c => (97 <=? c) && (c <=? 122)) word = true).
  { unfold is_language_name in Hname. destruct word; [discriminate|exact Hname]. }
  destruct (lowercase_plain word Hlow) as [Htick Hnl].
  unfold clean_fix.
  rewrite <- (app_nil_r word) at 1. rewrite remove_fences_plain by assumption.
  change (remove_fences []) with (@nil N). rewrite app_nil_r.
  rewrite split_lines_single by assumption. simpl List.filter. rewrite Hname.
  reflexivity.
Qed.

Lemma lowercase_fix_is_dropped_witness : clean_fix (lit "break") = [].
Proof. apply (lowercase_fix_is_dropped (lit "break")). vm_compute. reflexivity. Defined.

(** ** The context of a fix request *)

Lemma line_index_whole (z : Z) : (0 <= z)%Z -> line_index (Fin (inject_Z z)) = Ok (Z.to_nat z).
Proof.
  intros H. unfold line_index. rewrite Qfloor_Z.
  assert (Hq : Qeq_bool (inject_Z z) (inject_Z z) = true) by (apply Qeq_bool_iff; reflexivity).
  rewrite Hq. destruct (Z.leb_spec 0 z); [reflexivity|lia].
Qed.

(** X11.  For a diagnostic on a line of the document, [applyAIFix] builds
    its prompt from the text of that line and from a context that is made
    of the lines from 5 before it (or from line 0) up to, but not including,
    the line 5 after it (or the last line of the document), each with its
    line terminator: at most 10 lines, which never include the last line of
    the document.  For a diagnostic on the last line, the context ends
    before the line of the diagnostic. *)
Theorem fix_context_window
    (document : TextDocument) (eol : jsstring) (diagnostic : Diagnostic) :
  let line := range_line (range diagnostic) in
  let first := (line - 5)%nat in
  let last := Nat.min (lineCount document - 1) (line + 5) in
  (line < lineCount document)%nat ->
  (exists lineText,
     lines document !! line = Some lineText
     /\ fix_context document eol diagnostic
        = Ok (lineText,
              concat ((fun l => l ++ eol)
                        <$> take (last - first) (drop first (lines document)))))
  /\ (first <= line <= last)%nat
  /\ (last < lineCount document)%nat
  /\ (last - first <= 10)%nat
  /\ (line = last <-> S line = lineCount document).
Proof.
  intros line first last Hline.
  split; [|unfold first, last; lia].
  destruct (lineAt_whole document (Z.of_nat line)) as (text & Htext & Hat); [lia|].
  rewrite Nat2Z.id in Htext. exists text. split; [exact Htext|].
  unfold fix_context. fold line. unfold num_of_nat. rewrite Hat.
  cbn [mbind result_bind].
  change (Fin 5) with (Fin (inject_Z 5)). change (Fin 1) with (Fin (inject_Z 1)).
  change (Fin 0) with (Fin (inject_Z 0)).
  rewrite (num_sub_whole _ (Z.of_nat line) 5) by reflexivity.
  rewrite (num_sub_whole _ (Z.of_nat (lineCount document)) 1) by reflexivity.
  rewrite num_add_whole, Math_max_whole, Math_min_whole.
  unfold getText_lines.
  rewrite !line_index_whole by lia. cbn [mbind result_bind].
  replace (Z.to_nat (Z.max 0 (Z.of_nat line - 5))) with first by (unfold first; lia).
  replace (Z.to_nat (Z.min (Z.of_nat (lineCount document) - 1) (Z.of_nat line + 5)))
    with last by (unfold last; lia).
  reflexivity.
Qed.

(** A diagnostic on the last line of the sample document: the context is
    the five lines before it. *)
Lemma fix_context_window_witness :
  fix_context sample_document [10]
    {| ident := 0;
       range := {| range_line := 9; range_start := 0; range_end := 27 |};
       message := VStr (lit "Null pointer dereference risk");
       severity := Error;
       source := Some (lit "AI Copilot") |}
  = Ok (lit "const total = items.length;",
        concat (replicate 5 (lit "const total = items.length;" ++ [10]))).
Proof.
  destruct (fix_context_window sample_document [10]
              {| ident := 0;
                 range := {| range_line := 9; range_start := 0; range_end := 27 |};
                 message := VStr (lit "Null pointer dereference risk");
                 severity := Error;
                 source := Some (lit "AI Copilot") |})
    as ((lineText & Htext & Hctx) & _).
  - vm_compute. lia.
  - rewrite Hctx. vm_compute in Htext. injection Htext as <-. vm_compute. reflexivity.
Defined.

(** ** The API key *)

Lemma absent_false (apiKey : option jsstring) :
  absent apiKey = false -> exists c r, apiKey = Some (c :: r).
Proof. destruct apiKey as [[|c r]|]; try discriminate. eauto. Qed.

(** [getApiKey] does not touch the state of the reviews. *)
Lemma getApiKey_reviews (entered : option jsstring) (w : Workspace) :
  reviews (getApiKey entered w).2 = reviews w.
Proof.
  unfold getApiKey. destruct (absent (apiKeySetting w)); [|reflexivity].
  destruct (absent entered); reflexivity.
Qed.

(** X12.  [getApiKey] returns [null] or a key that is not empty.  When it
    returns a key, the setting holds that key afterwards, and every later
    call returns the same key without showing a message or changing
    anything, whatever the input box would resolve to.  When it returns
    [null], the setting is what it was and the error message is shown. *)
Theorem getApiKey_remembers (entered : option jsstring) (w : Workspace) :
  (forall key w1,
     getApiKey entered w = (Some key, w1) ->
     key <> []
     /\ apiKeySetting w1 = Some key
     /\ forall entered', getApiKey entered' w1 = (Some key, w1))
  /\ (forall w1,
        getApiKey entered w = (None, w1) ->
        absent (apiKeySetting w) = true
        /\ absent entered = true
        /\ apiKeySetting w1 = apiKeySetting w
        /\ notices w1 = notices w ++ [ErrorApiKeyRequired]).
Proof.
  unfold getApiKey. split.
  - intros key w1.
    destruct (absent (apiKeySetting w)) eqn:Hs.
    + destruct (absent entered) eqn:He; [discriminate|].
      intros [= -> <-]. apply absent_false in He as (c & r & [= ->]).
      split; [discriminate|]. split; [reflexivity|]. reflexivity.
    + intros [= Hk <-]. destruct (absent_false _ Hs) as (c & r & Hcr).
      rewrite Hcr in Hk. injection Hk as <-.
      split; [discriminate|]. split; [exact Hcr|].
      intros entered'. rewrite Hs, Hcr. reflexivity.
  - intros w1.
    destruct (absent (apiKeySetting w)) eqn:Hs.
    + destruct (absent entered) eqn:He.
      * intros [= <-]. auto.
      * intros [= Hk _]. apply absent_false in He as (c & r & ->). discriminate.
    + intros [= Hk _]. apply absent_false in Hs as (c & r & Hcr). congruence.
Qed.

(** The key that the first command of a session asks for is there for the
    next call. *)
Lemma getApiKey_remembers_witness :
  getApiKey None (getApiKey (Some sample_key) (activated None)).2
  = (Some sample_key, (getApiKey (Some sample_key) (activated None)).2).
Proof.
  destruct (getApiKey_remembers (Some sample_key) (activated None)) as [Hkey _].
  destruct (Hkey sample_key (getApiKey (Some sample_key) (activated None)).2 eq_refl)
    as (_ & _ & Hlater).
  exact (Hlater None).
Defined.

(** ** The states that the commands reach *)

Lemma from_reviews_same (σ σ' : State) :
  diagnosticCollection σ' = diagnosticCollection σ -> from_reviews σ -> from_reviews σ'.
Proof. intros Hd Hinv u ds Hu. rewrite Hd in Hu. exact (Hinv u ds Hu). Qed.

Lemma from_reviews_insert (σ σ' : State) (u : string) (ds : list Diagnostic) :
  diagnosticCollection σ' = <[u := ds]> (diagnosticCollection σ) ->
  Forall (fun d => source d = Some (lit "AI Copilot") /\ range_start (range d) = 0%nat) ds ->
  from_reviews σ -> from_reviews σ'.
Proof.
  intros Hd Hds Hinv v ds' Hv. rewrite Hd in Hv.
  destruct (decide (u = v)) as [->|Hne].
  - rewrite lookup_insert_eq in Hv. injection Hv as <-. exact Hds.
  - rewrite lookup_insert_ne in Hv by assumption. exact (Hinv v ds' Hv).
Qed.

Lemma covers_line_start (document : TextDocument) (r : Range) :
  covers_line document r -> range_start r = 0%nat.
Proof. intros (text & _ & H & _). exact H. Qed.

Lemma reviewCode_from_reviews
    (document : TextDocument) (start : nat) (apiKey : option jsstring)
    (response : result value) (σ : State) :
  from_reviews σ -> from_reviews (reviewCode document start apiKey response σ).
Proof.
  intros Hinv.
  destruct (reviewCode_cases document start apiKey response σ)
    as (_ & [(_ & Heq) | [(key & e & _ & _ & Hd & _)
                         | (key & r & l & _ & _ & Hout & Hd & _)]]).
  - simpl in Heq. rewrite Heq. exact Hinv.
  - exact (from_reviews_same _ _ Hd Hinv).
  - apply (from_reviews_insert _ _ _ _ Hd); [|exact Hinv].
    eapply Forall_impl;
      [apply (allocate_Forall
                (fun r m s => covers_line document r /\ ToString_throws m = false));
       eapply review_output_entries; exact Hout|].
    simpl. intros d [[Hc _] Hs]. split; [exact Hs|]. eapply covers_line_start. exact Hc.
Qed.

Lemma quickReviewSelection_from_reviews
    (document : TextDocument) (code : jsstring) (start : nat) (apiKey : option jsstring)
    (response : result value) (σ : State) :
  from_reviews σ ->
  from_reviews (quickReviewSelection document code start apiKey response σ).
Proof.
  intros Hinv.
  destruct (quickReviewSelection_cases document code start apiKey response σ)
    as (_ & [(_ & _ & Heq) | [(Hd & _)
                             | (key & r & l & _ & _ & _ & Hout & _ & Hd & _)]]).
  - simpl in Heq. rewrite Heq. exact Hinv.
  - exact (from_reviews_same _ _ Hd Hinv).
  - apply (from_reviews_insert _ _ _ _ Hd); [|exact Hinv].
    apply Forall_app. split.
    + unfold diagnostics_of, collection_get.
      destruct (diagnosticCollection σ !! uri document) as [ds|] eqn:E; [|constructor].
      exact (Hinv _ _ E).
    + eapply Forall_impl;
        [apply (allocate_Forall
                  (fun r m s => covers_line document r /\ substantial m
                                /\ (s = Error \/ s = Warning)));
         eapply quick_output_entries; exact Hout|].
      simpl. intros d [[Hc _] Hs]. split; [exact Hs|]. eapply covers_line_start. exact Hc.
Qed.

Lemma applyAIFix_from_reviews
    (document : TextDocument) (diagnostic : Diagnostic) (apiKey : option jsstring)
    (response : result value) (editor : option string) (σ : State) :
  from_reviews σ ->
  from_reviews (applyAIFix document diagnostic apiKey response editor σ).
Proof.
  intros Hinv. unfold applyAIFix. destruct apiKey as [k|]; [|exact Hinv].
  destruct (lineAt _ _ ≫= _) as [fixedCode|e]; [|exact Hinv].
  destruct editor as [d|]; [|exact Hinv].
  destruct (String.eqb d (uri document)); [|exact Hinv].
  eapply from_reviews_insert; [reflexivity| |exact Hinv].
  unfold collection_get. simpl.
  destruct (diagnosticCollection σ !! uri document) as [ds|] eqn:E; simpl; [|constructor].
  pose proof (Hinv _ _ E) as Hds. rewrite Forall_forall in Hds. apply Forall_forall.
  intros x Hx. apply list_elem_of_In, filter_In in Hx as [Hx _].
  apply Hds, list_elem_of_In. exact Hx.
Qed.

Lemma sound_with_reviews (f : State -> State) (w : Workspace) :
  (forall σ, distinct_objects σ -> distinct_objects (f σ)) ->
  (forall σ, from_reviews σ -> from_reviews (f σ)) ->
  sound w -> sound (with_reviews f w).
Proof. intros Hd Hf [H1 H2]. split; simpl; auto. Qed.

Lemma sound_getApiKey (entered : option jsstring) (w : Workspace) :
  sound w -> sound (getApiKey entered w).2.
Proof. unfold sound. rewrite getApiKey_reviews. auto. Qed.

Lemma sound_reviewCode_command
    (document : TextDocument) (start : nat) (entered : option jsstring)
    (response : result value) (w : Workspace) :
  sound w -> sound (reviewCode_command document start entered response w).
Proof.
  intros Hw. unfold reviewCode_command.
  pose proof (sound_getApiKey entered w Hw) as Hw1.
  destruct (getApiKey entered w) as [apiKey w1]. simpl in Hw1.
  apply sound_with_reviews; [| |exact Hw1]; intros σ.
  - apply reviewCode_distinct.
  - apply reviewCode_from_reviews.
Qed.

Lemma sound_reviewDocument
    (document : TextDocument) (entered : option jsstring)
    (response : result value) (w : Workspace) :
  sound w -> sound (reviewDocument document entered response w).
Proof.
  intros Hw. unfold reviewDocument. destruct (negb _); [exact Hw|].
  apply sound_reviewCode_command. exact Hw.
Qed.

(** Every command keeps the diagnostics distinct objects that a review
    constructed. *)
Lemma sound_execute (c : Command) (w : Workspace) : sound w -> sound (execute c w).
Proof.
  intros Hw. destruct c as [editor entered response|editor entered response
                           |document code start entered response
                           |document diagnostic entered response active
                           | |reviewOnSave doc entered response]; simpl.
  - unfold reviewCurrentFile. destruct editor as [e|]; [|exact Hw].
    apply sound_reviewDocument. exact Hw.
  - unfold reviewSelectedCode. destruct editor as [e|]; [|exact Hw].
    destruct (selection_text e); [exact Hw|].
    apply sound_reviewCode_command. exact Hw.
  - unfold quickReviewSelection_command. destruct code as [|c code']; [exact Hw|].
    pose proof (sound_getApiKey entered w Hw) as Hw1.
    destruct (getApiKey entered w) as [apiKey w1]. simpl in Hw1.
    apply sound_with_reviews; [| |exact Hw1]; intros σ.
    + apply quickReviewSelection_distinct.
    + apply quickReviewSelection_from_reviews.
  - unfold applyAIFix_command.
    pose proof (sound_getApiKey entered w Hw) as Hw1.
    destruct (getApiKey entered w) as [apiKey w1]. simpl in Hw1.
    apply sound_with_reviews; [| |exact Hw1]; intros σ.
    + apply applyAIFix_distinct.
    + apply applyAIFix_from_reviews.
  - split; intros u ds Hu; change (diagnosticCollection (reviews (clearDiagnostics w)))
      with (∅ : gmap string (list Diagnostic)) in Hu;
      rewrite lookup_empty in Hu; discriminate.
  - unfold onDidSaveTextDocument. destruct reviewOnSave; [|exact Hw].
    apply sound_reviewDocument. exact Hw.
Qed.

Lemma sound_execute_all (cs : list Command) (w : Workspace) :
  sound w -> sound (execute_all cs w).
Proof.
  revert w. induction cs as [|c cs IH]; intros w Hw; [exact Hw|].
  simpl. apply IH, sound_execute, Hw.
Qed.

Lemma sound_activated (apiKey : option jsstring) : sound (activated apiKey).
Proof. split; intros u ds Hu; simpl in Hu; rewrite lookup_empty in Hu; discriminate. Qed.

(** X13.  In every state that a sequence of reviews, quick reviews, fixes,
    clearings and saves reaches from the activation of the extension,
    whatever the replies, the diagnostics of each document are distinct
    objects, and each of them has the source "AI Copilot" and starts at
    column 0 of its line. *)
Theorem reachable_diagnostics_are_distinct
    (cs : list Command) (apiKey : option jsstring) (u : string) :
  let σ := reviews (execute_all cs (activated apiKey)) in
  NoDup (ident <$> diagnostics_of u σ)
  /\ Forall (fun d => source d = Some (lit "AI Copilot") /\ range_start (range d) = 0%nat)
       (diagnostics_of u σ).
Proof.
  destruct (sound_execute_all cs (activated apiKey) (sound_activated apiKey)) as [Hd Hf].
  simpl. unfold diagnostics_of, collection_get.
  destruct (diagnosticCollection _ !! u) as [ds|] eqn:E; simpl.
  - split; [apply (Hd _ _ E) | apply (Hf _ _ E)].
  - split; constructor.
Qed.

(** ** The quick fixes *)

Lemma provideCodeActions_filter (document : TextDocument) (ds : list Diagnostic) :
  provideCodeActions document ds = fix_for document <$> List.filter is_ai_copilot ds.
Proof.
  unfold provideCodeActions.
  assert (H : forall acc,
             fold_left
               (fun codeActions diagnostic =>
                  if is_ai_copilot diagnostic then
                    codeActions ++ [{| command := "aiCopilotReviewer.applyAIFix";
                                       arguments := (document, diagnostic);
                                       diagnostics := [diagnostic];
                                       isPreferred := true |}]
                  else codeActions) ds acc
             = acc ++ (fix_for document <$> List.filter is_ai_copilot ds)).
  { induction ds as [|d ds IH]; intros acc; simpl.
    - rewrite app_nil_r. reflexivity.
    - rewrite IH. destruct (is_ai_copilot d); [|reflexivity].
      simpl. rewrite <- app_assoc. reflexivity. }
  apply (H []).
Qed.

Lemma filter_all {A} (f : A -> bool) (l : list A) :
  Forall (fun x => f x = true) l -> List.filter f l = l.
Proof.
  induction 1 as [|x l Hx _ IH]; [reflexivity|].
  simpl. rewrite Hx, IH. reflexivity.
Qed.

(** X14.  [provideCodeActions] offers one fix for each diagnostic of the
    context whose source is "AI Copilot", in their order, and none for a
    diagnostic of another source; the command of the fix is [applyAIFix]
    on the document and that diagnostic.  In every state that the commands
    on the diagnostic collection reach, each diagnostic of a document gets
    its fix. *)
Theorem every_diagnostic_gets_its_fix
    (cs : list Command) (apiKey : option jsstring) (document : TextDocument)
    (context_diagnostics : list Diagnostic) :
  provideCodeActions document context_diagnostics
  = fix_for document <$> List.filter is_ai_copilot context_diagnostics
  /\ (let ds := diagnostics_of (uri document)
                  (reviews (execute_all cs (activated apiKey))) in
      provideCodeActions document ds = fix_for document <$> ds).
Proof.
  split; [apply provideCodeActions_filter|].
  simpl. rewrite provideCodeActions_filter. f_equal. apply filter_all.
  destruct (sound_execute_all cs (activated apiKey) (sound_activated apiKey)) as [_ Hf].
  unfold diagnostics_of, collection_get.
  destruct (diagnosticCollection _ !! uri document) as [ds|] eqn:E; simpl; [|constructor].
  eapply Forall_impl; [exact (Hf _ _ E)|].
  simpl. intros d [Hs _]. unfold is_ai_copilot. rewrite Hs. apply str_eqb_refl.
Qed.

(** Among distinct objects, two diagnostics with the same identity are the
    same diagnostic. *)
Lemma same_ident (ds : list Diagnostic) (d d' : Diagnostic) :
  NoDup (ident <$> ds) -> d ∈ ds -> d' ∈ ds -> ident d = ident d' -> d = d'.
Proof.
  induction ds as [|x ds IH]; intros Hnd Hd Hd' Heq; [inversion Hd|].
  simpl in Hnd. apply NoDup_cons in Hnd as [Hx Hnd].
  apply elem_of_cons in Hd as [Hd|Hd]; apply elem_of_cons in Hd' as [Hd'|Hd'].
  - congruence.
  - exfalso. apply Hx. subst x. rewrite Heq. apply list_elem_of_fmap. eauto.
  - exfalso. apply Hx. subst x. rewrite <- Heq. apply list_elem_of_fmap. eauto.
  - auto.
Qed.

(** X15.  In every state that the commands on the diagnostic collection
    reach, the fix of a diagnostic that the document has, run with a key, a line that the document still
    has, a reply from which the text is read and the document in the
    active editor, removes that diagnostic and no other: the document has
    one diagnostic fewer, the fixed one is gone, and every other one stays,
    also one that says the same. *)
Theorem offered_fix_removes_its_diagnostic
    (cs : list Command) (apiKey entered : option jsstring)
    (document : TextDocument) (diagnostic : Diagnostic)
    (response : value) (line : jsstring * Range) (fixedCode : jsstring) :
  let w := execute_all cs (activated apiKey) in
  let w' := applyAIFix_command document diagnostic entered (Ok response)
              (Some (uri document)) w in
  diagnostic ∈ diagnostics_of (uri document) (reviews w) ->
  absent (apiKeySetting w) = false \/ absent entered = false ->
  lineAt document (num_of_nat (range_line (range diagnostic))) = Ok line ->
  fixed_text response = Ok fixedCode ->
  S (length (diagnostics_of (uri document) (reviews w')))
  = length (diagnostics_of (uri document) (reviews w))
  /\ (diagnostic ∉ diagnostics_of (uri document) (reviews w'))
  /\ (forall d, d ∈ diagnostics_of (uri document) (reviews w) -> d <> diagnostic ->
        d ∈ diagnostics_of (uri document) (reviews w'))
  /\ edits (reviews w')
     = edits (reviews w) ++ [(uri document, range diagnostic, clean_fix fixedCode)].
Proof.
  intros w w' Hin Hkey Hline Hfix.
  destruct (sound_execute_all cs (activated apiKey) (sound_activated apiKey)) as [Hd _].
  fold w in Hd.
  assert (Hw' : exists key w1,
             reviews w1 = reviews w
             /\ reviews w' = applyAIFix document diagnostic (Some key) (Ok response)
                               (Some (uri document)) (reviews w1)).
  { unfold w', applyAIFix_command. pose proof (getApiKey_reviews entered w) as Hr.
    unfold getApiKey in *.
    destruct (absent (apiKeySetting w)) eqn:Hs.
    - destruct Hkey as [Hkey|Hkey]; [discriminate|]. rewrite Hkey in *.
      apply absent_false in Hkey as (c & r & ->). simpl in *. eauto.
    - apply absent_false in Hs as (c & r & ->). simpl in *. eauto. }
  destruct Hw' as (key & w1 & Hw1 & ->). rewrite Hw1.
  destruct (applyAIFix_applied document diagnostic key response line fixedCode (reviews w)
              Hline Hfix) as (Hf & _ & He & _).
  rewrite Hf.
  assert (Hnd : NoDup (ident <$> diagnostics_of (uri document) (reviews w))).
  { unfold diagnostics_of, collection_get in *.
    destruct (diagnosticCollection (reviews w) !! uri document) as [ds|] eqn:E; simpl in *.
    - apply (Hd _ _ E).
    - constructor. }
  split; [apply filter_removes_one; assumption|].
  split; [|split; [|exact He]].
  - rewrite list_elem_of_In, filter_In. intros [_ H].
    rewrite Nat.eqb_refl in H. discriminate.
  - intros d Hdin Hne. apply list_elem_of_In, filter_In. split.
    + apply list_elem_of_In. exact Hdin.
    + apply negb_true_iff, Nat.eqb_neq. intros Heq. apply Hne.
      eapply same_ident; eassumption.
Qed.

(** The fix of the second of the three diagnostics that the sample session
    leaves, the third of which says the same. *)
Lemma offered_fix_removes_its_diagnostic_witness :
  ident <$> diagnostics_of (uri sample_document) (reviews sample_workspace) = [0; 1; 2]%nat
  /\ length (diagnostics_of (uri sample_document)
               (reviews (applyAIFix_command sample_document recursion_diagnostic None
                           (Ok direct_fix_response) (Some (uri sample_document))
                           sample_workspace))) = 2%nat.
Proof.
  split; [vm_compute; reflexivity|].
  assert (Hin : recursion_diagnostic
                  ∈ diagnostics_of (uri sample_document) (reviews sample_workspace)).
  { assert (Hds : exists d0 d2,
               diagnostics_of (uri sample_document) (reviews sample_workspace)
               = [d0; recursion_diagnostic; d2])
      by (eexists _, _; vm_compute; reflexivity).
    destruct Hds as (d0 & d2 & ->). right. left. }
  assert (Hline : lineAt sample_document
                    (num_of_nat (range_line (range recursion_diagnostic)))
                  = Ok (lit "const total = items.length;",
                        {| range_line := 7; range_start := 0; range_end := 27 |}))
    by (vm_compute; reflexivity).
  assert (Hfix : fixed_text direct_fix_response = Ok fixed_line)
    by (vm_compute; reflexivity).
  assert (Hkey : absent (apiKeySetting sample_workspace) = false \/ absent None = false)
    by (left; vm_compute; reflexivity).
  destruct (offered_fix_removes_its_diagnostic sample_commands None None sample_document
              recursion_diagnostic direct_fix_response _ _ Hin Hkey Hline Hfix)
    as (Hlen & _).
  assert (Hthree : length (diagnostics_of (uri sample_document) (reviews sample_workspace))
                   = 3%nat) by (vm_compute; reflexivity).
  apply Nat.succ_inj. etransitivity; [exact Hlen|exact Hthree].
Defined.

(** X16.  No sequence of reviews of a file or a selection, quick reviews,
    clearings and saves sends an edit to the editor: of the commands on the
    diagnostic collection only [applyAIFix] changes the text of a
    document. *)
Theorem only_fixes_edit (cs : list Command) (w : Workspace) :
  forallb (fun c => negb (is_fix c)) cs = true ->
  edits (reviews (execute_all cs w)) = edits (reviews w).
Proof.
  revert w. induction cs as [|c cs IH]; intros w; [reflexivity|].
  simpl. intros H. apply andb_true_iff in H as [Hc H]. rewrite (IH _ H). clear IH H.
  assert (Hrc : forall document start entered response,
             edits (reviews (reviewCode_command document start entered response w))
             = edits (reviews w)).
  { intros document start entered response. unfold reviewCode_command.
    pose proof (getApiKey_reviews entered w) as Hr.
    destruct (getApiKey entered w) as [k w1]. simpl in *. rewrite <- Hr.
    apply (reviewCode_cases document start k response (reviews w1)). }
  assert (Hrd : forall document entered response,
             edits (reviews (reviewDocument document entered response w))
             = edits (reviews w)).
  { intros document entered response. unfold reviewDocument.
    destruct (negb (existsb _ _)); [reflexivity|apply Hrc]. }
  destruct c as [editor entered response|editor entered response
                |document code start entered response
                |document diagnostic entered response active
                | |reviewOnSave doc entered response]; simpl.
  - unfold reviewCurrentFile. destruct editor; [apply Hrd|reflexivity].
  - unfold reviewSelectedCode. destruct editor as [e|]; [|reflexivity].
    destruct (selection_text e); [reflexivity|apply Hrc].
  - unfold quickReviewSelection_command. destruct code as [|c code']; [reflexivity|].
    pose proof (getApiKey_reviews entered w) as Hr.
    destruct (getApiKey entered w) as [k w1]. simpl in *. rewrite <- Hr.
    apply (quickReviewSelection_cases document (c :: code') start k response (reviews w1)).
  - discriminate.
  - reflexivity.
  - unfold onDidSaveTextDocument. destruct reviewOnSave; [apply Hrd|reflexivity].
Qed.

Lemma only_fixes_edit_witness : edits (reviews sample_workspace) = [].
Proof. apply (only_fixes_edit sample_commands (activated None)). reflexivity. Defined.

(** ** More on the chat session *)

(** The webview script leaves the globals of the extension alone. *)
Lemma webview_receives_extension (m : ToWebview) (c : Chat) :
  conversationHistory (webview_receives m c) = conversationHistory c
  /\ outstanding (webview_receives m c) = outstanding c.
Proof.
  destruct m as [t|e| |t]; simpl; try (split; reflexivity).
  - unfold typeMessage. simpl.
    destruct (get_prop t (lit "length") ≫= _) as [more|]; simpl; [|split; reflexivity].
    destruct (more && isStreaming c); split; reflexivity.
  - destruct (currentTypingDiv c); split; reflexivity.
Qed.

Lemma webview_receives_streaming (m : ToWebview) (c : Chat) :
  isStreaming (webview_receives m c)
  = match m with
    | aiResponse _ | chatCleared => isStreaming c
    | chatError _ | streamStopped _ => false
    end.
Proof.
  destruct m as [t|e| |t]; simpl; try reflexivity.
  unfold typeMessage. simpl.
  destruct (get_prop t (lit "length") ≫= _) as [more|]; simpl; [|reflexivity].
  destruct (more && isStreaming c); reflexivity.
Qed.

Lemma postMessage_history (m : ToWebview) (c : Chat) :
  conversationHistory (postMessage m c) = conversationHistory c.
Proof. unfold postMessage. rewrite (proj1 (webview_receives_extension _ _)). reflexivity. Qed.

Lemma postMessage_outstanding (m : ToWebview) (c : Chat) :
  outstanding (postMessage m c) = outstanding c.
Proof. unfold postMessage. rewrite (proj2 (webview_receives_extension _ _)). reflexivity. Qed.

Lemma postMessage_streaming (m : ToWebview) (c : Chat) :
  isStreaming (postMessage m c)
  = match m with
    | aiResponse _ | chatCleared => isStreaming c
    | chatError _ | streamStopped _ => false
    end.
Proof. unfold postMessage. rewrite webview_receives_streaming. reflexivity. Qed.

(** What the sending of a message with a key does, from the idle state. *)
Lemma step_sends (input key : jsstring) (editor : option EditorContext) (c : Chat) :
  isStreaming c = false -> trim input <> [] ->
  let c' := step (UserSends input (Some key) editor) c in
  let turn := {| role := user; text := VStr (fullPrompt (trim input) editor) |} in
  conversationHistory c' = conversationHistory c ++ [turn]
  /\ outstanding c' = outstanding c ++ [contents (conversationHistory c ++ [turn])]
  /\ posted c' = posted c
  /\ isStreaming c' = true
  /\ currentStreamController c' = currentStreamController c.
Proof.
  intros Hidle Hmsg. cbn [step]. destruct (trim input) as [|x m]; [congruence|].
  rewrite Hidle. cbn. auto.
Qed.

(** What the settling of the only outstanding request does. *)
Lemma step_settles (response : result value) (body : list (string * value)) (c : Chat) :
  outstanding c = [body] ->
  let c' := step (RequestSettles response) c in
  outstanding c' = []
  /\ match r ← response; first_candidate_text r with
     | Ok aiText =>
         conversationHistory c'
         = conversationHistory c ++ [{| role := assistant; text := aiText |}]
         /\ posted c' = posted c ++ [aiResponse aiText]
         /\ isStreaming c' = isStreaming c
     | Throw e =>
         conversationHistory c' = conversationHistory c
         /\ posted c' = posted c ++ [chatError (RequestError e)]
         /\ isStreaming c' = false
     end.
Proof.
  intros Hout. cbn [step]. unfold handleChatMessage_resume. rewrite Hout.
  destruct (response ≫= _) as [aiText|e];
    rewrite postMessage_outstanding, postMessage_history, postMessage_posted,
      postMessage_streaming; simpl; auto.
Qed.



(** X18.  After a reply has arrived and has been typed out, the webview is
    still in its streaming state: nothing that the extension posts for a
    reply resets it.  A further question is ignored, whatever it is, until
    the user presses the stop button, after which questions are sent
    again. *)
Theorem reply_leaves_send_blocked
    (input key input' : jsstring) (apiKey' : option jsstring)
    (editor editor' : option EditorContext)
    (response : value) (aiText : value) (c : Chat) :
  isStreaming c = false ->
  outstanding c = [] ->
  trim input <> [] ->
  first_candidate_text response = Ok aiText ->
  let c1 := run [UserSends input (Some key) editor; RequestSettles (Ok response);
                 TypingEnds] c in
  isStreaming c1 = true
  /\ posted c1 = posted c ++ [aiResponse aiText]
  /\ step (UserSends input' apiKey' editor') c1 = c1
  /\ isStreaming (step UserStops c1) = false.
Proof.
  intros Hidle Hout Hmsg Htext c1.
  destruct (step_sends input key editor c Hidle Hmsg) as (Hh & Ho & Hp & Hs & _).
  rewrite Hout in Ho. cbn [app] in Ho.
  destruct (step_settles (Ok response) _ _ Ho) as (Ho1 & H1).
  cbn [mbind result_bind] in H1. rewrite Htext in H1. destruct H1 as (Hh1 & Hp1 & Hs1).
  rewrite Hs in Hs1. rewrite Hp in Hp1.
  assert (Hstream : isStreaming c1 = true) by exact Hs1.
  split; [exact Hstream|]. split; [exact Hp1|]. split.
  - cbn [step]. rewrite Hstream. destruct (trim input'); reflexivity.
  - cbn [step onDidReceiveMessage]. unfold extension_receives_stopStream.
    change (currentStreamController (removeLoading (set_streaming false c1)))
      with (currentStreamController c1).
    destruct (currentStreamController c1); [|reflexivity].
    rewrite postMessage_streaming. reflexivity.
Qed.

(** The question of the sample session, answered; a second question is
    ignored. *)
Lemma reply_leaves_send_blocked_witness :
  step (UserSends answer (Some sample_key) None)
    (run [UserSends question (Some sample_key) None;
          RequestSettles (Ok (response_of answer)); TypingEnds] initial)
  = run [UserSends question (Some sample_key) None;
         RequestSettles (Ok (response_of answer)); TypingEnds] initial.
Proof.
  assert (Hq : trim question <> []) by (vm_compute; discriminate).
  destruct (reply_leaves_send_blocked question sample_key answer (Some sample_key)
              None None (response_of answer) (VStr answer) initial
              eq_refl eq_refl Hq eq_refl)
    as (_ & _ & Hignored & _).
  exact Hignored.
Defined.

Lemma typeMessage_container (t : value) (c : Chat) :
  exists revealing,
    chatContainer (typeMessage t c)
    = remove_first is_empty_state (chatContainer c)
      ++ [(next_node c, TypedMessage t revealing None)].
Proof.
  unfold typeMessage.
  destruct (get_prop t (lit "length") ≫= _) as [more|]; [|eexists; reflexivity].
  destruct (more && _); eexists; reflexivity.
Qed.

(** X19.  When the user clears the chat while a request is outstanding,
    the history is emptied at once, but the reply that arrives later is
    appended to it: the history then starts with an assistant turn whose
    question is gone, and the reply is shown in the cleared view. *)
Theorem late_reply_after_clear
    (input key : jsstring) (editor : option EditorContext)
    (response : value) (aiText : value) (c : Chat) :
  isStreaming c = false ->
  outstanding c = [] ->
  trim input <> [] ->
  first_candidate_text response = Ok aiText ->
  let c1 := run [UserSends input (Some key) editor; UserClears] c in
  let c2 := step (RequestSettles (Ok response)) c1 in
  conversationHistory c1 = []
  /\ length (outstanding c1) = 1%nat
  /\ snd <$> chatContainer c1 = [EmptyState]
  /\ conversationHistory c2 = [{| role := assistant; text := aiText |}]
  /\ posted c2 = posted c ++ [chatCleared; aiResponse aiText]
  /\ exists revealing,
       snd <$> chatContainer c2 = [TypedMessage aiText revealing None].
Proof.
  intros Hidle Hout Hmsg Htext c1 c2.
  destruct (step_sends input key editor c Hidle Hmsg) as (Hh & Ho & Hp & Hs & _).
  rewrite Hout in Ho. cbn [app] in Ho.
  set (c0 := step (UserSends input (Some key) editor) c) in *.
  assert (Hc1 : conversationHistory c1 = []
                /\ outstanding c1 = outstanding c0
                /\ posted c1 = posted c0 ++ [chatCleared]
                /\ chatContainer c1 = [(next_node c0, EmptyState)]
                /\ isStreaming c1 = isStreaming c0).
  { unfold c1. cbn [run fold_left]. fold c0. cbn. auto. }
  destruct Hc1 as (Hh1 & Ho1 & Hp1 & Hc1 & Hs1).
  rewrite Ho in Ho1. rewrite Hp in Hp1. clearbody c1.
  split; [exact Hh1|]. split; [rewrite Ho1; reflexivity|].
  split; [rewrite Hc1; reflexivity|].
  destruct (step_settles (Ok response) _ _ Ho1) as (_ & H2).
  cbn [mbind result_bind] in H2. rewrite Htext in H2. destruct H2 as (Hh2 & Hp2 & _).
  fold c2 in Hh2, Hp2. rewrite Hh1 in Hh2. rewrite Hp1, <- app_assoc in Hp2.
  split; [exact Hh2|]. split; [exact Hp2|].
  unfold c2. cbn [step]. unfold handleChatMessage_resume. rewrite Ho1.
  simpl. rewrite Htext. unfold postMessage. cbn [webview_receives].
  match goal with
  | |- context [typeMessage ?t ?x] =>
      destruct (typeMessage_container t x) as [revealing Hrev]
  end.
  exists revealing. rewrite Hrev. unfold removeLoading, with_container.
  cbn [chatContainer next_node]. rewrite Hc1. reflexivity.
Qed.

(** The sample question, cleared and then answered. *)
Lemma late_reply_after_clear_witness :
  role <$> conversationHistory
             (run [UserSends question (Some sample_key) None; UserClears;
                   RequestSettles (Ok (response_of answer))] initial)
  = [assistant].
Proof.
  assert (Hq : trim question <> []) by (vm_compute; discriminate).
  destruct (late_reply_after_clear question sample_key None (response_of answer)
              (VStr answer) initial eq_refl eq_refl Hq eq_refl)
    as (_ & _ & _ & Hh & _).
  change (run [UserSends question (Some sample_key) None; UserClears;
               RequestSettles (Ok (response_of answer))] initial)
    with (step (RequestSettles (Ok (response_of answer)))
            (run [UserSends question (Some sample_key) None; UserClears] initial)).
  rewrite Hh. reflexivity.
Defined.




(** Two questions with the stop button between them: both requests are
    outstanding, each with its own question. *)
Lemma pending_questions_example :
  pending_questions
    [UserSends question (Some sample_key) None; UserStops;
     UserSends answer (Some sample_key) None] initial []
  = [question; answer].
Proof. vm_compute. reflexivity. Qed.

(** *** The loading indicator *)












(** ** What the messages of a review say *)

(** X22.  The message that ends a review pass tells what the pass wrote.
    After "Found n issue(s)" the document has exactly the n diagnostics of
    the pass, and n is not 0; after "No issues found!" it has none.  After
    "Found n critical issue(s)" the document has n diagnostics more than
    before, and n is not 0; after "No critical issues found!" the
    collection is what it was. *)
Theorem review_message_tells_what_was_written
    (document : TextDocument) (code : jsstring) (start : nat) (apiKey : option jsstring)
    (response : result value) (σ : State) (n : nat) :
  (let σ' := reviewCode document start apiKey response σ in
   (notifications σ' = notifications σ ++ [InfoFound n] ->
    length (diagnostics_of (uri document) σ') = n /\ n <> 0%nat)
   /\ (notifications σ' = notifications σ ++ [InfoNoIssues] ->
       diagnosticCollection σ' !! uri document = Some []))
  /\
  (let σ' := quickReviewSelection document code start apiKey response σ in
   (notifications σ' = notifications σ ++ [InfoFoundCritical n] ->
    length (diagnostics_of (uri document) σ')
    = (length (diagnostics_of (uri document) σ) + n)%nat /\ n <> 0%nat)
   /\ (notifications σ' = notifications σ ++ [InfoNoCritical] ->
       diagnosticCollection σ' = diagnosticCollection σ)).
Proof.
  assert (Hself : forall (l : list Notification) x, l = l ++ [x] -> False).
  { intros l x H. apply (f_equal (@length _)) in H. rewrite length_app in H.
    simpl in H. lia. }
  split.
  - destruct (reviewCode_cases document start apiKey response σ)
      as (_ & [(_ & Heq) | [(key & e & _ & _ & _ & _ & Hn)
                           | (key & r & l & _ & _ & _ & Hd & _ & Hn)]]);
      simpl in *; split; intros H.
    + rewrite Heq in H. destruct (Hself _ _ H).
    + rewrite Heq in H. destruct (Hself _ _ H).
    + rewrite Hn in H. apply app_inj_tail in H as [_ H]. discriminate.
    + rewrite Hn in H. apply app_inj_tail in H as [_ H]. discriminate.
    + rewrite Hn in H. apply app_inj_tail in H as [_ H].
      unfold diagnostics_of, collection_get. rewrite Hd, lookup_insert_eq. simpl.
      rewrite allocate_length.
      destruct (Nat.eqb_spec (length l) 0); [discriminate|].
      injection H as <-. auto.
    + rewrite Hn in H. apply app_inj_tail in H as [_ H].
      rewrite Hd, lookup_insert_eq.
      destruct (Nat.eqb_spec (length l) 0) as [Hl|]; [|discriminate].
      destruct l; [reflexivity|discriminate].
  - destruct (quickReviewSelection_cases document code start apiKey response σ)
      as (_ & [(_ & _ & Heq) | [(Hd & _ & Hn)
                               | (key & r & l & _ & _ & _ & _ & Hl & Hd & _ & Hn)]]);
      simpl in *; split; intros H.
    + rewrite Heq in H. destruct (Hself _ _ H).
    + rewrite Heq. reflexivity.
    + exfalso. destruct Hn as [(_ & Hn) | [(key & e & _ & _ & _ & Hn)
                                          | (key & r & _ & _ & _ & _ & Hn)]];
        rewrite Hn in H; apply app_inj_tail in H as [_ H]; discriminate.
    + exact Hd.
    + rewrite Hn in H. apply app_inj_tail in H as [_ H]. injection H as <-.
      unfold diagnostics_of at 1. unfold collection_get. rewrite Hd, lookup_insert_eq.
      simpl. rewrite length_app, allocate_length. split; [reflexivity|].
      destruct l; [congruence|discriminate].
    + rewrite Hn in H. apply app_inj_tail in H as [_ H]. discriminate.
Qed.

(** The full review of the reply with two issues, and a quick review of
    the same reply after it. *)
Lemma review_message_tells_what_was_written_witness :
  length (diagnostics_of (uri sample_document)
            (reviewCode sample_document 0 (Some sample_key)
               (Ok (response_of two_issue_reply)) empty_state)) = 2%nat
  /\ length (diagnostics_of (uri sample_document)
               (quickReviewSelection sample_document (lit "f(x)") 0 (Some sample_key)
                  (Ok (response_of two_issue_reply)) reviewed_state))
     = (length (diagnostics_of (uri sample_document) reviewed_state) + 2)%nat.
Proof.
  split.
  - destruct (review_message_tells_what_was_written sample_document (lit "f(x)") 0
                (Some sample_key) (Ok (response_of two_issue_reply)) empty_state 2)
      as [[Hfound _] _].
    apply Hfound. vm_compute. reflexivity.
  - destruct (review_message_tells_what_was_written sample_document (lit "f(x)") 0
                (Some sample_key) (Ok (response_of two_issue_reply)) reviewed_state 2)
      as [_ [Hfound _]].
    apply Hfound. vm_compute. reflexivity.
Defined.

(** ** The keywords of the quality filter *)

Lemma starts_with_refl (p : jsstring) : starts_with p p = true.
Proof. induction p as [|c p IH]; [reflexivity|]. simpl. rewrite N.eqb_refl. exact IH. Qed.

Lemma includes_self (p : jsstring) : includes p p = true.
Proof. destruct p; simpl; [reflexivity|]. rewrite N.eqb_refl, starts_with_refl. reflexivity. Qed.

Lemma toLowerCase_app (a b : jsstring) :
  toLowerCase (a ++ b) = toLowerCase a ++ toLowerCase b.
Proof. unfold toLowerCase. apply flat_map_app. Qed.

(** X23.  The filter looks for its keywords anywhere in the message,
    in any mix of upper and lower case, also inside a word: an issue whose
    message contains "comment", "naming" or "style" as part of a longer
    word, such as "renaming" or "Uncommented", is discarded like one about
    comments, naming or style. *)
Theorem keyword_inside_a_word_is_filtered
    (props : list (jsstring * value)) (pre word post : jsstring) :
  own_prop props (lit "message") = Some (VStr (pre ++ word ++ post)) ->
  toLowerCase word = lit "comment" \/ toLowerCase word = lit "naming"
  \/ toLowerCase word = lit "style" ->
  low_value (pre ++ word ++ post) = true
  /\ quality_filter (VObj props) = Ok false.
Proof.
  intros Hm Hword.
  assert (Hlow : low_value (pre ++ word ++ post) = true).
  { unfold low_value. rewrite !toLowerCase_app.
    assert (Hin : forall k, toLowerCase word = k ->
               includes (toLowerCase pre ++ toLowerCase word ++ toLowerCase post) k = true).
    { intros k <-. apply includes_app_r, includes_app_l, includes_self. }
    destruct Hword as [H | [H | H]]; rewrite (Hin _ H); rewrite ?orb_true_r; reflexivity. }
  split; [exact Hlow|].
  rewrite (quality_filter_text props _ Hm), Hlow. simpl negb.
  rewrite andb_false_r. reflexivity.
Qed.

(** An issue about a race whose message starts with "Renaming". *)
Lemma keyword_inside_a_word_is_filtered_witness :
  quality_filter renaming_issue = Ok false.
Proof.
  apply (keyword_inside_a_word_is_filtered
           [(lit "line", VNum (Fin 5));
            (lit "message", VStr (lit "Renaming the file races with the open handle"));
            (lit "severity", VStr (lit "error"))]
           (lit "Re") (lit "naming") (lit " the file races with the open handle")).
  - reflexivity.
  - right. left. reflexivity.
Defined.

(** ** A fix for a line that is gone *)

(** X24.  When the document no longer has the line of a diagnostic, the
    fix of that diagnostic fails on the first thing it does, the reading of
    the line: "Fix failed" is shown, whatever the reply would have been, no
    edit is sent, and the diagnostic stays in the collection. *)
Theorem fix_of_a_missing_line_fails
    (document : TextDocument) (diagnostic : Diagnostic) (key : jsstring)
    (response : result value) (activeTextEditor : option string) (σ : State) :
  (lineCount document <= range_line (range diagnostic))%nat ->
  let σ' := applyAIFix document diagnostic (Some key) response activeTextEditor σ in
  notifications σ' = notifications σ ++ [ErrorFixFailed IllegalLine]
  /\ edits σ' = edits σ
  /\ diagnosticCollection σ' = diagnosticCollection σ.
Proof.
  intros Hgone.
  assert (Hline : lineAt document (num_of_nat (range_line (range diagnostic)))
                  = Throw IllegalLine).
  { unfold lineAt, num_of_nat. rewrite Qfloor_Z.
    destruct (Z.ltb_spec (Z.of_nat (range_line (range diagnostic)))
                (Z.of_nat (lineCount document))); [lia|].
    rewrite andb_false_r. reflexivity. }
  unfold applyAIFix. rewrite Hline. simpl. auto.
Qed.

(** The fix of the diagnostic on line 7 after the document has been cut
    down to two lines. *)
Lemma fix_of_a_missing_line_fails_witness :
  notifications (applyAIFix shortened_document recursion_diagnostic (Some sample_key)
                   (Ok direct_fix_response) (Some (uri shortened_document))
                   (reviews sample_workspace))
  = notifications (reviews sample_workspace) ++ [ErrorFixFailed IllegalLine].
Proof.
  apply (fix_of_a_missing_line_fails shortened_document recursion_diagnostic sample_key
           (Ok direct_fix_response) (Some (uri shortened_document))
           (reviews sample_workspace)).
  vm_compute. lia.
Defined.

(** ** The two expressions side by side *)

Lemma up_to_last_close_extends (a post : jsstring) :
  up_to_last_close (a ++ 93 :: post)
  = Some (a ++ 93 :: default [] (up_to_last_close post)).
Proof.
  induction a as [|c a IH]; simpl.
  - destruct (up_to_last_close post); reflexivity.
  - rewrite IH. reflexivity.
Qed.

Lemma up_to_first_close_prefix (a post : jsstring) :
  exists mid rest, up_to_first_close (a ++ 93 :: post) = Some (mid ++ [93])
                   /\ a ++ 93 :: post = mid ++ 93 :: rest.
Proof.
  induction a as [|c a (mid & rest & IH & Heq)]; simpl.
  - exists [], post. split; reflexivity.
  - destruct (N.eqb_spec c 93) as [->|_].
    + exists [], (a ++ 93 :: post). split; reflexivity.
    + rewrite IH. simpl. exists (c :: mid), rest. rewrite Heq. split; reflexivity.
Qed.

(** X25.  The expression of the quick review finds a bracketed text in a
    reply exactly when the expression of the full review finds one, and the
    text that the full review parses starts with the text that the quick
    review parses: the two differ only in how far they go on after the
    first closing bracket. *)
Theorem expressions_start_together (s : jsstring) :
  (forall m, re_lazy s = Some m -> exists rest, re_greedy s = Some (m ++ rest))
  /\ (forall m', re_greedy s = Some m' ->
        exists m rest, re_lazy s = Some m /\ m' = m ++ rest)
  /\ (re_lazy s = None <-> re_greedy s = None).
Proof.
  assert (H1 : forall m, re_lazy s = Some m -> exists rest, re_greedy s = Some (m ++ rest)).
  { intros m H. apply re_lazy_spec in H as (pre & mid & post & -> & Hpre & _ & ->).
    unfold re_greedy. rewrite bracket_match_skip by assumption.
    simpl. rewrite up_to_last_close_extends.
    exists (default [] (up_to_last_close post)).
    rewrite <- app_assoc. reflexivity. }
  assert (H2 : forall m', re_greedy s = Some m' ->
                 exists m rest, re_lazy s = Some m /\ m' = m ++ rest).
  { intros m' H. pose proof H as H'.
    apply re_greedy_spec in H as (pre & mid & post & Hs & Hpre & _ & _).
    assert (Hl : exists m, re_lazy s = Some m).
    { rewrite Hs. unfold re_lazy. rewrite bracket_match_skip by assumption. simpl.
      destruct (up_to_first_close_prefix mid post) as (mid2 & rest2 & -> & _). eauto. }
    destruct Hl as [m Hl]. destruct (H1 m Hl) as [rest Hg].
    exists m, rest. split; [exact Hl|congruence]. }
  split; [exact H1|]. split; [exact H2|].
  split; intros H.
  - destruct (re_greedy s) as [m'|] eqn:E; [|reflexivity].
    destruct (H2 m' eq_refl) as (m & rest & Hl & _). congruence.
  - destruct (re_lazy s) as [m|] eqn:E; [|reflexivity].
    destruct (H1 m eq_refl) as (rest & Hg). congruence.
Qed.

(** The reply with a bracket inside a message: the quick review parses the
    text up to that bracket, the full review the whole reply. *)
Lemma expressions_start_together_witness :
  exists rest,
    re_greedy index_message_reply
    = Some (json "[{'line':4,'message':'Index items[0]" ++ rest).
Proof.
  apply (proj1 (expressions_start_together index_message_reply)).
  vm_compute. reflexivity.
Defined.
